(** * leetcode-agent: the delivery pipeline, its ledger and its scheduler

    A shallow embedding of the Python sources

      - [src/database/models.py], [src/database/db_manager.py]
      - [src/coordinator.py]
      - [src/config.py], [main.py]
      - [src/scheduler/daily_scheduler.py]
      - [src/agents/solve_agent.py], [src/agents/fetch_agent.py]

    followed by the properties of the delivery pipeline stated over it.

    Conventions of the embedding.
      - Python [str] is [string]; the string helpers ([lower], [strip], ...)
        are the ASCII fragment of the Python methods.
      - SQLite [INTEGER] keys and Python [int] are [Z].
      - A SQLite table is the list of its rows in rowid order.
      - [CURRENT_TIMESTAMP] and [datetime.now()] are readings of a logical
        clock, a [nat].
      - SQLite and the file system are assumed to work: the
        [except Exception] arms of [DatabaseManager] that only answer I/O
        errors are not reachable in the model.  [sqlite3.IntegrityError],
        which the schema can raise on ordinary input, is modelled, and so
        is the [OverflowError] of [add_user] for a delay that does not
        fit SQLite's 64-bit integer. *)

From Stdlib Require Import ZArith Lia Ascii.
From stdpp Require Import base option list strings gmap.

Open Scope Z_scope.

(** ** Python values shared by the modules *)

Definition Timestamp := nat.

(** [Optional[str]] arguments: [None] and the empty string are both falsy. *)
Definition truthy (s : option string) : bool :=
  match s with
  | Some s' => negb (bool_decide (s' = ""))
  | None => false
  end.

Definition eqb_str (a b : string) : bool := bool_decide (a = b).
Definition eqb_Z (a b : Z) : bool := bool_decide (a = b).

(** ** src/database/models.py *)

Module User.
Record t := mk {
  id : Z;
  email : string;
  preferred_language : string;
  preferred_difficulty : string;
  solution_delivery : string;
  solution_delay_hours : Z;
  preferred_time : string;
  timezone : string;
  is_active : bool;
  created_at : Timestamp;
  updated_at : Timestamp
}.

Definition set_preferred_language (v : string) (u : t) : t :=
  mk (id u) (email u) v (preferred_difficulty u) (solution_delivery u)
     (solution_delay_hours u) (preferred_time u) (timezone u) (is_active u)
     (created_at u) (updated_at u).
Definition set_preferred_difficulty (v : string) (u : t) : t :=
  mk (id u) (email u) (preferred_language u) v (solution_delivery u)
     (solution_delay_hours u) (preferred_time u) (timezone u) (is_active u)
     (created_at u) (updated_at u).
Definition set_is_active (v : bool) (u : t) : t :=
  mk (id u) (email u) (preferred_language u) (preferred_difficulty u)
     (solution_delivery u) (solution_delay_hours u) (preferred_time u)
     (timezone u) v (created_at u) (updated_at u).
Definition set_updated_at (v : Timestamp) (u : t) : t :=
  mk (id u) (email u) (preferred_language u) (preferred_difficulty u)
     (solution_delivery u) (solution_delay_hours u) (preferred_time u)
     (timezone u) (is_active u) (created_at u) v.
End User.

Module Problem.
Record t := mk {
  id : Z;
  title : string;
  description : string;
  difficulty : string;
  test_cases : string;
  constraints : string;
  examples : string;
  hints : string;
  tags : string;
  created_at : Timestamp
}.
End Problem.

Module SentProblem.
Record t := mk {
  id : Z;
  user_id : Z;
  problem_id : Z;
  sent_at : Timestamp;
  email_status : string;
  solution_language : string
}.
End SentProblem.

Module Solution.
Record t := mk {
  problem_id : Z;
  language : string;
  solution_code : string;
  explanation : string;
  time_complexity : string;
  space_complexity : string;
  humor_comments : string
}.
End Solution.

(** ** src/database/db_manager.py *)

Module DatabaseManager.

(** The three tables the pipeline reads and writes, each with the counter
    SQLite keeps for an [AUTOINCREMENT] key (the largest key ever given
    out).  The [solutions] table is created by the schema and never
    touched by any method. *)
Record Database := mkDatabase {
  users : list User.t;
  users_seq : Z;
  problems : list Problem.t;
  problems_seq : Z;
  sent_problems : list SentProblem.t;
  sent_problems_seq : Z
}.

(** The key an [AUTOINCREMENT] column gives to a new row: one more than
    the largest key the table holds or has ever given out. *)
Definition next_key (seq : Z) (keys : list Z) : Z :=
  foldr Z.max seq keys + 1.

(** [_initialize_database] on a fresh file. *)
Definition _initialize_database : Database :=
  mkDatabase [] 0 [] 0 [] 0.

Definition with_users (us : list User.t) (seq : Z) (db : Database) :=
  mkDatabase us seq (problems db) (problems_seq db)
             (sent_problems db) (sent_problems_seq db).
Definition with_problems (ps : list Problem.t) (seq : Z) (db : Database) :=
  mkDatabase (users db) (users_seq db) ps seq
             (sent_problems db) (sent_problems_seq db).
Definition with_sent_problems (sps : list SentProblem.t) (seq : Z)
    (db : Database) :=
  mkDatabase (users db) (users_seq db) (problems db) (problems_seq db)
             sps seq.

(** [SELECT * FROM users WHERE email = ?], [fetchone()]. *)
Definition get_user_by_email (db : Database) (email : string)
    : option User.t :=
  List.find (fun u => eqb_str (User.email u) email) (users db).

(** [SELECT * FROM users WHERE id = ?], [fetchone()]. *)
Definition get_user_by_id (db : Database) (user_id : Z) : option User.t :=
  List.find (fun u => eqb_Z (User.id u) user_id) (users db).

(** What [sqlite3] binds to an [INTEGER] parameter: a Python [int] that
    fits a signed 64-bit integer.  Any other raises [OverflowError] when
    the statement is executed. *)
Definition sqlite_integer (z : Z) : bool :=
  (- 2 ^ 63 <=? z) && (z <? 2 ^ 63).

(** [INSERT INTO users ...]: binding a [solution_delay_hours] that is no
    [sqlite_integer] raises [OverflowError], answered by [None] in the
    [except Exception] arm; the [UNIQUE] constraint on [email] raises
    [sqlite3.IntegrityError], answered by [None]; neither writes a row.
    The other columns take the schema's defaults. *)
Definition add_user (now : Timestamp) (db : Database) (email : string)
    (preferred_language preferred_difficulty solution_delivery : string)
    (solution_delay_hours : Z) : option User.t * Database :=
  if negb (sqlite_integer solution_delay_hours)
  then (None, db)
  else if existsb (fun u => eqb_str (User.email u) email) (users db)
  then (None, db)
  else
    let user_id := next_key (users_seq db) (map User.id (users db)) in
    let row := User.mk user_id email preferred_language preferred_difficulty
                       solution_delivery solution_delay_hours
                       "09:00" "UTC" true now now in
    let db' := with_users (users db ++ [row]) user_id db in
    (get_user_by_id db' user_id, db').

(** The [UPDATE users SET ... WHERE email = ?] of [update_user_preferences]
    on one row. *)
Definition apply_preferences (now : Timestamp)
    (preferred_language preferred_difficulty : option string)
    (u : User.t) : User.t :=
  let u1 := if truthy preferred_language
            then User.set_preferred_language
                   (default "" preferred_language) u
            else u in
  let u2 := if truthy preferred_difficulty
            then User.set_preferred_difficulty
                   (default "" preferred_difficulty) u1
            else u1 in
  User.set_updated_at now u2.

(** [cursor.rowcount] of an [UPDATE ... WHERE email = ?]. *)
Definition rowcount_email (db : Database) (email : string) : nat :=
  length (List.filter (fun u => eqb_str (User.email u) email) (users db)).

Definition update_user_preferences (now : Timestamp) (db : Database)
    (email : string) (preferred_language preferred_difficulty : option string)
    : bool * Database :=
  if truthy preferred_language || truthy preferred_difficulty then
    let us := map (fun u => if eqb_str (User.email u) email
                            then apply_preferences now preferred_language
                                                   preferred_difficulty u
                            else u) (users db) in
    (negb (Nat.eqb (rowcount_email db email) 0),
     with_users us (users_seq db) db)
  else (false, db).

(** [UPDATE users SET is_active = 0, updated_at = CURRENT_TIMESTAMP
    WHERE email = ?]. *)
Definition deactivate_user (now : Timestamp) (db : Database)
    (email : string) : bool * Database :=
  let us := map (fun u => if eqb_str (User.email u) email
                          then User.set_updated_at now
                                 (User.set_is_active false u)
                          else u) (users db) in
  (negb (Nat.eqb (rowcount_email db email) 0),
   with_users us (users_seq db) db).

(** [SELECT * FROM users WHERE is_active = 1]. *)
Definition get_active_users (db : Database) : list User.t :=
  List.filter User.is_active (users db).

(** [SELECT * FROM problems WHERE id = ?]. *)
Definition get_problem_by_id (db : Database) (problem_id : Z)
    : option Problem.t :=
  List.find (fun p => eqb_Z (Problem.id p) problem_id) (problems db).

(** [INSERT INTO problems ...]: the key and [created_at] are the table's,
    whatever the argument carries. *)
Definition add_problem (now : Timestamp) (db : Database)
    (problem : Problem.t) : option Problem.t * Database :=
  let problem_id :=
    next_key (problems_seq db) (map Problem.id (problems db)) in
  let row := Problem.mk problem_id (Problem.title problem)
               (Problem.description problem) (Problem.difficulty problem)
               (Problem.test_cases problem) (Problem.constraints problem)
               (Problem.examples problem) (Problem.hints problem)
               (Problem.tags problem) now in
  let db' := with_problems (problems db ++ [row]) problem_id db in
  (get_problem_by_id db' problem_id, db').

(** [SELECT sp.problem_id FROM sent_problems sp WHERE sp.user_id = ?]. *)
Definition sent_problem_ids (db : Database) (user_id : Z) : list Z :=
  map SentProblem.problem_id
      (List.filter (fun sp => eqb_Z (SentProblem.user_id sp) user_id)
                   (sent_problems db)).

(** The rows the [WHERE] clause of [get_unsent_problem_for_user] keeps. *)
Definition unsent_candidates (db : Database) (user_id : Z)
    (difficulty : string) : list Problem.t :=
  List.filter
    (fun p => eqb_str (Problem.difficulty p) difficulty
              && negb (existsb (eqb_Z (Problem.id p))
                               (sent_problem_ids db user_id)))
    (problems db).

(** [ORDER BY RANDOM() LIMIT 1]: [rnd] is the draw of SQLite's generator;
    every row that passes the [WHERE] clause is the first one of some
    shuffle, and an empty selection fetches no row. *)
Definition get_unsent_problem_for_user (rnd : nat) (db : Database)
    (user_id : Z) (difficulty : string) : option Problem.t :=
  let rows := unsent_candidates db user_id difficulty in
  nth_error rows (rnd mod length rows)%nat.

(** [INSERT OR REPLACE INTO sent_problems (user_id, problem_id,
    solution_language, email_status)]: rows that collide on
    [UNIQUE(user_id, problem_id)] are deleted, then the new row is
    inserted under a fresh key with [sent_at = CURRENT_TIMESTAMP]. *)
Definition same_pair (user_id problem_id : Z) (sp : SentProblem.t) : bool :=
  eqb_Z (SentProblem.user_id sp) user_id
  && eqb_Z (SentProblem.problem_id sp) problem_id.

Definition mark_problem_sent (now : Timestamp) (db : Database)
    (user_id problem_id : Z) (solution_language email_status : string)
    : bool * Database :=
  let kept := List.filter (fun sp => negb (same_pair user_id problem_id sp))
                          (sent_problems db) in
  let row_id := next_key (sent_problems_seq db)
                         (map SentProblem.id (sent_problems db)) in
  let row := SentProblem.mk row_id user_id problem_id now
                            email_status solution_language in
  (true, with_sent_problems (kept ++ [row]) row_id db).

(** [get_user_stats]: both queries keep only rows with
    [email_status = 'sent']; the second joins [problems] on the key and
    groups by difficulty. *)
Record UserStats := mkUserStats {
  total_sent : nat;
  by_difficulty : gmap string nat
}.

Definition sent_rows (db : Database) (user_id : Z) : list SentProblem.t :=
  List.filter (fun sp => eqb_Z (SentProblem.user_id sp) user_id
                         && eqb_str (SentProblem.email_status sp) "sent")
              (sent_problems db).

Definition count_difficulty (db : Database) (sp : SentProblem.t)
    (acc : gmap string nat) : gmap string nat :=
  match get_problem_by_id db (SentProblem.problem_id sp) with
  | Some p => let d := Problem.difficulty p in
              <[d := S (default 0%nat (acc !! d))]> acc
  | None => acc
  end.

Definition get_user_stats (db : Database) (user_id : Z) : UserStats :=
  let rows := sent_rows db user_id in
  mkUserStats (length rows) (foldr (count_difficulty db) ∅ rows).

End DatabaseManager.

(** ** Python string methods (ASCII fragment) *)

Module PyStr.

(** [ord(c)]. *)
Definition ord (c : ascii) : nat := nat_of_ascii c.

Definition is_upper (c : ascii) : bool :=
  (65 <=? ord c)%nat && (ord c <=? 90)%nat.

Definition lower_char (c : ascii) : ascii :=
  if is_upper c then ascii_of_nat (ord c + 32) else c.

(** [str.lower()]. *)
Fixpoint lower (s : string) : string :=
  match s with
  | EmptyString => EmptyString
  | String c s' => String (lower_char c) (lower s')
  end.

(** [str.isspace()] on one character, also the class [\s] of [re]:
    tab, newline, vertical tab, form feed, carriage return, the four
    separators 0x1c-0x1f and the space. *)
Definition is_space (c : ascii) : bool :=
  ((9 <=? ord c)%nat && (ord c <=? 13)%nat)
  || ((28 <=? ord c)%nat && (ord c <=? 32)%nat).

Fixpoint lstrip (s : string) : string :=
  match s with
  | EmptyString => EmptyString
  | String c s' => if is_space c then lstrip s' else s
  end.

Fixpoint rstrip (s : string) : string :=
  match s with
  | EmptyString => EmptyString
  | String c s' =>
      match rstrip s' with
      | EmptyString => if is_space c then EmptyString
                       else String c EmptyString
      | r => String c r
      end
  end.

(** [str.strip()]. *)
Definition strip (s : string) : string := rstrip (lstrip s).

(** [s.startswith(p)]. *)
Fixpoint startswith (s p : string) : bool :=
  match p, s with
  | EmptyString, _ => true
  | String a p', String b s' => bool_decide (a = b) && startswith s' p'
  | String _ _, EmptyString => false
  end.

(** [c in s] for a one-character [c]. *)
Fixpoint contains_char (c : ascii) (s : string) : bool :=
  match s with
  | EmptyString => false
  | String a s' => bool_decide (a = c) || contains_char c s'
  end.

Definition newline : ascii := ascii_of_nat 10.

(** [s.split('\n')]: never empty, one more piece than newlines. *)
Fixpoint split_lines (s : string) : list string :=
  match s with
  | EmptyString => [EmptyString]
  | String c s' =>
      if bool_decide (c = newline) then EmptyString :: split_lines s'
      else match split_lines s' with
           | l :: ls => String c l :: ls
           | [] => [String c EmptyString]
           end
  end.

(** ['\n'.join(ls)]. *)
Fixpoint join_lines (ls : list string) : string :=
  match ls with
  | [] => EmptyString
  | [l] => l
  | l :: ls' => l +:+ String newline (join_lines ls')
  end.

End PyStr.

(** ** src/config.py *)

Module Config.

(** The class attributes read from the environment at import time. *)
Record t := mk {
  GROQ_API_KEY : string;
  EMAIL_ADDRESS : string;
  EMAIL_PASSWORD : string;
  DATABASE_PATH : string;
  SCHEDULER_HOUR : Z;
  SCHEDULER_MINUTE : Z;
  SCHEDULER_TIMEZONE : string
}.

(** Keys of the two constant dictionaries. *)
Definition SUPPORTED_LANGUAGES : list string :=
  ["python"; "java"; "cpp"; "javascript"; "go"; "rust"].

Definition DIFFICULTY_LEVELS : list string := ["easy"; "medium"; "hard"].

(** [not field] for a [str]. *)
Definition missing (field : string) : bool := bool_decide (field = "").

(** [validate_config]: the verdict and the lines printed (without the
    pictograph that opens the first one). *)
Definition validate_config (cls : t) : bool * list string :=
  let required_fields :=
    [GROQ_API_KEY cls; EMAIL_ADDRESS cls; EMAIL_PASSWORD cls] in
  let missing_fields := List.filter missing required_fields in
  match missing_fields with
  | _ :: _ =>
      (false,
       ["Missing required configuration:"]
       ++ (if missing (GROQ_API_KEY cls) then ["  - GROQ_API_KEY"] else [])
       ++ (if missing (EMAIL_ADDRESS cls) then ["  - EMAIL_ADDRESS"] else [])
       ++ (if missing (EMAIL_PASSWORD cls) then ["  - EMAIL_PASSWORD"]
           else []))
  | [] => (true, ["Configuration validated successfully!"])
  end.

End Config.

(** ** Effects: exceptions, the store and the collaborators *)

(** What a Python call gives back: a value, or a raised instance of
    [Exception], kept by its [str(e)]. *)
Inductive outcome (A : Type) : Type :=
| Ret (a : A)
| Raise (e : string).
Arguments Ret {A} a.
Arguments Raise {A} e.

(** A method body over a state [S]: state passing, with Python's
    exceptions.  The state reached when an exception is raised is kept, as
    the effects done before a [raise] are. *)
Module Eff.

Definition M (S A : Type) : Type := S -> outcome A * S.

Definition ret {S A} (a : A) : M S A := fun s => (Ret a, s).

(** [raise Exception(e)]. *)
Definition raise {S A} (e : string) : M S A := fun s => (Raise e, s).

Definition bind {S A B} (m : M S A) (k : A -> M S B) : M S B :=
  fun s => match m s with
           | (Ret a, s') => k a s'
           | (Raise e, s') => (Raise e, s')
           end.

(** [try: m except Exception as e: h e]. *)
Definition try_except {S A} (m : M S A) (h : string -> M S A) : M S A :=
  fun s => match m s with
           | (Ret a, s') => (Ret a, s')
           | (Raise e, s') => h e s'
           end.

Definition get {S} : M S S := fun s => (Ret s, s).

End Eff.

Import Eff.

Notation "x <- m ;; k" := (bind m (fun x => k))
  (at level 90, m at level 80, right associativity).
Notation "m ;;; k" := (bind m (fun _ => k))
  (at level 90, right associativity).

(** ** src/coordinator.py *)

Module Coordinator.

Import DatabaseManager.

(** The collaborators of the coordinator, each a call into a state [Env]
    the coordinator cannot see (the mail server, the completion API, the
    problem file, the generators of randomness, the wall clock).  Every
    agent method wraps its body in [try ... except Exception] and answers
    [None] or [False] there, so none of them raises. *)
Record Agents (Env : Type) := mkAgents {
  (** [datetime.now()], and SQLite's [CURRENT_TIMESTAMP] *)
  clock_now : Env -> Timestamp * Env;
  (** the draw behind [ORDER BY RANDOM()] *)
  sqlite_random : Env -> nat * Env;
  (** [FetchAgent.get_problem_by_difficulty] *)
  get_problem_by_difficulty : string -> Env -> option Problem.t * Env;
  (** [SolveAgent.generate_solution] *)
  generate_solution :
    Problem.t -> string -> Env -> option Solution.t * Env;
  (** [HumorAgent.add_humor_to_solution] *)
  add_humor_to_solution : Solution.t -> Env -> Solution.t * Env;
  (** [MailAgent.send_daily_problem] *)
  send_daily_problem :
    User.t -> Problem.t -> Solution.t -> Env -> bool * Env;
  (** [MailAgent.send_welcome_email] *)
  send_welcome_email : User.t -> Env -> bool * Env;
  (** [MailAgent.send_unsubscribe_confirmation] *)
  send_unsubscribe_confirmation : string -> Env -> bool * Env
}.
Arguments clock_now {Env} _ _.
Arguments sqlite_random {Env} _ _.
Arguments get_problem_by_difficulty {Env} _ _ _.
Arguments generate_solution {Env} _ _ _ _.
Arguments add_humor_to_solution {Env} _ _ _.
Arguments send_daily_problem {Env} _ _ _ _ _.
Arguments send_welcome_email {Env} _ _ _.
Arguments send_unsubscribe_confirmation {Env} _ _ _.

Section WithAgents.
Context {Env : Type} (agents : Agents Env).

(** The state a coordinator method runs in. *)
Record World := mkWorld { w_db : Database; w_env : Env }.

Definition M (A : Type) : Type := Eff.M World A.

(** A call to a collaborator. *)
Definition call {A} (f : Env -> A * Env) : M A :=
  fun w => let r := f (w_env w) in
           (Ret (fst r), mkWorld (w_db w) (snd r)).

(** A query of the store. *)
Definition query {A} (f : Database -> A) : M A :=
  fun w => (Ret (f (w_db w)), w).

(** A statement that changes the store. *)
Definition exec {A} (f : Database -> A * Database) : M A :=
  fun w => let r := f (w_db w) in
           (Ret (fst r), mkWorld (snd r) (w_env w)).

(** [_get_and_store_new_problem]. *)
Definition _get_and_store_new_problem (difficulty : string)
    : M (option Problem.t) :=
  try_except
    (problem <- call (get_problem_by_difficulty agents difficulty) ;;
     match problem with
     | None => ret None
     | Some problem =>
         now <- call (clock_now agents) ;;
         stored_problem <- exec (fun db => add_problem now db problem) ;;
         match stored_problem with
         | Some stored_problem => ret (Some stored_problem)
         | None => ret None
         end
     end)
    (fun _ => ret None).

(** Step 1 of [_process_user_email]: an unsent problem of the user's
    difficulty from the store, else a new one from the fetch agent. *)
Definition select_problem (user : User.t) : M (option Problem.t) :=
  rnd <- call (sqlite_random agents) ;;
  problem <- query (fun db =>
    get_unsent_problem_for_user rnd db (User.id user)
                                (User.preferred_difficulty user)) ;;
  match problem with
  | Some problem => ret (Some problem)
  | None => _get_and_store_new_problem (User.preferred_difficulty user)
  end.

(** Step 5 of [_process_user_email], in either arm of [if email_sent]. *)
Definition record_outcome (user : User.t) (problem : Problem.t)
    (email_status : string) : M bool :=
  now <- call (clock_now agents) ;;
  exec (fun db =>
    mark_problem_sent now db (User.id user) (Problem.id problem)
                      (User.preferred_language user) email_status).

(** [_process_user_email]. *)
Definition _process_user_email (user : User.t) : M bool :=
  try_except
    (problem <- select_problem user ;;
     match problem with
     | None => ret false
     | Some problem =>
         solution <- call (generate_solution agents problem
                             (User.preferred_language user)) ;;
         match solution with
         | None => ret false
         | Some solution =>
             enhanced_solution <-
               call (add_humor_to_solution agents solution) ;;
             email_sent <- call (send_daily_problem agents user problem
                                                    enhanced_solution) ;;
             if email_sent
             then record_outcome user problem "sent" ;;; ret true
             else record_outcome user problem "failed" ;;; ret false
         end
     end)
    (fun _ => ret false).

(** The dictionary [results] of [process_daily_emails]. *)
Record BatchResult := mkBatchResult {
  total_users : nat;
  emails_sent : nat;
  emails_failed : nat;
  errors : list string;
  start_time : Timestamp;
  end_time : option Timestamp
}.

Definition count_sent (r : BatchResult) : BatchResult :=
  mkBatchResult (total_users r) (S (emails_sent r)) (emails_failed r)
                (errors r) (start_time r) (end_time r).
Definition count_failed (r : BatchResult) : BatchResult :=
  mkBatchResult (total_users r) (emails_sent r) (S (emails_failed r))
                (errors r) (start_time r) (end_time r).
Definition append_error (msg : string) (r : BatchResult) : BatchResult :=
  mkBatchResult (total_users r) (emails_sent r) (emails_failed r)
                (errors r ++ [msg]) (start_time r) (end_time r).
Definition set_total_users (n : nat) (r : BatchResult) : BatchResult :=
  mkBatchResult n (emails_sent r) (emails_failed r)
                (errors r) (start_time r) (end_time r).
Definition set_end_time (t : Timestamp) (r : BatchResult) : BatchResult :=
  mkBatchResult (total_users r) (emails_sent r) (emails_failed r)
                (errors r) (start_time r) (Some t).

(** The body of [for user in active_users], over any per-user method
    [process], so that the [except] arm is stated for a method that
    does raise. *)
Definition process_one (process : User.t -> M bool) (user : User.t)
    (results : BatchResult) : M BatchResult :=
  try_except
    (success <- process user ;;
     if success then ret (count_sent results)
     else ret (count_failed results))
    (fun e =>
       let error_msg :=
         "Error processing user " +:+ User.email user +:+ ": " +:+ e in
       ret (append_error error_msg (count_failed results))).

Fixpoint process_users (process : User.t -> M bool)
    (active_users : list User.t) (results : BatchResult)
    : M BatchResult :=
  match active_users with
  | [] => ret results
  | user :: rest =>
      results' <- process_one process user results ;;
      process_users process rest results'
  end.

(** [process_daily_emails] over the per-user method. *)
Definition process_daily_emails_with (process : User.t -> M bool)
    : M BatchResult :=
  start <- call (clock_now agents) ;;
  let results := mkBatchResult 0 0 0 [] start None in
  try_except
    (active_users <- query get_active_users ;;
     let results := set_total_users (length active_users) results in
     match active_users with
     | [] =>
         t <- call (clock_now agents) ;;
         ret (set_end_time t results)
     | _ :: _ =>
         results <- process_users process active_users results ;;
         t <- call (clock_now agents) ;;
         ret (set_end_time t results)
     end)
    (fun e =>
       let error_msg :=
         "Critical error in daily email processing: " +:+ e in
       t <- call (clock_now agents) ;;
       ret (set_end_time t (append_error error_msg results))).

(** [process_daily_emails]. *)
Definition process_daily_emails : M BatchResult :=
  process_daily_emails_with _process_user_email.

(** [x.lower() in D] for the keys [D] of a dictionary. *)
Definition lower_in (x : string) (keys : list string) : bool :=
  existsb (eqb_str (PyStr.lower x)) keys.

(** [add_user]. *)
Definition add_user (email preferred_language preferred_difficulty : string)
    : M bool :=
  try_except
    (if bool_decide (email = "") || negb (PyStr.contains_char "@" email)
     then ret false
     else if negb (lower_in preferred_language Config.SUPPORTED_LANGUAGES)
     then ret false
     else if negb (lower_in preferred_difficulty Config.DIFFICULTY_LEVELS)
     then ret false
     else
       existing_user <- query (fun db => get_user_by_email db email) ;;
       match existing_user with
       | Some existing_user =>
           if User.is_active existing_user then ret false
           else
             now <- call (clock_now agents) ;;
             success <- exec (fun db =>
               update_user_preferences now db email
                 (Some preferred_language) (Some preferred_difficulty)) ;;
             if success then
               now <- call (clock_now agents) ;;
               exec (fun db => deactivate_user now db email) ;;;
               user <- query (fun db => get_user_by_email db email) ;;
               match user with
               | Some user =>
                   call (send_welcome_email agents user) ;;; ret true
               | None => ret true
               end
             else ret false
       | None =>
           now <- call (clock_now agents) ;;
           user <- exec (fun db =>
             DatabaseManager.add_user now db email preferred_language
               preferred_difficulty "with_problem" 24) ;;
           match user with
           | Some user =>
               call (send_welcome_email agents user) ;;; ret true
           | None => ret false
           end
       end)
    (fun _ => ret false).

(** [remove_user]. *)
Definition remove_user (email : string) : M bool :=
  try_except
    (user <- query (fun db => get_user_by_email db email) ;;
     match user with
     | None => ret false
     | Some user =>
         if negb (User.is_active user) then ret true
         else
           now <- call (clock_now agents) ;;
           success <- exec (fun db => deactivate_user now db email) ;;
           if success then
             call (send_unsubscribe_confirmation agents email) ;;; ret true
           else ret false
     end)
    (fun _ => ret false).

End WithAgents.

Arguments mkWorld {Env} _ _.
Arguments w_db {Env} _.
Arguments w_env {Env} _.

End Coordinator.

(** ** src/scheduler/daily_scheduler.py *)

Module DailyScheduler.

(** The values stored in a result dictionary. *)
Inductive PyVal : Type :=
| VNone
| VInt (z : Z)
| VStr (s : string)
| VList (l : list string)
| VCounts (l : list (string * Z))   (* a dictionary of counts *)
| VTime (t : Timestamp)             (* a [datetime] *)
| VIso (t : Timestamp).             (* [datetime.isoformat()] *)

Abbreviation Dict := (gmap string PyVal).

(** A job of the [BackgroundScheduler]'s job store. *)
Record Job := mkJob {
  job_id : string;
  job_hour : Z;
  job_minute : Z;
  job_timezone : string;
  job_max_instances : nat
}.

(** The attributes of a [DailyScheduler]; [jobs] and [aps_running] are
    the job store and the running flag of its [BackgroundScheduler]. *)
Record t := mk {
  is_running : bool;
  last_run_result : option Dict;
  jobs : list Job;
  aps_running : bool
}.

Definition the_job_id : string := "daily_leetcode_emails".

(** [__init__]. *)
Definition __init__ : t := mk false None [] false.

Definition set_is_running (b : bool) (s : t) : t :=
  mk b (last_run_result s) (jobs s) (aps_running s).
Definition set_last_run_result (r : Dict) (s : t) : t :=
  mk (is_running s) (Some r) (jobs s) (aps_running s).
Definition set_jobs (js : list Job) (s : t) : t :=
  mk (is_running s) (last_run_result s) js (aps_running s).
Definition set_aps_running (b : bool) (s : t) : t :=
  mk (is_running s) (last_run_result s) (jobs s) b.

Section WithJob.
(** [W] is the state the job function works on; the scheduler object
    lives next to it. *)
Context {W : Type}.
Variable job_function : M W Dict.
Variable now : W -> Timestamp * W.
(** the time zones [CronTrigger] knows *)
Variable known_timezone : string -> bool.

Definition St : Type := t * W.

Definition on_world {A} (m : M W A) : M St A :=
  fun s => let r := m (snd s) in (fst r, (fst s, snd r)).
Definition read_clock : M St Timestamp :=
  fun s => let r := now (snd s) in (Ret (fst r), (fst s, snd r)).
Definition self : M St t := fun s => (Ret (fst s), s).
Definition update_self (f : t -> t) : M St unit :=
  fun s => (Ret tt, (f (fst s), snd s)).

(** [CronTrigger(hour=, minute=, timezone=)] raises [ValueError] on a
    field out of range and on an unknown time zone. *)
Definition CronTrigger (hour minute : Z) (timezone : string)
    : M St (Z * Z * string) :=
  if negb ((0 <=? hour) && (hour <=? 23)) then
    raise "Error validating expression: value out of range for hour"
  else if negb ((0 <=? minute) && (minute <=? 59)) then
    raise "Error validating expression: value out of range for minute"
  else if negb (known_timezone timezone) then
    raise "unknown time zone"
  else ret (hour, minute, timezone).

(** [scheduler.add_job(..., id=, replace_existing=True,
    max_instances=)]. *)
Definition add_job (trigger : Z * Z * string) (id : string)
    (max_instances : nat) : M St unit :=
  let '(hour, minute, timezone) := trigger in
  update_self (fun s =>
    set_jobs (List.filter (fun j => negb (eqb_str (job_id j) id)) (jobs s)
              ++ [mkJob id hour minute timezone max_instances]) s).

(** [BackgroundScheduler.start()]. *)
Definition scheduler_start : M St unit :=
  s <- self ;;
  if aps_running s then raise "Scheduler is already running"
  else update_self (set_aps_running true).

(** [start]. *)
Definition start (cfg : Config.t) : M St bool :=
  try_except
    (s <- self ;;
     if is_running s then ret true
     else
       trigger <- CronTrigger (Config.SCHEDULER_HOUR cfg)
                    (Config.SCHEDULER_MINUTE cfg)
                    (Config.SCHEDULER_TIMEZONE cfg) ;;
       add_job trigger the_job_id 1 ;;;
       scheduler_start ;;;
       update_self (set_is_running true) ;;;
       ret true)
    (fun _ => ret false).

(** [stop]: [shutdown(wait=True)] raises when the scheduler is not
    running; otherwise it shuts the job store down, and the memory job
    store drops its jobs. *)
Definition stop : M St bool :=
  try_except
    (s <- self ;;
     if negb (is_running s) then ret true
     else
       (if aps_running s
        then update_self (fun s => set_jobs [] (set_aps_running false s))
        else raise "Scheduler is not running") ;;;
       update_self (set_is_running false) ;;;
       ret true)
    (fun _ => ret false).

Definition seconds_between (t0 t1 : Timestamp) : Z :=
  Z.of_nat t1 - Z.of_nat t0.

(** [_run_daily_job]; [result.update(d)] is the union that prefers
    [d]. *)
Definition _run_daily_job : M St Dict :=
  try_except
    (start_time <- read_clock ;;
     result <- on_world job_function ;;
     end_time <- read_clock ;;
     let duration := seconds_between start_time end_time in
     let result :=
       <["job_execution_time" := VInt duration]>
       (<["job_start_time" := VIso start_time]>
       (<["job_end_time" := VIso end_time]>
       (<["job_status" := VStr "completed"]> result))) in
     update_self (set_last_run_result result) ;;;
     ret result)
    (fun e =>
       t1 <- read_clock ;;
       t2 <- read_clock ;;
       let error_result : Dict :=
         <["job_status" := VStr "failed"]>
         (<["error" := VStr e]>
         (<["job_execution_time" := VInt 0]>
         (<["job_start_time" := VIso t1]>
         (<["job_end_time" := VIso t2]>
         (<["emails_sent" := VInt 0]>
         (<["emails_failed" := VInt 0]>
         (<["total_users" := VInt 0]>
         (<["errors" := VList [e]]> ∅)))))))) in
       update_self (set_last_run_result error_result) ;;;
       ret error_result).

(** [run_now]. *)
Definition run_now : M St Dict := _run_daily_job.

(** [get_last_run_result]. *)
Definition get_last_run_result : M St (option Dict) :=
  s <- self ;; ret (last_run_result s).

End WithJob.

(** *** The threads around a started scheduler

    Who can enter [_run_daily_job], one step at a time.  The worker
    thread of the [BackgroundScheduler] enters it when the cron trigger
    fires, unless its executor already counts [max_instances] running
    instances of the job (the run is then skipped).  [run_now] enters it
    on the caller's thread by a plain call: the executor is not asked
    and does not count it. *)
Record Threads := mkThreads {
  cron_instances : nat;     (* runs the executor counts *)
  manual_instances : nat    (* runs entered through [run_now] *)
}.

Definition in_flight (th : Threads) : nat :=
  (cron_instances th + manual_instances th)%nat.

Inductive Action : Type :=
| CronFires          (* the trigger's time has come *)
| CronReturns        (* a run of the worker thread ends *)
| RunNowCalled       (* some thread calls [run_now()] *)
| RunNowReturns.     (* that call returns *)

(** One action, [None] when it is not enabled (nothing to return from)
    or, for the trigger, the state unchanged when the run is skipped. *)
Definition step (max_instances : nat) (a : Action) (th : Threads)
    : option Threads :=
  match a with
  | CronFires =>
      if (cron_instances th <? max_instances)%nat
      then Some (mkThreads (S (cron_instances th)) (manual_instances th))
      else Some th
  | CronReturns =>
      match cron_instances th with
      | S n => Some (mkThreads n (manual_instances th))
      | O => None
      end
  | RunNowCalled =>
      Some (mkThreads (cron_instances th) (S (manual_instances th)))
  | RunNowReturns =>
      match manual_instances th with
      | S n => Some (mkThreads (cron_instances th) n)
      | O => None
      end
  end.

Fixpoint run (max_instances : nat) (actions : list Action)
    (th : Threads) : option Threads :=
  match actions with
  | [] => Some th
  | a :: rest =>
      match step max_instances a th with
      | Some th' => run max_instances rest th'
      | None => None
      end
  end.

Definition idle : Threads := mkThreads 0 0.

End DailyScheduler.

(** ** main.py *)

Module Main.

Import DailyScheduler.

(** What [print] writes.  Lines built by an f-string are kept by their
    arguments; the pictographs that open most lines are left out. *)
Inductive Line : Type :=
| Text (s : string)
| HealthLine (component : string) (status : bool)
| ScheduleLine (hour minute : Z) (timezone : string)
| NextRunLine (t : Timestamp)
| CountLine (label : string) (n : nat)
| ValueLine (label : string) (v : PyVal)
| LenLine (label : string) (v : PyVal)
| DurationLine (seconds : Z)
| ErrorLine (context e : string)
| Summary (cfg : Config.t)    (* the lines read off [get_config_summary()] *)
| Help.                       (* [parser.print_help()] *)

(** The calls main.py makes into [LeetcodeEmailCoordinator]. *)
Inductive Call : Type :=
| NewCoordinator
| TestSystemHealth
| ProcessDailyEmails
| InitializeSampleData
| GetSystemStats.

(** The command line: the five flags of [argparse]. *)
Record Args := mkArgs {
  arg_scheduler : bool;
  arg_run_once : bool;
  arg_init_data : bool;
  arg_test : bool;
  arg_config : bool
}.

Section WithCoordinator.
(** [W] is everything behind the coordinator: store, agents, clock. *)
Context {W : Type}.
Variable new_coordinator : M W unit.
Variable test_system_health : M W (list (string * bool)).
Variable process_daily_emails : M W Coordinator.BatchResult.
Variable initialize_sample_data : M W bool.
Variable get_system_stats : M W Dict.
Variable now : W -> Timestamp * W.
Variable known_timezone : string -> bool.
(** [job.next_run_time] of the registered job *)
Variable next_run_time : W -> option Timestamp.
(** the runs of the job the executor starts before the operator's
    Ctrl+C, the only way out of [while True: time.sleep(60)]: the firings
    of the trigger that are not skipped (for a run still in flight, with
    [max_instances=1], or as a misfire) *)
Variable fires_before_interrupt : W -> nat.

(** The process: its standard output, the calls made so far and the
    world. *)
Record Proc := mkProc {
  stdout : list Line;
  calls : list Call;
  world : W
}.

Definition St : Type := DailyScheduler.t * Proc.

Definition print (l : Line) : M St unit :=
  fun s => (Ret tt, (fst s, mkProc (stdout (snd s) ++ [l])
                                   (calls (snd s)) (world (snd s)))).

Fixpoint print_all (ls : list Line) : M St unit :=
  match ls with
  | [] => ret tt
  | l :: ls' => print l ;;; print_all ls'
  end.

(** A call into the coordinator, noted in [calls]. *)
Definition coordinator {A} (c : Call) (m : M W A) : M Proc A :=
  fun p => let r := m (world p) in
           (fst r, mkProc (stdout p) (calls p ++ [c]) (snd r)).

Definition proc_now (p : Proc) : Timestamp * Proc :=
  let r := now (world p) in
  (fst r, mkProc (stdout p) (calls p) (snd r)).

(** The dictionary [process_daily_emails] returns, as the scheduler
    sees it. *)
Definition results_dict (r : Coordinator.BatchResult) : Dict :=
  <["total_users" := VInt (Z.of_nat (Coordinator.total_users r))]>
  (<["emails_sent" := VInt (Z.of_nat (Coordinator.emails_sent r))]>
  (<["emails_failed" := VInt (Z.of_nat (Coordinator.emails_failed r))]>
  (<["errors" := VList (Coordinator.errors r)]>
  (<["start_time" := VTime (Coordinator.start_time r)]>
  (<["end_time" := match Coordinator.end_time r with
                   | Some t => VTime t
                   | None => VNone
                   end]> ∅))))).

(** [coordinator.process_daily_emails()]. *)
Definition batch : M Proc Coordinator.BatchResult :=
  coordinator ProcessDailyEmails process_daily_emails.

(** The job function handed to [DailyScheduler]. *)
Definition job : M Proc Dict :=
  r <- batch ;; ret (results_dict r).

Definition validate (cfg : Config.t) : M St bool :=
  let v := Config.validate_config cfg in
  print_all (map Text (snd v)) ;;; ret (fst v).

(** [health.get('overall', False)]. *)
Definition overall (health : list (string * bool)) : bool :=
  match List.find (fun kv => eqb_str (fst kv) "overall") health with
  | Some kv => snd kv
  | None => false
  end.

Definition health_lines (health : list (string * bool)) : list Line :=
  map (fun kv => HealthLine (fst kv) (snd kv))
      (List.filter (fun kv => negb (eqb_str (fst kv) "overall")) health).

(** The executor's worker thread while the main thread sleeps: [n] runs
    of [_run_daily_job], the function [start] registered, one for each
    run the executor starts.  With [max_instances=1] a run has ended
    before the next one starts, and [shutdown(wait=True)] lets the last
    one end before [stop] returns. *)
Fixpoint serve (n : nat) : M St unit :=
  match n with
  | O => ret tt
  | S n' => _run_daily_job job proc_now ;;; serve n'
  end.

(** [run_scheduler]. *)
Definition run_scheduler (cfg : Config.t) : M St bool :=
  print (Text "Starting LeetCode Email Agent Scheduler...") ;;;
  ok <- validate cfg ;;
  if negb ok then
    print (Text
      "Configuration validation failed. Please check your .env file.") ;;;
    ret false
  else
    try_except
      (on_world (coordinator NewCoordinator new_coordinator) ;;;
       print (Text "Testing system health...") ;;;
       health <- on_world (coordinator TestSystemHealth
                                       test_system_health) ;;
       if negb (overall health) then
         print (Text "System health check failed:") ;;;
         print_all (health_lines health) ;;;
         ret false
       else
         print (Text "All systems healthy!") ;;;
         update_self (fun _ => __init__) ;;;
         started <- start known_timezone cfg ;;
         if started then
           print (ScheduleLine (Config.SCHEDULER_HOUR cfg)
                               (Config.SCHEDULER_MINUTE cfg)
                               (Config.SCHEDULER_TIMEZONE cfg)) ;;;
           s <- get ;;
           match next_run_time (world (snd s)) with
           | Some t => print (NextRunLine t)
           | None => ret tt
           end ;;;
           print (Text "Scheduler is running. Press Ctrl+C to stop.") ;;;
           s <- get ;;
           serve (fires_before_interrupt (world (snd s))) ;;;
           print (Text "Stopping scheduler...") ;;;
           stop ;;;
           print (Text "Scheduler stopped successfully!") ;;;
           ret true
         else
           print (Text "Failed to start scheduler") ;;;
           ret false)
      (fun e => print (ErrorLine "Error running scheduler" e) ;;;
                ret false).

(** [stats.get(key, 0)], for a line that shows the value. *)
Definition get_or_zero (stats : Dict) (key : string) : PyVal :=
  default (VInt 0) (stats !! key).

(** [len(stats.get(key, []))]: [TypeError] for a value without a
    length. *)
Definition print_len (label : string) (stats : Dict) (key : string)
    : M St unit :=
  match default (VList []) (stats !! key) with
  | VNone | VInt _ | VTime _ => raise "object has no len()"
  | v => print (LenLine label v)
  end.

(** [run_once]. *)
Definition run_once (cfg : Config.t) : M St bool :=
  print (Text "Running LeetCode Email Agent once...") ;;;
  ok <- validate cfg ;;
  if negb ok then
    print (Text
      "Configuration validation failed. Please check your .env file.") ;;;
    ret false
  else
    try_except
      (on_world (coordinator NewCoordinator new_coordinator) ;;;
       print (Text "Processing daily emails...") ;;;
       result <- on_world batch ;;
       print (Text "Results:") ;;;
       print (CountLine "Total users" (Coordinator.total_users result)) ;;;
       print (CountLine "Emails sent" (Coordinator.emails_sent result)) ;;;
       print (CountLine "Emails failed"
                        (Coordinator.emails_failed result)) ;;;
       match Coordinator.errors result with
       | e :: es =>
           print (Text "Errors:") ;;;
           print_all (map (ErrorLine "") (e :: es))
       | [] => ret tt
       end ;;;
       (* the two defaults [datetime.now()] are evaluated, used or not *)
       read_clock proc_now ;;;
       read_clock proc_now ;;;
       match Coordinator.end_time result with
       | Some end_time =>
           print (DurationLine
                    (seconds_between (Coordinator.start_time result)
                                     end_time))
       | None => raise "unsupported operand type(s) for -"
       end ;;;
       ret ((0 <? Coordinator.emails_sent result)%nat
            || (Coordinator.total_users result =? 0)%nat))
      (fun e => print (ErrorLine "Error running email processing" e) ;;;
                ret false).

(** [initialize_data]. *)
Definition initialize_data : M St bool :=
  print (Text "Initializing sample data...") ;;;
  try_except
    (on_world (coordinator NewCoordinator new_coordinator) ;;;
     print (Text "Loading sample problems...") ;;;
     success <- on_world (coordinator InitializeSampleData
                                      initialize_sample_data) ;;
     if success then
       print (Text "Sample data initialized successfully!") ;;;
       stats <- on_world (coordinator GetSystemStats get_system_stats) ;;
       print (ValueLine "Loaded problems"
                        (get_or_zero stats "total_problems")) ;;;
       match default (VCounts []) (stats !! "problems_by_difficulty") with
       | VCounts counts =>
           print_all (map (fun kv => ValueLine (fst kv) (VInt (snd kv)))
                          counts)
       | _ => raise "object has no attribute 'items'"
       end ;;;
       ret true
     else
       print (Text "Failed to initialize sample data") ;;;
       ret false)
    (fun e => print (ErrorLine "Error initializing data" e) ;;;
              ret false).

(** [test_system]. *)
Definition test_system : M St bool :=
  print (Text "Testing LeetCode Email Agent system...") ;;;
  try_except
    (on_world (coordinator NewCoordinator new_coordinator) ;;;
     print (Text "Running system health checks...") ;;;
     health <- on_world (coordinator TestSystemHealth
                                     test_system_health) ;;
     print (Text "System Health Report:") ;;;
     print_all (health_lines health) ;;;
     print (Text (if overall health then "All Systems Operational"
                  else "System Issues Detected")) ;;;
     print (Text "System Statistics:") ;;;
     stats <- on_world (coordinator GetSystemStats get_system_stats) ;;
     print (ValueLine "Active users"
                      (get_or_zero stats "total_active_users")) ;;;
     print (ValueLine "Total problems"
                      (get_or_zero stats "total_problems")) ;;;
     print_len "Supported languages" stats "supported_languages" ;;;
     print_len "Difficulty levels" stats "supported_difficulties" ;;;
     ret (overall health))
    (fun e => print (ErrorLine "Error testing system" e) ;;;
              ret false).

(** [show_config]. *)
Definition show_config (cfg : Config.t) : M St unit :=
  print (Text "LeetCode Email Agent Configuration:") ;;;
  config_valid <- validate cfg ;;
  print (Text (if config_valid then "Configuration Status: Valid"
               else "Configuration Status: Invalid")) ;;;
  print (Summary cfg).

(** [main], the function: [1] where it ends in [sys.exit(1)], [0] where
    it returns.  What the script does before it calls [main], the
    imports of its first lines, is not part of it. *)
Definition main (args : Args) (cfg : Config.t) : M St Z :=
  if negb (arg_scheduler args || arg_run_once args || arg_init_data args
           || arg_test args || arg_config args)
  then print Help ;;; ret 0
  else
    (if arg_config args then show_config cfg else ret tt) ;;;
    success <- (if arg_test args
                then r <- test_system ;; ret (r && true)
                else ret true) ;;
    success <- (if arg_init_data args
                then r <- initialize_data ;; ret (r && success)
                else ret success) ;;
    success <- (if arg_run_once args
                then r <- run_once cfg ;; ret (r && success)
                else ret success) ;;
    success <- (if arg_scheduler args
                then r <- run_scheduler cfg ;; ret (r && success)
                else ret success) ;;
    if success then ret 0 else ret 1.

End WithCoordinator.

End Main.

(** ** src/agents/solve_agent.py *)

Module SolveAgent.

Import PyStr.

(** *** The two patterns of [_extract_code_block]

    A backtracking matcher for exactly the two expressions the method
    gives to [re.search].  [language] is pasted into the first one as it
    is, which the matcher reads as the literal it is for every name made
    of letters and digits, as the keys of [SUPPORTED_LANGUAGES] are. *)

Definition fence : string := "```".
Definition closing_fence : string := String newline fence.

(** [p] at the head of [s], exactly: what follows it. *)
Fixpoint after_literal (p s : string) : option string :=
  match p, s with
  | EmptyString, _ => Some s
  | String a p', String b s' =>
      if bool_decide (a = b) then after_literal p' s' else None
  | String _ _, EmptyString => None
  end.

(** The same under [re.IGNORECASE]. *)
Fixpoint after_literal_ci (p s : string) : option string :=
  match p, s with
  | EmptyString, _ => Some s
  | String a p', String b s' =>
      if bool_decide (lower_char a = lower_char b)
      then after_literal_ci p' s' else None
  | String _ _, EmptyString => None
  end.

(** [(.*?)\n```] under [re.DOTALL]: the group is the shortest prefix
    that the closing fence follows. *)
Fixpoint lazy_body (s : string) : option string :=
  if startswith s closing_fence then Some EmptyString
  else match s with
       | EmptyString => None
       | String c s' => String c <$> lazy_body s'
       end.

(** [\s*\n(.*?)\n```]: the greedy [\s*] takes a character before it
    tries to stop, and gives it back when the rest cannot match. *)
Fixpoint spaces_newline_body (s : string) : option string :=
  match s with
  | EmptyString => None
  | String c s' =>
      if is_space c then
        match spaces_newline_body s' with
        | Some g => Some g
        | None => if bool_decide (c = newline) then lazy_body s' else None
        end
      else None
  end.

(** The first pattern, anchored at the head of [s]. *)
Definition match_language_fence (language s : string) : option string :=
  s1 ← after_literal fence s;
  s2 ← after_literal_ci language s1;
  spaces_newline_body s2.

(** The second pattern, anchored at the head of [s]. *)
Definition match_plain_fence (s : string) : option string :=
  s1 ← after_literal fence s;
  spaces_newline_body s1.

(** [re.search]: the match at the leftmost position that has one; the
    value is group 1. *)
Fixpoint search (anchored : string -> option string) (s : string)
    : option string :=
  match anchored s with
  | Some g => Some g
  | None => match s with
            | EmptyString => None
            | String _ s' => search anchored s'
            end
  end.

(** [_extract_code_block]. *)
Definition _extract_code_block (content language : string) : string :=
  match search (match_language_fence language) content with
  | Some g => strip g
  | None =>
      match search match_plain_fence content with
      | Some g => strip g
      | None => ""
      end
  end.

(** *** [_parse_solution_response] *)

(** The values [current_section] takes. *)
Inductive Section_ : Type :=
| code_ | explanation_ | time_complexity_ | space_complexity_ | approach_.

(** The dictionary [result]. *)
Record Parsed := mkParsed {
  code : string;
  explanation : string;
  time_complexity : string;
  space_complexity : string;
  approach : string
}.

Definition set_code (v : string) (r : Parsed) : Parsed :=
  mkParsed v (explanation r) (time_complexity r) (space_complexity r)
           (approach r).
Definition set_explanation (v : string) (r : Parsed) : Parsed :=
  mkParsed (code r) v (time_complexity r) (space_complexity r) (approach r).
Definition set_time_complexity (v : string) (r : Parsed) : Parsed :=
  mkParsed (code r) (explanation r) v (space_complexity r) (approach r).
Definition set_space_complexity (v : string) (r : Parsed) : Parsed :=
  mkParsed (code r) (explanation r) (time_complexity r) v (approach r).
Definition set_approach (v : string) (r : Parsed) : Parsed :=
  mkParsed (code r) (explanation r) (time_complexity r)
           (space_complexity r) v.

(** The header a line opens, tested in the order of the [if] chain. *)
Definition header_of (line : string) : option Section_ :=
  let line_lower := strip (lower line) in
  if startswith line_lower "solution:" then Some code_
  else if startswith line_lower "explanation:" then Some explanation_
  else if startswith line_lower "time complexity:"
  then Some time_complexity_
  else if startswith line_lower "space complexity:"
  then Some space_complexity_
  else if startswith line_lower "approach:" then Some approach_
  else None.

(** The loop variables. *)
Record Scan := mkScan {
  current_section : option Section_;
  current_content : list string;
  result : Parsed
}.

Definition body_text (sc : Scan) : string :=
  join_lines (current_content sc).

(** One turn of [for line in lines]. *)
Definition scan_line (language : string) (sc : Scan) (line : string)
    : Scan :=
  match header_of line with
  | Some code_ => mkScan (Some code_) [] (result sc)
  | Some explanation_ =>
      mkScan (Some explanation_) []
        (match current_section sc with
         | Some code_ =>
             set_code (_extract_code_block (body_text sc) language)
                      (result sc)
         | _ => result sc
         end)
  | Some time_complexity_ =>
      mkScan (Some time_complexity_) []
        (match current_section sc with
         | Some explanation_ =>
             set_explanation (strip (body_text sc)) (result sc)
         | _ => result sc
         end)
  | Some space_complexity_ =>
      mkScan (Some space_complexity_) []
        (match current_section sc with
         | Some time_complexity_ =>
             set_time_complexity (strip (body_text sc)) (result sc)
         | _ => result sc
         end)
  | Some approach_ =>
      mkScan (Some approach_) []
        (match current_section sc with
         | Some space_complexity_ =>
             set_space_complexity (strip (body_text sc)) (result sc)
         | _ => result sc
         end)
  | None =>
      match current_section sc with
      | Some _ => mkScan (current_section sc) (current_content sc ++ [line])
                         (result sc)
      | None => sc
      end
  end.

(** "Handle the last section". *)
Definition close_last (language : string) (sc : Scan) : Parsed :=
  match current_section sc with
  | Some code_ =>
      set_code (_extract_code_block (body_text sc) language) (result sc)
  | Some explanation_ => set_explanation (strip (body_text sc)) (result sc)
  | Some time_complexity_ =>
      set_time_complexity (strip (body_text sc)) (result sc)
  | Some space_complexity_ =>
      set_space_complexity (strip (body_text sc)) (result sc)
  | Some approach_ => set_approach (strip (body_text sc)) (result sc)
  | None => result sc
  end.

(** The two fallbacks that end the [try] block. *)
Definition fill_missing (content language : string) (r : Parsed)
    : Parsed :=
  let r1 := if bool_decide (code r = "")
            then set_code (_extract_code_block content language) r
            else r in
  if bool_decide (explanation r1 = "")
  then set_explanation (strip content) r1
  else r1.

Definition _parse_solution_response (content language : string)
    : Parsed :=
  let lines := split_lines content in
  let sc := fold_left (scan_line language) lines
              (mkScan None [] (mkParsed "" "" "" "" "")) in
  fill_missing content language (close_last language sc).

(** No line of the response opens a section. *)
Definition no_section_header (content : string) : bool :=
  forallb (fun line => match header_of line with
                       | Some _ => false
                       | None => true
                       end) (split_lines content).

(** [needle in s]. *)
Fixpoint contains (s needle : string) : bool :=
  startswith s needle
  || match s with
     | EmptyString => false
     | String _ s' => contains s' needle
     end.

(** *** [generate_solution]

    [client] is the Groq client when its construction succeeded;
    [create] is [client.chat.completions.create], which answers with the
    contents of the choices or raises.  The prompt is determined by the
    problem and the language, and is handed over as these two. *)
Section WithClient.
Context {Env : Type}.
Variable client : bool.
Variable create : Problem.t -> string -> Env -> outcome (list string) * Env.

Definition generate_solution (problem : Problem.t) (language : string)
    (env : Env) : option Solution.t * Env :=
  if negb client then (None, env)
  else
    let language :=
      if existsb (eqb_str (lower language)) Config.SUPPORTED_LANGUAGES
      then language else "python" in
    match create problem language env with
    | (Ret [], env') => (None, env')
    | (Ret (content :: _), env') =>
        let solution_data := _parse_solution_response content language in
        (Some (Solution.mk (Problem.id problem) (lower language)
                 (code solution_data) (explanation solution_data)
                 (time_complexity solution_data)
                 (space_complexity solution_data) ""),
         env')
    | (Raise _, env') => (None, env')
    end.
End WithClient.

End SolveAgent.

(** ** Vocabulary of the properties *)

Module Ledger.

Import DatabaseManager.

(** The delivery records of one (subscriber, item) pair. *)
Definition records_for (db : Database) (user_id problem_id : Z)
    : list SentProblem.t :=
  List.filter (same_pair user_id problem_id) (sent_problems db).

(** The deduplication contract. *)
Definition unique_pairs (db : Database) : Prop :=
  forall user_id problem_id,
    (length (records_for db user_id problem_id) <= 1)%nat.

(** The calls of [DatabaseManager] that write to the store. *)
Inductive Statement : Type :=
| AddUser (now : Timestamp) (email preferred_language preferred_difficulty
                             solution_delivery : string)
          (solution_delay_hours : Z)
| UpdateUserPreferences (now : Timestamp) (email : string)
                        (preferred_language preferred_difficulty
                         : option string)
| DeactivateUser (now : Timestamp) (email : string)
| AddProblem (now : Timestamp) (problem : Problem.t)
| MarkProblemSent (now : Timestamp) (user_id problem_id : Z)
                  (solution_language email_status : string).

Definition execute (st : Statement) (db : Database) : Database :=
  match st with
  | AddUser now email l d sd h => snd (add_user now db email l d sd h)
  | UpdateUserPreferences now email l d =>
      snd (update_user_preferences now db email l d)
  | DeactivateUser now email => snd (deactivate_user now db email)
  | AddProblem now p => snd (add_problem now db p)
  | MarkProblemSent now u p l s => snd (mark_problem_sent now db u p l s)
  end.

(** The stores that calls of [DatabaseManager] lead to. *)
Inductive reachable_from (db : Database) : Database -> Prop :=
| reach_here : reachable_from db db
| reach_step db' st :
    reachable_from db db' -> reachable_from db (execute st db').

(** The store with every delivery record dropped whose status is not
    ['sent']. *)
Definition only_sent (db : Database) : Database :=
  with_sent_problems
    (List.filter (fun sp => eqb_str (SentProblem.email_status sp) "sent")
                 (sent_problems db))
    (sent_problems_seq db) db.

(** The number of ['sent'] records of a subscriber whose item is stored
    with a given difficulty. *)
Definition sent_with_difficulty (db : Database) (user_id : Z)
    (difficulty : string) : nat :=
  length (List.filter
            (fun sp => match get_problem_by_id db
                               (SentProblem.problem_id sp) with
                       | Some p => eqb_str (Problem.difficulty p) difficulty
                       | None => false
                       end)
            (sent_rows db user_id)).

(** An item is eligible for a subscriber: stored, of the tier, and in no
    delivery record of the subscriber. *)
Definition eligible (db : Database) (user_id : Z) (difficulty : string)
    (p : Problem.t) : Prop :=
  In p (problems db)
  /\ Problem.difficulty p = difficulty
  /\ records_for db user_id (Problem.id p) = [].

End Ledger.

(** A method body keeps a property of its state. *)
Definition preserves {S A} (P : S -> Prop) (m : M S A) : Prop :=
  forall s, P s -> P (snd (m s)).

Module Pipeline.

Import DatabaseManager Ledger Coordinator.

(** A method keeps a property of the store. *)
Definition keeps {Env A} (P : Database -> Prop) (m : @M Env A) : Prop :=
  preserves (fun w : @World Env => P (w_db w)) m.

(** A method changes the store by statements of [DatabaseManager]
    only. *)
Definition by_statements {Env A} (m : @M Env A) : Prop :=
  forall w : @World Env, reachable_from (w_db w) (w_db (snd (m w))).

(** The world after [n] runs of the batch, one after the other. *)
Fixpoint run_batches {Env} (agents : Agents Env) (n : nat) (w : @World Env)
    : @World Env :=
  match n with
  | O => w
  | S n' => run_batches agents n' (snd (process_daily_emails agents w))
  end.

(** The address is in the store, and inactive wherever it is. *)
Definition inactive_address (db : Database) (email : string) : Prop :=
  (exists u, In u (users db) /\ User.email u = email)
  /\ (forall u, In u (users db) -> User.email u = email ->
                User.is_active u = false).

(** How often the address is listed by [get_active_users]. *)
Definition times_active (db : Database) (email : string) : nat :=
  length (List.filter (fun u => eqb_str (User.email u) email)
                      (get_active_users db)).

End Pipeline.

Module Startup.

Import DailyScheduler Main.

Definition is_batch (c : Call) : bool :=
  match c with
  | ProcessDailyEmails => true
  | _ => false
  end.

(** How many batches the process has run. *)
Definition batches_run (cs : list Call) : nat :=
  length (List.filter is_batch cs).

(** A required credential is missing. *)
Definition credential_missing (cfg : Config.t) : Prop :=
  Config.GROQ_API_KEY cfg = "" \/ Config.EMAIL_ADDRESS cfg = ""
  \/ Config.EMAIL_PASSWORD cfg = "".

(** What the process prints before it gives up on a missing credential. *)
Definition refusal (opening : string) (cfg : Config.t) : list Line :=
  [Text opening]
  ++ map Text (snd (Config.validate_config cfg))
  ++ [Text "Configuration validation failed. Please check your .env file."].

(** The state of the process with some more lines printed and nothing
    else changed. *)
Definition printed {W} (ls : list Line) (s : @St W) : @St W :=
  (fst s, mkProc (stdout (snd s) ++ ls) (calls (snd s)) (world (snd s))).

(** The scheduler object is as it was, and so is the number of batches
    run. *)
Definition untouched {W} (sch : DailyScheduler.t) (n : nat) (s : @St W)
    : Prop :=
  fst s = sch /\ batches_run (calls (snd s)) = n.

End Startup.

(** ** src/scheduler/daily_scheduler.py: rescheduling and inspection *)

Module SchedulerOps.

Import DailyScheduler.

(** [l[:limit]]. *)
Definition slice_to {A} (limit : Z) (l : list A) : list A :=
  if 0 <=? limit then take (Z.to_nat limit) l
  else take (Z.to_nat (Z.of_nat (length l) + limit)) l.

(** [scheduler.get_job(id)]. *)
Definition get_job (id : string) (s : t) : option Job :=
  List.find (fun j => eqb_str (job_id j) id) (jobs s).

Section WithClock.
Context {W : Type}.
(** [datetime.now()] and [time.time()], in seconds *)
Variable now : W -> Timestamp * W.
Variable known_timezone : string -> bool.
(** [time.sleep(1)] *)
Variable sleep : W -> W.

(** [scheduler.remove_job(id)]: [JobLookupError] for an id the store does
    not hold. *)
Definition remove_job (id : string) : M (@St W) unit :=
  s <- self ;;
  match get_job id s with
  | Some _ =>
      update_self (fun s =>
        set_jobs (List.filter (fun j => negb (eqb_str (job_id j) id))
                              (jobs s)) s)
  | None => raise "No job by the id of daily_leetcode_emails was found"
  end.

(** [reschedule]: the job is removed before the new trigger is built. *)
Definition reschedule (cfg : Config.t) (hour minute : option Z)
    (timezone : option string) : M (@St W) bool :=
  try_except
    (let new_hour := default (Config.SCHEDULER_HOUR cfg) hour in
     let new_minute := default (Config.SCHEDULER_MINUTE cfg) minute in
     let new_timezone := default (Config.SCHEDULER_TIMEZONE cfg) timezone in
     if negb ((0 <=? new_hour) && (new_hour <=? 23)) then ret false
     else if negb ((0 <=? new_minute) && (new_minute <=? 59)) then ret false
     else
       s <- self ;;
       if negb (is_running s) then ret false
       else
         remove_job the_job_id ;;;
         trigger <- CronTrigger known_timezone new_hour new_minute
                                new_timezone ;;
         add_job trigger the_job_id 1 ;;;
         ret true)
    (fun _ => ret false).

(** [is_job_running]: the job is looked up in the store and then found
    again among [get_jobs()]; no executor is asked. *)
Definition is_job_running : M (@St W) bool :=
  try_except
    (s <- self ;;
     if negb (is_running s) then ret false
     else
       match get_job the_job_id s with
       | Some _ =>
           ret (existsb (fun j => eqb_str (job_id j) the_job_id) (jobs s))
       | None => ret false
       end)
    (fun _ => ret false).

(** [get_job_history]: an empty dictionary is falsy. *)
Definition get_job_history (limit : Z) : M (@St W) (list Dict) :=
  s <- self ;;
  let history :=
    match last_run_result s with
    | Some r => if decide (r = ∅) then [] else [r]
    | None => []
    end in
  ret (slice_to limit history).

(** The [while] loop of [wait_for_completion]; [None] when the turns
    given to it do not suffice. *)
Fixpoint wait_loop (turns : nat) (start_time : Timestamp) (timeout : Z)
    : M (@St W) (option unit) :=
  match turns with
  | O => ret None
  | S turns' =>
      running <- is_job_running ;;
      if negb running then ret (Some tt)
      else
        t <- read_clock now ;;
        if seconds_between start_time t <? timeout then
          (fun s => (Ret tt, (fst s, sleep (snd s)))) ;;;
          wait_loop turns' start_time timeout
        else ret (Some tt)
  end.

(** [wait_for_completion]. *)
Definition wait_for_completion (turns : nat) (timeout : Z)
    : M (@St W) (option bool) :=
  start_time <- read_clock now ;;
  finished <- wait_loop turns start_time timeout ;;
  match finished with
  | None => ret None
  | Some _ => running <- is_job_running ;; ret (Some (negb running))
  end.

End WithClock.

End SchedulerOps.

(** ** src/agents/fetch_agent.py *)

Module FetchAgent.

Import PyStr.

(** An entry of the problems file: a JSON object, here with strings for
    the values of the keys the agent reads. *)
Abbreviation Entry := (gmap string string).

(** The agent and the file behind it; the file is [None] when it is
    missing or is not JSON, else the list it holds. *)
Record t := mk {
  problems_file : option (list Entry);
  _problems_cache : option (list Entry)
}.

(** [FetchAgent(problems_file)]. *)
Definition __init__ (file : option (list Entry)) : t := mk file None.

(** The file as somebody else rewrites it. *)
Definition set_file (file : option (list Entry)) (s : t) : t :=
  mk file (_problems_cache s).

(** [_load_problems]. *)
Definition _load_problems (s : t) : list Entry * t :=
  match _problems_cache s with
  | Some cache => (cache, s)
  | None =>
      match problems_file s with
      | Some entries => (entries, mk (problems_file s) (Some entries))
      | None => ([], s)
      end
  end.

(** [refresh_cache]. *)
Definition refresh_cache (s : t) : t := mk (problems_file s) None.

(** [problem_data.get(key, default)]. *)
Definition get (e : Entry) (key default_ : string) : string :=
  default default_ (e !! key).

(** [Problem(title=..., ...)] from an entry; a new problem has no key
    yet, written 0. *)
Definition to_problem (now : Timestamp) (difficulty : string) (e : Entry)
    : Problem.t :=
  Problem.mk 0 (get e "title" "") (get e "description" "")
             (get e "difficulty" difficulty) (get e "test_cases" "")
             (get e "constraints" "") (get e "examples" "")
             (get e "hints" "") (get e "tags" "") now.

(** [p.get('difficulty', '').lower() == difficulty.lower()]. *)
Definition matches (difficulty : string) (e : Entry) : bool :=
  eqb_str (lower (get e "difficulty" "")) (lower difficulty).

(** [get_problem_by_difficulty]. *)
Definition get_problem_by_difficulty (now : Timestamp) (difficulty : string)
    (s : t) : option Problem.t * t :=
  let r := _load_problems s in
  match fst r with
  | [] => (None, snd r)
  | problems =>
      match List.filter (matches difficulty) problems with
      | [] => (None, snd r)
      | problem_data :: _ =>
          (Some (to_problem now difficulty problem_data), snd r)
      end
  end.

End FetchAgent.

(** ** src/coordinator.py: the first-time setup *)

Module Setup.

Import DatabaseManager Coordinator.

Section WithAgents.
Context {Env : Type} (agents : Agents Env).
(** [FetchAgent.get_all_problems] *)
Variable get_all_problems : Env -> list Problem.t * Env.

(** The loop [for problem in problems] of [initialize_sample_data]. *)
Fixpoint add_all (problems : list Problem.t) (added_count : nat)
    : @M Env nat :=
  match problems with
  | [] => ret added_count
  | problem :: rest =>
      now <- call (clock_now agents) ;;
      stored_problem <- exec (fun db => add_problem now db problem) ;;
      add_all rest (match stored_problem with
                    | Some _ => S added_count
                    | None => added_count
                    end)
  end.

(** [initialize_sample_data]. *)
Definition initialize_sample_data : @M Env bool :=
  try_except
    (problems <- call get_all_problems ;;
     match problems with
     | [] => ret false
     | _ :: _ =>
         added_count <- add_all problems 0 ;;
         ret (0 <? added_count)%nat
     end)
    (fun _ => ret false).

End WithAgents.

End Setup.

(** ** Vocabulary of the further properties *)

Module Integrity.

Import DatabaseManager.

(** The [UNIQUE] constraint on [users.email]. *)
Definition unique_emails (db : Database) : Prop :=
  List.NoDup (map User.email (users db)).

(** The keys of a table are distinct and none exceeds the table's
    counter. *)
Definition keys_below (seq : Z) (keys : list Z) : Prop :=
  List.NoDup keys /\ (forall k, In k keys -> k <= seq).

Definition keys_ok (db : Database) : Prop :=
  keys_below (users_seq db) (map User.id (users db))
  /\ keys_below (problems_seq db) (map Problem.id (problems db))
  /\ keys_below (sent_problems_seq db)
                (map SentProblem.id (sent_problems db)).

(** The counters of the three tables, none of which went back. *)
Definition counters_le (db db' : Database) : Prop :=
  users_seq db <= users_seq db'
  /\ problems_seq db <= problems_seq db'
  /\ sent_problems_seq db <= sent_problems_seq db'.

(** Every delivery record names a stored problem. *)
Definition references_ok (db : Database) : Prop :=
  forall sp, In sp (sent_problems db) ->
    exists p, In p (problems db) /\ Problem.id p = SentProblem.problem_id sp.

(** The number of delivery records with status ['sent']. *)
Definition sent_count (db : Database) : nat :=
  length (List.filter
            (fun sp => eqb_str (SentProblem.email_status sp) "sent")
            (sent_problems db)).

(** The row [add_user] writes. *)
Definition new_user_row (now : Timestamp) (db : Database) (email : string)
    (preferred_language preferred_difficulty solution_delivery : string)
    (solution_delay_hours : Z) : User.t :=
  User.mk (next_key (users_seq db) (map User.id (users db))) email
          preferred_language preferred_difficulty solution_delivery
          solution_delay_hours "09:00" "UTC" true now now.

(** The row [add_problem] writes. *)
Definition new_problem_row (now : Timestamp) (db : Database)
    (problem : Problem.t) : Problem.t :=
  Problem.mk (next_key (problems_seq db) (map Problem.id (problems db)))
             (Problem.title problem) (Problem.description problem)
             (Problem.difficulty problem) (Problem.test_cases problem)
             (Problem.constraints problem) (Problem.examples problem)
             (Problem.hints problem) (Problem.tags problem) now.

(** The row [deactivate_user] leaves in place of a row. *)
Definition deactivated (now : Timestamp) (email : string) (u : User.t)
    : User.t :=
  if eqb_str (User.email u) email
  then User.set_updated_at now (User.set_is_active false u)
  else u.

(** The address is stored. *)
Definition stored_address (db : Database) (email : string) : Prop :=
  exists u, In u (users db) /\ User.email u = email.

End Integrity.

Module Conduct.

Import DatabaseManager Coordinator.

(** The world after [n] turns of one subscriber in a row. *)
Fixpoint turns {Env} (agents : Agents Env) (user : User.t) (n : nat)
    (w : @World Env) : @World Env :=
  match n with
  | O => w
  | S n' => turns agents user n' (snd (_process_user_email agents user w))
  end.

(** A delivery record with status ['sent']. *)
Definition is_sent (sp : SentProblem.t) : bool :=
  eqb_str (SentProblem.email_status sp) "sent".

(** The row is a stored copy of the problem: everything but the key and
    [created_at]. *)
Definition copy_of (p row : Problem.t) : Prop :=
  Problem.title row = Problem.title p
  /\ Problem.description row = Problem.description p
  /\ Problem.difficulty row = Problem.difficulty p
  /\ Problem.test_cases row = Problem.test_cases p
  /\ Problem.constraints row = Problem.constraints p
  /\ Problem.examples row = Problem.examples p
  /\ Problem.hints row = Problem.hints p
  /\ Problem.tags row = Problem.tags p.

End Conduct.

Module Clock.

(** A clock that does not go back between two readings and is at least a
    second further after [time.sleep(1)]. *)
Definition reads_forward {W} (now : W -> Timestamp * W) : Prop :=
  forall w, (fst (now w) <= fst (now (snd (now w))))%nat.

Definition sleeps_a_second {W} (now : W -> Timestamp * W) (sleep : W -> W)
    : Prop :=
  forall w, (fst (now w) + 1 <= fst (now (sleep w)))%nat.

(** The four keys [_run_daily_job] writes into the result of the job. *)
Definition job_keys : list string :=
  ["job_execution_time"; "job_start_time"; "job_end_time"; "job_status"].

(** The schedule is one [CronTrigger] accepts. *)
Definition valid_schedule (known_timezone : string -> bool)
    (hour minute : Z) (timezone : string) : Prop :=
  0 <= hour <= 23 /\ 0 <= minute <= 59 /\ known_timezone timezone = true.

(** The action is a firing of the trigger. *)
Definition is_firing (a : DailyScheduler.Action) : bool :=
  match a with
  | DailyScheduler.CronFires => true
  | _ => false
  end.

(** How often the trigger fires among the actions. *)
Definition firings (actions : list DailyScheduler.Action) : nat :=
  length (List.filter is_firing actions).

(** The firings the executor admits along the actions, from [th] on:
    those that find fewer than [max_instances] runs counted.  The others
    are skipped. *)
Fixpoint admitted (max_instances : nat)
    (actions : list DailyScheduler.Action) (th : DailyScheduler.Threads)
    : nat :=
  match actions with
  | [] => 0
  | a :: rest =>
      match DailyScheduler.step max_instances a th with
      | Some th' =>
          ((if is_firing a
               && (DailyScheduler.cron_instances th <? max_instances)%nat
            then 1 else 0)
           + admitted max_instances rest th')%nat
      | None => 0%nat
      end
  end.

End Clock.

Module Response.

Import PyStr SolveAgent.

(** Every character of the string passes the test. *)
Fixpoint all_chars (f : ascii -> bool) (s : string) : bool :=
  match s with
  | EmptyString => true
  | String c s' => f c && all_chars f s'
  end.

Definition backtick : ascii := ascii_of_nat 96.

Definition is_alnum (c : ascii) : bool :=
  ((48 <=? ord c)%nat && (ord c <=? 57)%nat)
  || ((65 <=? ord c)%nat && (ord c <=? 90)%nat)
  || ((97 <=? ord c)%nat && (ord c <=? 122)%nat).

(** A name of letters and digits, which [re] reads as a literal. *)
Definition plain_name (s : string) : bool := all_chars is_alnum s.

(** The text begins with a character that is not white space. *)
Definition starts_with_text (s : string) : bool :=
  match s with
  | EmptyString => false
  | String c _ => negb (is_space c)
  end.

(** No line of the list opens a section. *)
Definition plain_lines (ls : list string) : Prop :=
  Forall (fun l => header_of l = None) ls.

(** The language [generate_solution] works with. *)
Definition effective_language (language : string) : string :=
  if existsb (eqb_str (lower language)) Config.SUPPORTED_LANGUAGES
  then language else "python".

End Response.

(** ** A small installation

    One stored problem, a clock that ticks at every reading, a fetch
    agent with nothing new, a solve agent that fails for Java, and a mail
    server that refuses one address. *)

Module Scenario.

Import DatabaseManager Coordinator.

Definition a_solution (p : Problem.t) (language : string) : Solution.t :=
  Solution.mk (Problem.id p) language "pass" "nothing to do" "O(1)" "O(1)" "".

Definition agents : Agents nat :=
  mkAgents nat
    (fun e => (e, S e))
    (fun e => (0%nat, e))
    (fun _ e => (None, e))
    (fun p l e => (if eqb_str l "java" then None
                   else Some (a_solution p l), e))
    (fun s e => (s, e))
    (fun u _ _ e =>
       (negb (eqb_str (User.email u) "bounce@example.com"), e))
    (fun _ e => (true, e))
    (fun _ e => (true, e)).

Definition two_sum : Problem.t :=
  Problem.mk 0 "Two Sum" "Find two numbers that add up to the target."
             "medium" "" "" "" "" "" 0%nat.

Definition fresh : @World nat := mkWorld _initialize_database 0%nat.

Definition after {A} (m : @M nat A) (w : @World nat) : @World nat :=
  snd (m w).

(** The store with the problem and three subscribers; the second one
    prefers Java. *)
Definition three_subscribers : @World nat :=
  after (exec (fun db => add_problem 0%nat db two_sum) ;;;
         Coordinator.add_user agents "alice@example.com" "python" "medium" ;;;
         Coordinator.add_user agents "bob@example.com" "java" "medium" ;;;
         Coordinator.add_user agents "carol@example.com" "python" "medium")
        fresh.

(** A subscriber who subscribed and then unsubscribed. *)
Definition unsubscribed : @World nat :=
  after (Coordinator.add_user agents "alice@example.com" "python" "medium" ;;;
         remove_user agents "alice@example.com")
        fresh.

(** The store with the problem and one subscriber whose mail bounces. *)
Definition bouncing : @World nat :=
  after (exec (fun db => add_problem 0%nat db two_sum) ;;;
         Coordinator.add_user agents "bounce@example.com" "python" "medium")
        fresh.

Definition bounce_user : User.t :=
  User.mk 1 "bounce@example.com" "python" "medium" "with_problem" 24
          "09:00" "UTC" true 0%nat 0%nat.

Definition stored_two_sum : Problem.t :=
  Problem.mk 1 "Two Sum" "Find two numbers that add up to the target."
             "medium" "" "" "" "" "" 0%nat.

(** The same store after the subscriber's turn in a batch: the delivery
    failed and left a record. *)
Definition bounced : @World nat :=
  after (_process_user_email agents bounce_user) bouncing.

Definition bounce_record : SentProblem.t :=
  SentProblem.mk 1 1 1 1%nat "failed" "python".

(** A ledger that already holds a pending record for the pair (1, 1). *)
Definition pending_ledger : Database :=
  snd (mark_problem_sent 0%nat _initialize_database 1 1 "python" "pending").

(** A response without any of the section headers, with a fenced block. *)
Definition unstructured_response : string :=
  "Here you go:" +:+ String PyStr.newline
  ("```python" +:+ String PyStr.newline
  ("def two_sum(nums, target):" +:+ String PyStr.newline
  ("    return []" +:+ String PyStr.newline
  ("```" +:+ String PyStr.newline "Hope this helps. ")))).

(** A job function that raises, over a world that is only a clock. *)
Definition locked_job : Eff.M nat DailyScheduler.Dict :=
  raise "database is locked".

Definition tick (e : nat) : Timestamp * nat := (e, S e).

(** A complete configuration. *)
Definition complete_config : Config.t :=
  Config.mk "gsk-key" "bot@example.com" "app-password" "data/leetcode.db"
            9 0 "UTC".

(** A configuration without the key of the generation API. *)
Definition no_api_key : Config.t :=
  Config.mk "" "bot@example.com" "app-password" "data/leetcode.db" 9 0 "UTC".

End Scenario.

(** ** A second installation

    The fetch agent has one entry of the tier [easy]; a subscriber spelled
    the tier [Easy] when subscribing. *)

Module Cases.

Import DatabaseManager Coordinator.

Definition fetched_two_sum : Problem.t :=
  Problem.mk 0 "Two Sum" "Find two numbers that add up to the target."
             "easy" "" "" "" "" "" 0%nat.

Definition agents : Agents nat :=
  mkAgents nat
    (fun e => (e, S e))
    (fun e => (0%nat, e))
    (fun d e => (if eqb_str (PyStr.lower d) "easy"
                 then Some fetched_two_sum else None, e))
    (fun p l e => (Some (Scenario.a_solution p l), e))
    (fun s e => (s, e))
    (fun _ _ _ e => (true, e))
    (fun _ e => (true, e))
    (fun _ e => (true, e)).

(** The store after ["Easy"] was accepted as a tier. *)
Definition capital_tier : @World nat :=
  Scenario.after
    (Coordinator.add_user agents "dana@example.com" "python" "Easy")
    Scenario.fresh.

Definition dana : User.t :=
  User.mk 1 "dana@example.com" "python" "Easy" "with_problem" 24
          "09:00" "UTC" true 0%nat 0%nat.

(** A subscriber of the tier [hard], of which nothing is stored or
    fetched. *)
Definition erin : User.t :=
  User.mk 2 "erin@example.com" "python" "hard" "with_problem" 24
          "09:00" "UTC" true 0%nat 0%nat.

End Cases.

(** ** A started scheduler *)

Module Started.

Import DailyScheduler.

(** Only [UTC] is known. *)
Definition only_utc (tz : string) : bool := eqb_str tz "UTC".

(** The scheduler after [start] under the complete configuration, over a
    world that is only a clock. *)
Definition running : @St nat :=
  (mk true None [mkJob the_job_id 9 0 "UTC" 1] true, 0%nat).

(** A job function that reports one subscriber served. *)
Definition one_sent : Eff.M nat Dict :=
  ret (<["emails_sent" := VInt 1]> (<["job_status" := VStr "pending"]> ∅)).

End Started.

(** ** A process of main.py over a world that is only a clock *)

Module Process.

Import DailyScheduler.

Definition healthy : Eff.M nat (list (string * bool)) :=
  ret [("database", true); ("groq_api", true); ("email", true);
       ("fetch_agent", true); ("overall", true)].

Definition no_mail_server : Eff.M nat (list (string * bool)) :=
  ret [("database", true); ("groq_api", true); ("email", false);
       ("fetch_agent", true); ("overall", false)].

(** A batch in which both deliveries failed. *)
Definition all_failed : Eff.M nat Coordinator.BatchResult :=
  ret (Coordinator.mkBatchResult 2 0 2 [] 0%nat (Some 1%nat)).

Definition fresh : @Main.St nat := (__init__, @Main.mkProc nat [] [] 0%nat).

Definition only_config : Main.Args := Main.mkArgs false false false false true.

End Process.

(** ** Responses of the generation API *)

Module Answers.

Import PyStr.

Definition nl (s : string) : string := String newline s.

(** The block of a response, its first line indented. *)
Definition block : string :=
  "def two_sum(nums, target):" +:+ nl "        return []".

(** A response with a capitalised language tag and text after the
    block. *)
Definition tagged : string :=
  "Here you go: " +:+ SolveAgent.fence +:+ "Python" +:+ " "
  +:+ nl ("    " +:+ block +:+ SolveAgent.closing_fence
          +:+ nl "Hope this helps.").

(** The lines of a response in the requested format; the complexities
    stand on the header lines. *)
Definition formatted_lines : list string :=
  ["Sure."]
  ++ ["SOLUTION:"]
  ++ ["```python"; "return []"; "```"]
  ++ ["Explanation: see below"]
  ++ ["Two pointers."; ""]
  ++ ["TIME COMPLEXITY: O(n)"]
  ++ []
  ++ ["SPACE COMPLEXITY: O(1)"]
  ++ []
  ++ ["APPROACH:"]
  ++ ["1. Sort."; "2. Scan."].

Definition formatted : string := join_lines formatted_lines.

End Answers.

(** ** A problems file *)

Module Shelf.

Import FetchAgent.

Definition two_sum : Entry :=
  <["title" := "Two Sum"]> (<["difficulty" := "Easy"]> ∅).

Definition lru_cache : Entry :=
  <["title" := "LRU Cache"]> (<["difficulty" := "medium"]> ∅).

Definition palindrome : Entry :=
  <["title" := "Valid Palindrome"]> (<["difficulty" := "easy"]> ∅).

Definition agent : FetchAgent.t :=
  FetchAgent.__init__ (Some [lru_cache; two_sum; palindrome]).

(** What [get_all_problems] makes of two entries. *)
Definition sample : list Problem.t :=
  [FetchAgent.to_problem 0%nat "" two_sum;
   FetchAgent.to_problem 0%nat "" lru_cache].

End Shelf.

(** * Properties *)

(** ** Method bodies *)

Section EffFacts.

Context {S : Type} (P : S -> Prop).

Lemma preserves_ret {A} (a : A) : preserves P (ret a).
Proof. by intros s Hs. Qed.

Lemma preserves_raise {A} e : preserves P (raise (A:=A) e).
Proof. by intros s Hs. Qed.

Lemma preserves_bind {A B} (m : M S A) (k : A -> M S B) :
  preserves P m -> (forall a, preserves P (k a)) -> preserves P (bind m k).
Proof.
  intros Hm Hk s Hs. unfold bind. specialize (Hm s Hs).
  destruct (m s) as [[a|e] s1]; simpl in *; [|done]. by apply Hk.
Qed.

Lemma preserves_try {A} (m : M S A) (h : string -> M S A) :
  preserves P m -> (forall e, preserves P (h e)) ->
  preserves P (try_except m h).
Proof.
  intros Hm Hh s Hs. unfold try_except. specialize (Hm s Hs).
  destruct (m s) as [[a|e] s1]; simpl in *; [done|]. by apply Hh.
Qed.

End EffFacts.

(** ** The ledger *)

Section LedgerFacts.

Import DatabaseManager Ledger.

Lemma eqb_Z_true a b : eqb_Z a b = true <-> a = b.
Proof. unfold eqb_Z. apply bool_decide_eq_true. Qed.

Lemma eqb_str_true a b : eqb_str a b = true <-> a = b.
Proof. unfold eqb_str. apply bool_decide_eq_true. Qed.

Lemma eqb_Z_refl a : eqb_Z a a = true.
Proof. by apply eqb_Z_true. Qed.

Lemma eqb_str_refl a : eqb_str a a = true.
Proof. by apply eqb_str_true. Qed.

Lemma same_pair_true u p sp :
  same_pair u p sp = true
  <-> SentProblem.user_id sp = u /\ SentProblem.problem_id sp = p.
Proof.
  unfold same_pair. rewrite andb_true_iff, !eqb_Z_true. tauto.
Qed.

Lemma same_pair_other u p u' p' sp :
  (u', p') <> (u, p) -> same_pair u p sp = true ->
  same_pair u' p' sp = false.
Proof.
  intros Hne [Hu Hp]%same_pair_true.
  destruct (same_pair u' p' sp) eqn:E; [|done].
  apply same_pair_true in E as [Hu' Hp']. congruence.
Qed.

(** A record for the pair exists exactly when the item is among the
    subscriber's sent ids. *)
Lemma records_for_nil db u p :
  records_for db u p = []
  <-> existsb (eqb_Z p) (sent_problem_ids db u) = false.
Proof.
  unfold records_for, sent_problem_ids.
  induction (sent_problems db) as [|sp l IH]; simpl; [done|].
  unfold same_pair at 1.
  destruct (eqb_Z (SentProblem.user_id sp) u) eqn:Eu; simpl.
  - destruct (eqb_Z (SentProblem.problem_id sp) p) eqn:Ep; simpl.
    + apply eqb_Z_true in Ep. subst p. rewrite eqb_Z_refl. simpl.
      split; discriminate.
    + assert (eqb_Z p (SentProblem.problem_id sp) = false) as ->.
      { destruct (eqb_Z p _) eqn:E; [|done].
        apply eqb_Z_true in E. subst p. by rewrite eqb_Z_refl in Ep. }
      simpl. apply IH.
  - apply IH.
Qed.

(** The rows [mark_problem_sent] leaves for its own pair and for the
    others. *)
Lemma mark_problem_sent_own now db u p l s :
  records_for (snd (mark_problem_sent now db u p l s)) u p
  = [SentProblem.mk (next_key (sent_problems_seq db)
                               (map SentProblem.id (sent_problems db)))
                     u p now s l].
Proof.
  assert (forall k, same_pair u p (SentProblem.mk k u p now s l) = true)
    as Hrow.
  { intros k. by apply same_pair_true. }
  unfold records_for, mark_problem_sent.
  cbn [snd with_sent_problems sent_problems].
  rewrite List.filter_app. cbn [List.filter]. rewrite Hrow.
  assert (List.filter (same_pair u p)
            (List.filter (fun sp => negb (same_pair u p sp))
                         (sent_problems db)) = []) as ->; [|done].
  induction (sent_problems db) as [|sp rows IH]; simpl; [done|].
  destruct (same_pair u p sp) eqn:E; simpl; [done|]. by rewrite E.
Qed.

Lemma mark_problem_sent_others now db u p l s u' p' :
  (u', p') <> (u, p) ->
  records_for (snd (mark_problem_sent now db u p l s)) u' p'
  = records_for db u' p'.
Proof.
  intros Hne.
  assert (forall k, same_pair u' p' (SentProblem.mk k u p now s l) = false)
    as Hrow.
  { intros k. apply (same_pair_other u p); [done|]. by apply same_pair_true. }
  unfold records_for, mark_problem_sent.
  cbn [snd with_sent_problems sent_problems].
  rewrite List.filter_app. cbn [List.filter]. rewrite Hrow, app_nil_r.
  induction (sent_problems db) as [|sp rows IH]; simpl; [done|].
  destruct (same_pair u p sp) eqn:E; simpl.
  - by rewrite (same_pair_other _ _ _ _ _ Hne E).
  - destruct (same_pair u' p' sp); by rewrite IH.
Qed.

Lemma mark_problem_sent_count now db u p l s :
  (length (sent_problems (snd (mark_problem_sent now db u p l s)))
   + length (records_for db u p)
   = S (length (sent_problems db)))%nat.
Proof.
  unfold records_for, mark_problem_sent. simpl.
  rewrite length_app. simpl.
  pose proof (filter_length (same_pair u p) (sent_problems db)) as H.
  lia.
Qed.

Lemma unique_pairs_mark_problem_sent now db u p l s :
  unique_pairs db -> unique_pairs (snd (mark_problem_sent now db u p l s)).
Proof.
  intros Hdb u' p'.
  destruct (decide ((u', p') = (u, p))) as [[= -> ->]|Hne].
  - by rewrite mark_problem_sent_own.
  - rewrite mark_problem_sent_others by done. apply Hdb.
Qed.

(** Every other statement leaves the table of delivery records as it
    is. *)
Lemma execute_sent_problems st db :
  (forall now u p l s, st <> MarkProblemSent now u p l s) ->
  sent_problems (execute st db) = sent_problems db.
Proof.
  intros Hst. destruct st; simpl.
  - unfold add_user. destruct (negb _); [done|]. by destruct (existsb _ _).
  - unfold update_user_preferences. by destruct (_ || _).
  - done.
  - done.
  - by destruct (Hst now user_id problem_id solution_language email_status).
Qed.

Lemma unique_pairs_execute st db :
  unique_pairs db -> unique_pairs (execute st db).
Proof.
  intros Hdb. destruct st;
    try (intros u p; unfold records_for;
         rewrite execute_sent_problems by (intros; discriminate);
         apply Hdb).
  by apply unique_pairs_mark_problem_sent.
Qed.

Lemma unique_pairs_reachable db db' :
  unique_pairs db -> reachable_from db db' -> unique_pairs db'.
Proof.
  intros Hdb Hreach. induction Hreach as [|db' st _ IH]; [done|].
  by apply unique_pairs_execute.
Qed.

Lemma unique_pairs_initial : unique_pairs _initialize_database.
Proof. intros u p. simpl. lia. Qed.

(** Every store the ledger's statements build from the empty one has at
    most one record per pair. *)
Lemma unique_pairs_ever db :
  reachable_from _initialize_database db -> unique_pairs db.
Proof. apply unique_pairs_reachable, unique_pairs_initial. Qed.

Lemma reachable_trans db1 db2 db3 :
  reachable_from db1 db2 -> reachable_from db2 db3 ->
  reachable_from db1 db3.
Proof.
  intros H12 H23. induction H23; [done|]. by apply reach_step.
Qed.

(** Statements never drop a pair from the ledger. *)
Lemma recorded_execute st db u p :
  records_for db u p <> [] -> records_for (execute st db) u p <> [].
Proof.
  intros Hrec. destruct st;
    try (unfold records_for;
         rewrite execute_sent_problems by (intros; discriminate);
         exact Hrec).
  cbn [execute].
  destruct (decide ((u, p) = (user_id, problem_id))) as [[= -> ->]|Hne].
  - by rewrite mark_problem_sent_own.
  - by rewrite mark_problem_sent_others.
Qed.

Lemma recorded_reachable db db' u p :
  records_for db u p <> [] -> reachable_from db db' ->
  records_for db' u p <> [].
Proof.
  intros Hrec Hreach. induction Hreach as [|db' st _ IH]; [done|].
  by apply recorded_execute.
Qed.

End LedgerFacts.

Section SelectionFacts.

Import DatabaseManager Ledger.

Lemma unsent_candidates_eligible db u d p :
  In p (unsent_candidates db u d) <-> eligible db u d p.
Proof.
  unfold unsent_candidates, eligible.
  rewrite filter_In, andb_true_iff, eqb_str_true, negb_true_iff.
  rewrite <- records_for_nil. tauto.
Qed.

Lemma get_unsent_problem_for_user_In rnd db u d p :
  get_unsent_problem_for_user rnd db u d = Some p ->
  In p (unsent_candidates db u d).
Proof. unfold get_unsent_problem_for_user. apply nth_error_In. Qed.

Lemma get_unsent_problem_for_user_None rnd db u d :
  get_unsent_problem_for_user rnd db u d = None
  <-> unsent_candidates db u d = [].
Proof.
  unfold get_unsent_problem_for_user.
  destruct (unsent_candidates db u d) as [|q rows] eqn:E.
  - by destruct (rnd mod _)%nat.
  - split; [|done]. intros H%nth_error_None.
    assert (rnd mod length (q :: rows) < length (q :: rows))%nat.
    { apply Nat.mod_upper_bound. simpl. lia. }
    lia.
Qed.

(** C4.  [get_unsent_problem_for_user] returns only an item of the
    requested tier that is stored and appears in no delivery record of
    the subscriber, and it returns [None] exactly when the store holds no
    such item; this for every draw of [ORDER BY RANDOM()]. *)
Theorem get_unsent_problem_for_user_selects_eligible :
  forall rnd db user_id difficulty,
    (forall p,
        get_unsent_problem_for_user rnd db user_id difficulty = Some p ->
        eligible db user_id difficulty p)
    /\ (get_unsent_problem_for_user rnd db user_id difficulty = None
        <-> forall p, ~ eligible db user_id difficulty p).
Proof.
  intros rnd db u d. split.
  - intros p Hp. apply unsent_candidates_eligible.
    by apply (get_unsent_problem_for_user_In rnd).
  - rewrite get_unsent_problem_for_user_None. split.
    + intros Hnil p Hp%unsent_candidates_eligible.
      by rewrite Hnil in Hp.
    + intros Hnone.
      destruct (unsent_candidates db u d) as [|q rows] eqn:E; [done|].
      destruct (Hnone q). apply unsent_candidates_eligible.
      rewrite E. by left.
Qed.

(** A recorded pair is never selected, whatever the record's status. *)
Lemma recorded_never_selected rnd db u d p :
  get_unsent_problem_for_user rnd db u d = Some p ->
  records_for db u (Problem.id p) = [].
Proof.
  intros Hp%get_unsent_problem_for_user_In.
  by apply unsent_candidates_eligible in Hp as (_ & _ & Hp).
Qed.

Lemma sent_rows_only_sent db u : sent_rows (only_sent db) u = sent_rows db u.
Proof.
  unfold sent_rows, only_sent. simpl.
  induction (sent_problems db) as [|sp rows IH]; simpl; [done|].
  destruct (eqb_str (SentProblem.email_status sp) "sent") eqn:Es; simpl.
  - rewrite Es, IH. done.
  - rewrite andb_false_r. done.
Qed.

Lemma by_difficulty_counts db rows d :
  default 0%nat (foldr (count_difficulty db) ∅ rows !! d)
  = length (List.filter
              (fun sp => match get_problem_by_id db
                                 (SentProblem.problem_id sp) with
                         | Some p => eqb_str (Problem.difficulty p) d
                         | None => false
                         end) rows).
Proof.
  induction rows as [|sp rows IH]; simpl; [done|].
  unfold count_difficulty at 1.
  destruct (get_problem_by_id db (SentProblem.problem_id sp)) as [q|];
    [|done].
  destruct (eqb_str (Problem.difficulty q) d) eqn:E.
  - apply eqb_str_true in E. subst d.
    rewrite lookup_insert_eq. simpl. by rewrite IH.
  - rewrite lookup_insert_ne; [done|].
    intros Heq. rewrite Heq in E. by rewrite eqb_str_refl in E.
Qed.

(** C10.  [get_user_stats] counts only records with status ['sent']:
    [total_sent] is their number, [by_difficulty] counts them by the
    difficulty of their item, and the statistics are those of the store
    with every other record dropped.  Selection excludes the item of any
    record of the subscriber, whatever its status.  Hence a record with
    status ['failed'] keeps its item out of every selection and is
    absent from what the statistics count. *)
Theorem stats_count_sent_selection_excludes_all :
  forall db user_id,
    total_sent (get_user_stats db user_id)
    = length (List.filter
                (fun sp => eqb_Z (SentProblem.user_id sp) user_id
                           && eqb_str (SentProblem.email_status sp) "sent")
                (sent_problems db))
    /\ (forall d,
           default 0%nat (by_difficulty (get_user_stats db user_id) !! d)
           = sent_with_difficulty db user_id d)
    /\ get_user_stats db user_id = get_user_stats (only_sent db) user_id
    /\ (forall r,
           In r (sent_problems db) ->
           SentProblem.user_id r = user_id ->
           forall rnd d p,
             get_unsent_problem_for_user rnd db user_id d = Some p ->
             Problem.id p <> SentProblem.problem_id r)
    /\ (forall r,
           In r (sent_problems db) ->
           SentProblem.user_id r = user_id ->
           SentProblem.email_status r = "failed" ->
           ~ In r (sent_problems (only_sent db))
           /\ ~ In r (sent_rows db user_id)).
Proof.
  intros db u. repeat split.
  - intros d. unfold get_user_stats, sent_with_difficulty. simpl.
    apply by_difficulty_counts.
  - unfold get_user_stats. by rewrite sent_rows_only_sent.
  - intros r Hr Hu rnd d p Hp Hid.
    apply recorded_never_selected in Hp.
    assert (In r (records_for db u (Problem.id p))) as Hin.
    { apply filter_In. split; [done|]. by apply same_pair_true. }
    by rewrite Hp in Hin.
  - unfold only_sent. simpl. intros [_ Hs]%filter_In.
    apply eqb_str_true in Hs. congruence.
  - unfold sent_rows. intros [_ Hs]%filter_In.
    apply andb_true_iff in Hs as [_ Hs].
    apply eqb_str_true in Hs. congruence.
Qed.

End SelectionFacts.

(** Before any delivery the stored problem is selected for the first
    subscriber; no hard problem is stored, and none is selected. *)
Lemma get_unsent_problem_for_user_selects_eligible_witness :
  DatabaseManager.get_unsent_problem_for_user 7
    (Coordinator.w_db Scenario.three_subscribers) 1 "medium"
  = Some Scenario.stored_two_sum
  /\ Ledger.eligible (Coordinator.w_db Scenario.three_subscribers) 1 "medium"
                     Scenario.stored_two_sum
  /\ (forall p,
         ~ Ledger.eligible (Coordinator.w_db Scenario.three_subscribers) 1
                           "hard" p).
Proof.
  split; [reflexivity|]. split.
  - apply (proj1 (get_unsent_problem_for_user_selects_eligible 7%nat
                    (Coordinator.w_db Scenario.three_subscribers) 1 "medium")).
    reflexivity.
  - apply (proj2 (get_unsent_problem_for_user_selects_eligible 7%nat
                    (Coordinator.w_db Scenario.three_subscribers) 1 "hard")).
    reflexivity.
Defined.

(** The subscriber whose mail bounced: the failed record keeps the item
    out of every selection, and the statistics count nothing. *)
Lemma stats_count_sent_selection_excludes_all_witness :
  DatabaseManager.sent_problems (Coordinator.w_db Scenario.bounced)
  = [Scenario.bounce_record]
  /\ DatabaseManager.total_sent
       (DatabaseManager.get_user_stats (Coordinator.w_db Scenario.bounced) 1)
     = 0%nat
  /\ (forall rnd d p,
         DatabaseManager.get_unsent_problem_for_user rnd
           (Coordinator.w_db Scenario.bounced) 1 d = Some p ->
         Problem.id p <> 1)
  /\ ~ In Scenario.bounce_record
         (DatabaseManager.sent_rows (Coordinator.w_db Scenario.bounced) 1).
Proof.
  destruct (stats_count_sent_selection_excludes_all
              (Coordinator.w_db Scenario.bounced) 1)
    as (Htotal & _ & _ & Hsel & Hfailed).
  split; [reflexivity|]. split; [rewrite Htotal; reflexivity|]. split.
  - apply (Hsel Scenario.bounce_record); [left|]; reflexivity.
  - apply (Hfailed Scenario.bounce_record); [left| |]; reflexivity.
Defined.

(** ** The coordinator *)

Section CoordinatorFacts.

Import DatabaseManager Ledger Coordinator Pipeline.

Context {Env : Type} (agents : Agents Env).

(** *** What a method does to the store *)

Section Keeps.

Variable P : Database -> Prop.

Lemma keeps_ret {A} (a : A) : keeps (Env:=Env) P (ret a).
Proof. apply preserves_ret. Qed.

Lemma keeps_bind {A B} (m : M A) (k : A -> M B) :
  keeps (Env:=Env) P m -> (forall a, keeps (Env:=Env) P (k a)) ->
  keeps (Env:=Env) P (bind m k).
Proof. apply preserves_bind. Qed.

Lemma keeps_try {A} (m : M A) (h : string -> M A) :
  keeps (Env:=Env) P m -> (forall e, keeps (Env:=Env) P (h e)) ->
  keeps (Env:=Env) P (try_except m h).
Proof. apply preserves_try. Qed.

Lemma keeps_call {A} (f : Env -> A * Env) : keeps (Env:=Env) P (call f).
Proof. by intros w Hw. Qed.

Lemma keeps_query {A} (f : Database -> A) : keeps (Env:=Env) P (query f).
Proof. by intros w Hw. Qed.

Lemma keeps_exec {A} (f : Database -> A * Database) :
  (forall db, P db -> P (snd (f db))) -> keeps (Env:=Env) P (exec f).
Proof. intros Hf w Hw. by apply Hf. Qed.

End Keeps.

(** Splits a method into its statements; what is left to show is that
    each statement keeps the property. *)
Ltac keeps_steps :=
  repeat match goal with
    | |- keeps _ (bind _ _) => apply keeps_bind; [|intros ?]
    | |- keeps _ (try_except _ _) => apply keeps_try; [|intros ?]
    | |- keeps _ (ret _) => apply keeps_ret
    | |- keeps _ (call _) => apply keeps_call
    | |- keeps _ (query _) => apply keeps_query
    | |- keeps _ (exec _) => apply keeps_exec; intros ? ?
    | |- keeps _ (match ?x with _ => _ end) => destruct x
    end.

Lemma keeps_process_users P process us r :
  (forall u, keeps (Env:=Env) P (process u)) ->
  keeps (Env:=Env) P (process_users process us r).
Proof.
  intros Hp. revert r. induction us as [|u us IH]; intros r; simpl.
  - apply keeps_ret.
  - apply keeps_bind; [|intros ?; apply IH].
    unfold process_one. keeps_steps. apply Hp.
Qed.

(** The statements each method is made of. *)
Lemma keeps_process_user_email P u :
  (forall now db user_id problem_id l s,
      P db -> P (snd (mark_problem_sent now db user_id problem_id l s))) ->
  (forall now db p, P db -> P (snd (add_problem now db p))) ->
  keeps (Env:=Env) P (_process_user_email agents u).
Proof.
  intros Hmark Hadd.
  unfold _process_user_email, select_problem, _get_and_store_new_problem,
    record_outcome.
  keeps_steps; auto.
Qed.

Lemma keeps_process_daily_emails P :
  (forall now db user_id problem_id l s,
      P db -> P (snd (mark_problem_sent now db user_id problem_id l s))) ->
  (forall now db p, P db -> P (snd (add_problem now db p))) ->
  keeps (Env:=Env) P (process_daily_emails agents).
Proof.
  intros Hmark Hadd.
  unfold process_daily_emails, process_daily_emails_with.
  apply keeps_bind; [apply keeps_call|]. intros start.
  apply keeps_try; [|intros ?; keeps_steps].
  apply keeps_bind; [apply keeps_query|]. intros us.
  destruct us as [|u us]; [keeps_steps|].
  apply keeps_bind; [|intros ?; keeps_steps].
  apply keeps_process_users. intros u'.
  by apply keeps_process_user_email.
Qed.

Lemma keeps_add_user P email l d :
  (forall now db pl pd,
      P db -> P (snd (update_user_preferences now db email pl pd))) ->
  (forall now db, P db -> P (snd (deactivate_user now db email))) ->
  (forall now db sd h,
      P db -> P (snd (DatabaseManager.add_user now db email l d sd h))) ->
  keeps (Env:=Env) P (Coordinator.add_user agents email l d).
Proof.
  intros Hupd Hdea Hadd. unfold Coordinator.add_user.
  keeps_steps; auto.
Qed.

Lemma keeps_remove_user P email :
  (forall now db, P db -> P (snd (deactivate_user now db email))) ->
  keeps (Env:=Env) P (remove_user agents email).
Proof. intros Hdea. unfold remove_user. keeps_steps; auto. Qed.

Lemma by_statements_keeps {A} (m : M A) :
  (forall db0, keeps (Env:=Env) (reachable_from db0) m) ->
  by_statements (Env:=Env) m.
Proof. intros H w. apply H, reach_here. Qed.

Lemma by_statements_process_user_email u :
  by_statements (Env:=Env) (_process_user_email agents u).
Proof.
  apply by_statements_keeps. intros db0.
  apply keeps_process_user_email.
  - intros now db user_id problem_id l s.
    apply (reach_step _ _ (MarkProblemSent now user_id problem_id l s)).
  - intros now db p. apply (reach_step _ _ (AddProblem now p)).
Qed.

Lemma by_statements_process_daily_emails :
  by_statements (Env:=Env) (process_daily_emails agents).
Proof.
  apply by_statements_keeps. intros db0.
  apply keeps_process_daily_emails.
  - intros now db user_id problem_id l s.
    apply (reach_step _ _ (MarkProblemSent now user_id problem_id l s)).
  - intros now db p. apply (reach_step _ _ (AddProblem now p)).
Qed.

Lemma by_statements_add_user email l d :
  by_statements (Env:=Env) (Coordinator.add_user agents email l d).
Proof.
  apply by_statements_keeps. intros db0. apply keeps_add_user.
  - intros now db pl pd.
    apply (reach_step _ _ (UpdateUserPreferences now email pl pd)).
  - intros now db. apply (reach_step _ _ (DeactivateUser now email)).
  - intros now db sd h. apply (reach_step _ _ (AddUser now email l d sd h)).
Qed.

Lemma by_statements_remove_user email :
  by_statements (Env:=Env) (remove_user agents email).
Proof.
  apply by_statements_keeps. intros db0. apply keeps_remove_user.
  intros now db. apply (reach_step _ _ (DeactivateUser now email)).
Qed.

Lemma reachable_run_batches n (w : @World Env) :
  reachable_from (w_db w) (w_db (run_batches agents n w)).
Proof.
  revert w. induction n as [|n IH]; intros w; simpl; [apply reach_here|].
  apply (reachable_trans _ (w_db (snd (process_daily_emails agents w)))).
  - apply by_statements_process_daily_emails.
  - apply IH.
Qed.

End CoordinatorFacts.

Section DeliveryFacts.

Import DatabaseManager Ledger Coordinator Pipeline.

Context {Env : Type} (agents : Agents Env).

Lemma call_eq {A} (f : Env -> A * Env) (w : @World Env) a e :
  f (w_env w) = (a, e) -> call f w = (Ret a, mkWorld (w_db w) e).
Proof. intros H. unfold call. by rewrite H. Qed.

Lemma record_outcome_eq user p status (w : @World Env) :
  record_outcome agents user p status w
  = (Ret true,
     mkWorld (snd (mark_problem_sent (fst (clock_now agents (w_env w)))
                     (w_db w) (User.id user) (Problem.id p)
                     (User.preferred_language user) status))
             (snd (clock_now agents (w_env w)))).
Proof. reflexivity. Qed.

(** A failed generation ends the subscriber's turn before any record is
    written. *)
Lemma generation_failure_returns_false user (w w1 : @World Env) p e2 :
  select_problem agents user w = (Ret (Some p), w1) ->
  generate_solution agents p (User.preferred_language user) (w_env w1)
  = (None, e2) ->
  _process_user_email agents user w = (Ret false, mkWorld (w_db w1) e2).
Proof.
  intros Hsel Hgen. unfold _process_user_email, try_except, bind.
  rewrite Hsel. by rewrite (call_eq _ _ _ _ Hgen).
Qed.

(** The step from DELIVER to the written record. *)
Lemma deliver_then_record user (w w1 : @World Env) p s e2 s' e3 b e4 :
  select_problem agents user w = (Ret (Some p), w1) ->
  generate_solution agents p (User.preferred_language user) (w_env w1)
  = (Some s, e2) ->
  add_humor_to_solution agents s e2 = (s', e3) ->
  send_daily_problem agents user p s' e3 = (b, e4) ->
  _process_user_email agents user w
  = (Ret b,
     mkWorld (snd (mark_problem_sent (fst (clock_now agents e4))
                     (w_db w1) (User.id user) (Problem.id p)
                     (User.preferred_language user)
                     (if b then "sent" else "failed")))
             (snd (clock_now agents e4))).
Proof.
  intros Hsel Hgen Hhum Hsend.
  unfold _process_user_email, try_except, bind.
  rewrite Hsel, (call_eq _ _ _ _ Hgen).
  rewrite (call_eq _ (mkWorld (w_db w1) e2) _ _ Hhum). cbn [w_db w_env].
  rewrite (call_eq _ (mkWorld (w_db w1) e3) _ _ Hsend). cbn [w_db w_env].
  destruct b; by rewrite record_outcome_eq.
Qed.

(** C5.  When a subscriber's selected item reaches DELIVER (an item was
    selected, its solution generated and decorated, and the mail agent
    asked to send it), [_process_user_email] returns the outcome of the
    delivery and leaves exactly one record for the pair, with status
    ['sent'] when the delivery succeeded and ['failed'] when it did not;
    in every store reached from there by statements of the ledger, and
    so after any number of further batch runs, no selection for that
    subscriber returns the item again. *)
Theorem delivery_outcome_is_recorded :
  forall user (w w1 : @World Env) p s e2 s' e3 b e4,
    select_problem agents user w = (Ret (Some p), w1) ->
    generate_solution agents p (User.preferred_language user) (w_env w1)
    = (Some s, e2) ->
    add_humor_to_solution agents s e2 = (s', e3) ->
    send_daily_problem agents user p s' e3 = (b, e4) ->
    exists w',
      _process_user_email agents user w = (Ret b, w')
      /\ (exists r,
             records_for (w_db w') (User.id user) (Problem.id p) = [r]
             /\ SentProblem.email_status r = (if b then "sent" else "failed")
             /\ SentProblem.solution_language r
                = User.preferred_language user)
      /\ (forall db',
             reachable_from (w_db w') db' ->
             forall rnd d q,
               get_unsent_problem_for_user rnd db' (User.id user) d = Some q ->
               Problem.id q <> Problem.id p)
      /\ (forall n rnd d q,
             get_unsent_problem_for_user rnd
               (w_db (run_batches agents n w')) (User.id user) d = Some q ->
             Problem.id q <> Problem.id p).
Proof.
  intros user w w1 p s e2 s' e3 b e4 Hsel Hgen Hhum Hsend.
  eexists. split.
  { by apply (deliver_then_record _ _ _ _ _ _ _ _ _ _ Hsel Hgen Hhum Hsend). }
  set (w' := mkWorld _ _).
  assert (forall db',
             reachable_from (w_db w') db' ->
             forall rnd d q,
               get_unsent_problem_for_user rnd db' (User.id user) d = Some q ->
               Problem.id q <> Problem.id p) as Hlater.
  { intros db' Hreach rnd d q Hq Hid.
    apply recorded_never_selected in Hq. rewrite Hid in Hq.
    revert Hq. refine (recorded_reachable _ _ _ _ _ Hreach).
    unfold w'. cbn [w_db]. by rewrite mark_problem_sent_own. }
  split; [|split].
  - unfold w'. cbn [w_db]. rewrite mark_problem_sent_own. by eexists.
  - exact Hlater.
  - intros n. apply Hlater, reachable_run_batches.
Qed.

End DeliveryFacts.

(** A subscriber whose mail bounces: the record is written as failed. *)
Lemma delivery_outcome_is_recorded_witness :
  exists w',
    Coordinator._process_user_email Scenario.agents Scenario.bounce_user
      Scenario.bouncing = (Ret false, w')
    /\ (exists r,
           Ledger.records_for (Coordinator.w_db w') 1 1 = [r]
           /\ SentProblem.email_status r = "failed"
           /\ SentProblem.solution_language r = "python")
    /\ (forall db',
           Ledger.reachable_from (Coordinator.w_db w') db' ->
           forall rnd d q,
             DatabaseManager.get_unsent_problem_for_user rnd db' 1 d = Some q ->
             Problem.id q <> 1)
    /\ (forall n rnd d q,
           DatabaseManager.get_unsent_problem_for_user rnd
             (Coordinator.w_db (Pipeline.run_batches Scenario.agents n w'))
             1 d = Some q ->
           Problem.id q <> 1).
Proof.
  apply (delivery_outcome_is_recorded Scenario.agents Scenario.bounce_user
           Scenario.bouncing Scenario.bouncing Scenario.stored_two_sum
           (Scenario.a_solution Scenario.stored_two_sum "python") 1%nat
           (Scenario.a_solution Scenario.stored_two_sum "python") 1%nat
           false 1%nat); reflexivity.
Defined.

Section BatchFacts.

Import DatabaseManager Ledger Coordinator Pipeline.

Context {Env : Type} (agents : Agents Env).

Lemma process_one_ret process user r (w w1 : @World Env) b :
  process user w = (Ret b, w1) ->
  process_one process user r w
  = (Ret (if b then count_sent r else count_failed r), w1).
Proof.
  intros H. unfold process_one, try_except, bind. rewrite H. by destruct b.
Qed.

Lemma process_one_raise process user r (w w1 : @World Env) e :
  process user w = (Raise e, w1) ->
  process_one process user r w
  = (Ret (append_error
            ("Error processing user " +:+ User.email user +:+ ": " +:+ e)
            (count_failed r)), w1).
Proof. intros H. unfold process_one, try_except, bind. by rewrite H. Qed.

(** The loop goes on to the next subscriber after a success, after a
    failure and after an exception. *)
Lemma process_users_next process user rest r (w w1 : @World Env) b :
  process user w = (Ret b, w1) ->
  process_users process (user :: rest) r w
  = process_users process rest
      (if b then count_sent r else count_failed r) w1.
Proof.
  intros H. simpl. unfold bind at 1. by rewrite (process_one_ret _ _ _ _ _ _ H).
Qed.

Lemma process_users_next_raise process user rest r (w w1 : @World Env) e :
  process user w = (Raise e, w1) ->
  process_users process (user :: rest) r w
  = process_users process rest
      (append_error
         ("Error processing user " +:+ User.email user +:+ ": " +:+ e)
         (count_failed r)) w1.
Proof.
  intros H. simpl. unfold bind at 1.
  by rewrite (process_one_raise _ _ _ _ _ _ H).
Qed.

(** The loop never raises and accounts for every subscriber once. *)
Lemma process_users_accounts process users r (w : @World Env) :
  exists r' w',
    process_users process users r w = (Ret r', w')
    /\ total_users r' = total_users r
    /\ (emails_sent r' + emails_failed r'
        = emails_sent r + emails_failed r + length users)%nat.
Proof.
  revert r w. induction users as [|u us IH]; intros r w.
  - exists r, w. simpl. repeat split; try done; lia.
  - destruct (process u w) as [[b|e] w1] eqn:Hu.
    + rewrite (process_users_next _ _ _ _ _ _ _ Hu).
      destruct (IH (if b then count_sent r else count_failed r) w1)
        as (r' & w' & -> & Ht & Hc).
      exists r', w'. destruct b; simpl in *; repeat split; try done; lia.
    + rewrite (process_users_next_raise _ _ _ _ _ _ _ Hu).
      destruct (IH (append_error
                      ("Error processing user " +:+ User.email u +:+ ": "
                       +:+ e) (count_failed r)) w1)
        as (r' & w' & -> & Ht & Hc).
      exists r', w'. simpl in *. repeat split; try done; lia.
Qed.

(** The batch over any per-user method: it returns, with every active
    subscriber counted as sent or failed. *)
Lemma process_daily_emails_with_accounts process (w : @World Env) :
  exists r w',
    process_daily_emails_with agents process w = (Ret r, w')
    /\ total_users r = length (get_active_users (w_db w))
    /\ (emails_sent r + emails_failed r = total_users r)%nat.
Proof.
  unfold process_daily_emails_with, bind, try_except, call, query.
  cbn [fst snd w_db w_env].
  destruct (get_active_users (w_db w)) as [|u us] eqn:Hus.
  - eexists _, _. split; [done|]. simpl. repeat split; done.
  - set (r0 := set_total_users _ _). set (w0 := mkWorld _ _).
    destruct (process_users_accounts process (u :: us) r0 w0)
      as (r' & w' & Hrun & Ht & Hc).
    rewrite Hrun. cbn [fst snd w_db w_env].
    eexists _, _. split; [done|]. simpl in *.
    rewrite Ht. repeat split; try done; lia.
Qed.

End BatchFacts.

Section SubscriptionFacts.

Import DatabaseManager Ledger Coordinator Pipeline.

Context {Env : Type} (agents : Agents Env).

(** An [UPDATE] that keeps every address and activates no row of the
    address keeps the address inactive. *)
Lemma inactive_address_update (h : User.t -> User.t) db seq email :
  (forall u, User.email (h u) = User.email u) ->
  (forall u, User.email u = email -> User.is_active u = false ->
             User.is_active (h u) = false) ->
  inactive_address db email ->
  inactive_address (with_users (map h (users db)) seq db) email.
Proof.
  intros Hemail Hact [[u [Hin Hu]] Hall]. split; simpl.
  - exists (h u). split; [by apply in_map|]. by rewrite Hemail.
  - intros u' [u0 [<- Hin0]]%in_map_iff Hu'. rewrite Hemail in Hu'.
    apply Hact; [done|]. by apply Hall.
Qed.

Lemma rowcount_email_update (h : User.t -> User.t) db seq email :
  (forall u, User.email (h u) = User.email u) ->
  rowcount_email (with_users (map h (users db)) seq db) email
  = rowcount_email db email.
Proof.
  intros Hemail. unfold rowcount_email. simpl.
  induction (users db) as [|u us IH]; simpl; [done|].
  rewrite Hemail. destruct (eqb_str (User.email u) email); simpl; lia.
Qed.

Lemma inactive_address_update_user_preferences now db email l d addr :
  inactive_address db addr ->
  inactive_address (snd (update_user_preferences now db email l d)) addr
  /\ rowcount_email (snd (update_user_preferences now db email l d)) addr
     = rowcount_email db addr.
Proof.
  intros H. unfold update_user_preferences.
  destruct (truthy l || truthy d); [|done]. cbn [snd].
  assert (forall u, User.email
            (if eqb_str (User.email u) email
             then apply_preferences now l d u else u) = User.email u) as He.
  { intros u. destruct (eqb_str _ _); [|done]. unfold apply_preferences.
    by destruct (truthy l), (truthy d). }
  split; [|by apply rowcount_email_update].
  apply inactive_address_update; [done| |done].
  intros u _ Hu. destruct (eqb_str _ _); [|done]. unfold apply_preferences.
  by destruct (truthy l), (truthy d).
Qed.

Lemma inactive_address_deactivate_user now db email addr :
  inactive_address db addr ->
  inactive_address (snd (deactivate_user now db email)) addr
  /\ rowcount_email (snd (deactivate_user now db email)) addr
     = rowcount_email db addr.
Proof.
  intros H. unfold deactivate_user. cbn [snd].
  assert (forall u, User.email
            (if eqb_str (User.email u) email
             then User.set_updated_at now (User.set_is_active false u)
             else u) = User.email u) as He.
  { intros u. by destruct (eqb_str _ _). }
  split; [|by apply rowcount_email_update].
  apply inactive_address_update; [done| |done].
  intros u _ Hu. by destruct (eqb_str _ _).
Qed.

Lemma inactive_address_times_active db email :
  inactive_address db email -> times_active db email = 0%nat.
Proof.
  intros [_ Hall]. unfold times_active, get_active_users.
  induction (users db) as [|u us IH]; simpl; [done|].
  destruct (User.is_active u) eqn:Ha; simpl.
  - destruct (eqb_str (User.email u) email) eqn:Hu.
    + apply eqb_str_true in Hu.
      rewrite (Hall u) in Ha; [done|by left|done].
    + apply IH. intros u' Hin. apply Hall. by right.
  - apply IH. intros u' Hin. apply Hall. by right.
Qed.

Lemma inactive_address_found db email :
  inactive_address db email ->
  exists u, get_user_by_email db email = Some u /\ User.is_active u = false.
Proof.
  intros [[u [Hin Hu]] Hall]. unfold get_user_by_email.
  destruct (List.find _ (users db)) as [u'|] eqn:Hfind.
  - apply find_some in Hfind as [Hin' Hu']. apply eqb_str_true in Hu'.
    exists u'. split; [done|]. by apply Hall.
  - apply (find_none _ _ Hfind) in Hin. simpl in Hin.
    by rewrite Hu, eqb_str_refl in Hin.
Qed.

Lemma inactive_address_add_user now db email l d sd h :
  inactive_address db email ->
  snd (DatabaseManager.add_user now db email l d sd h) = db.
Proof.
  intros [[u [Hin Hu]] _]. unfold DatabaseManager.add_user.
  assert (existsb (fun u => eqb_str (User.email u) email) (users db) = true)
    as ->; [|by destruct (negb _)].
  apply existsb_exists. exists u. split; [done|]. by apply eqb_str_true.
Qed.

(** What [add_user] does to an address that is stored and inactive: in
    every branch the address stays inactive and keeps its rows. *)
Lemma add_user_inactive_address email l d (w : @World Env) :
  inactive_address (w_db w) email ->
  inactive_address (w_db (snd (Coordinator.add_user agents email l d w)))
                   email
  /\ rowcount_email (w_db (snd (Coordinator.add_user agents email l d w)))
                    email
     = rowcount_email (w_db w) email.
Proof.
  intros H.
  apply (keeps_add_user agents
           (fun db => inactive_address db email
                      /\ rowcount_email db email
                         = rowcount_email (w_db w) email)); [| | |done].
  - intros now db pl pd [Hdb <-].
    by apply inactive_address_update_user_preferences.
  - intros now db [Hdb <-]. by apply inactive_address_deactivate_user.
  - intros now db sd h [Hdb Hn].
    by rewrite (inactive_address_add_user _ _ _ _ _ _ _ Hdb).
Qed.

End SubscriptionFacts.

Section ResubscribeFacts.

Import DatabaseManager Ledger Coordinator Pipeline.

Context {Env : Type} (agents : Agents Env).

Lemma lower_in_nonempty x keys :
  lower_in x keys = true -> ~ In "" keys -> x <> "".
Proof.
  intros Hin Hkeys ->. unfold lower_in in Hin. simpl in Hin.
  apply existsb_exists in Hin as [k [Hk Hx]].
  apply eqb_str_true in Hx. by subst k.
Qed.

Lemma update_user_preferences_found now db email l d u :
  get_user_by_email db email = Some u -> l <> "" ->
  fst (update_user_preferences now db email (Some l) (Some d)) = true.
Proof.
  intros Hfind Hl. unfold update_user_preferences.
  assert (truthy (Some l) = true) as ->.
  { simpl. by rewrite bool_decide_eq_false_2. }
  cbn [orb fst]. unfold rowcount_email.
  apply find_some in Hfind as [Hin Hu].
  destruct (List.filter _ (users db)) as [|u' us'] eqn:Hf; [|done].
  assert (In u (List.filter (fun u => eqb_str (User.email u) email)
                            (users db))) as Hin'.
  { by apply filter_In. }
  by rewrite Hf in Hin'.
Qed.

(** With arguments that pass its checks, [add_user] on a stored, inactive
    address takes the branch commented "Reactivate user" and reports
    success. *)
Lemma add_user_inactive_address_returns_true email l d (w : @World Env) :
  inactive_address (w_db w) email ->
  email <> "" -> PyStr.contains_char "@" email = true ->
  lower_in l Config.SUPPORTED_LANGUAGES = true ->
  lower_in d Config.DIFFICULTY_LEVELS = true ->
  fst (Coordinator.add_user agents email l d w) = Ret true.
Proof.
  intros H Hne Hat Hl Hd.
  destruct (inactive_address_found _ _ H) as (u & Hfind & Hu).
  assert (l <> "") as Hl'.
  { apply (lower_in_nonempty _ _ Hl). simpl. intuition discriminate. }
  unfold Coordinator.add_user, try_except.
  rewrite Hat, Hl, Hd, (bool_decide_eq_false_2 _ Hne). cbn [orb negb].
  unfold bind, query, call, exec. cbn [fst snd w_db w_env].
  rewrite Hfind, Hu.
  rewrite (update_user_preferences_found _ _ _ _ _ _ Hfind Hl').
  match goal with
  | |- context [match ?x with Some _ => _ | None => _ end] => destruct x
  end; reflexivity.
Qed.

(** C2.  What [add_user] does for an address stored with
    [is_active = 0], given arguments that pass its checks: it reports
    success and adds no row, but the address is still inactive afterwards
    and [get_active_users] lists it zero times; the branch that should
    reactivate calls [deactivate_user]. *)
Theorem resubscribing_leaves_the_address_inactive :
  forall email l d (w : @World Env),
    inactive_address (w_db w) email ->
    email <> "" -> PyStr.contains_char "@" email = true ->
    lower_in l Config.SUPPORTED_LANGUAGES = true ->
    lower_in d Config.DIFFICULTY_LEVELS = true ->
    fst (Coordinator.add_user agents email l d w) = Ret true
    /\ inactive_address
         (w_db (snd (Coordinator.add_user agents email l d w))) email
    /\ times_active
         (w_db (snd (Coordinator.add_user agents email l d w))) email
       = 0%nat
    /\ rowcount_email
         (w_db (snd (Coordinator.add_user agents email l d w))) email
       = rowcount_email (w_db w) email.
Proof.
  intros email l d w H Hne Hat Hl Hd.
  destruct (add_user_inactive_address agents email l d w H) as [H' Hrows].
  split; [by apply add_user_inactive_address_returns_true|].
  split; [done|]. split; [|done].
  by apply inactive_address_times_active.
Qed.

End ResubscribeFacts.

Lemma unsubscribed_is_inactive :
  Pipeline.inactive_address (Coordinator.w_db Scenario.unsubscribed)
                            "alice@example.com".
Proof.
  split.
  - eexists. split; [left; reflexivity|reflexivity].
  - intros u [<-|[]] _. reflexivity.
Qed.

(** The subscriber who subscribed, unsubscribed and subscribes again. *)
Lemma resubscribing_leaves_the_address_inactive_witness :
  fst (Coordinator.add_user Scenario.agents "alice@example.com" "python"
         "medium" Scenario.unsubscribed) = Ret true
  /\ Pipeline.inactive_address
       (Coordinator.w_db
          (snd (Coordinator.add_user Scenario.agents "alice@example.com"
                  "python" "medium" Scenario.unsubscribed)))
       "alice@example.com"
  /\ Pipeline.times_active
       (Coordinator.w_db
          (snd (Coordinator.add_user Scenario.agents "alice@example.com"
                  "python" "medium" Scenario.unsubscribed)))
       "alice@example.com" = 0%nat
  /\ DatabaseManager.rowcount_email
       (Coordinator.w_db
          (snd (Coordinator.add_user Scenario.agents "alice@example.com"
                  "python" "medium" Scenario.unsubscribed)))
       "alice@example.com"
     = DatabaseManager.rowcount_email
         (Coordinator.w_db Scenario.unsubscribed) "alice@example.com".
Proof.
  apply (resubscribing_leaves_the_address_inactive Scenario.agents).
  - exact unsubscribed_is_inactive.
  - discriminate.
  - reflexivity.
  - reflexivity.
  - reflexivity.
Defined.

(** ** The deduplication contract *)

Section ContractFacts.

Import DatabaseManager Ledger Coordinator Pipeline.

Lemma unique_pairs_add_problem now db p :
  unique_pairs db -> unique_pairs (snd (add_problem now db p)).
Proof. apply (unique_pairs_execute (AddProblem now p)). Qed.

Lemma unique_pairs_process_daily_emails {Env} (agents : Agents Env) w :
  unique_pairs (w_db w) ->
  unique_pairs (w_db (snd (process_daily_emails agents w))).
Proof.
  apply (keeps_process_daily_emails agents unique_pairs).
  - intros. by apply unique_pairs_mark_problem_sent.
  - intros. by apply unique_pairs_add_problem.
Qed.

Lemma unique_pairs_run_batches {Env} (agents : Agents Env) n w :
  unique_pairs (w_db w) -> unique_pairs (w_db (run_batches agents n w)).
Proof.
  revert w. induction n as [|n IH]; intros w Hw; simpl; [done|].
  by apply IH, unique_pairs_process_daily_emails.
Qed.

(** C1.  In a store with at most one delivery record per (subscriber,
    item) pair, [mark_problem_sent] on a pair that already has a record
    leaves exactly one record for it, carrying the new status and
    language, leaves the number of records and the records of every other
    pair as they were; and the bound of one record per pair is kept by
    every statement of the ledger, in every store reached by such
    statements, by a batch run and by any number of batch runs. *)
Theorem at_most_one_record_per_pair :
  forall db,
    unique_pairs db ->
    (forall now user_id problem_id l s,
        records_for db user_id problem_id <> [] ->
        (exists r,
            records_for (snd (mark_problem_sent now db user_id problem_id l s))
                        user_id problem_id = [r]
            /\ SentProblem.email_status r = s
            /\ SentProblem.solution_language r = l)
        /\ length (sent_problems
                     (snd (mark_problem_sent now db user_id problem_id l s)))
           = length (sent_problems db)
        /\ (forall u' p',
               (u', p') <> (user_id, problem_id) ->
               records_for
                 (snd (mark_problem_sent now db user_id problem_id l s)) u' p'
               = records_for db u' p'))
    /\ (forall st, unique_pairs (execute st db))
    /\ (forall db', reachable_from db db' -> unique_pairs db')
    /\ (forall Env (agents : Agents Env) env n,
           unique_pairs (w_db (run_batches agents n (mkWorld db env)))).
Proof.
  intros db Hdb. repeat split.
  - rewrite mark_problem_sent_own. by eexists.
  - pose proof (mark_problem_sent_count now db user_id problem_id l s) as Hc.
    pose proof (Hdb user_id problem_id) as Hle.
    destruct (records_for db user_id problem_id) as [|r rs]; [done|].
    simpl in *. lia.
  - intros u' p' Hne. by apply mark_problem_sent_others.
  - intros st. by apply unique_pairs_execute.
  - intros db'. by apply unique_pairs_reachable.
  - intros Env agents env n. by apply unique_pairs_run_batches.
Qed.

End ContractFacts.

Lemma pending_ledger_unique :
  Ledger.unique_pairs Scenario.pending_ledger.
Proof.
  apply unique_pairs_mark_problem_sent, unique_pairs_initial.
Qed.

(** A ledger with a pending record for the pair (1, 1), marked sent. *)
Lemma at_most_one_record_per_pair_witness :
  Ledger.unique_pairs Scenario.pending_ledger
  /\ (exists r,
         Ledger.records_for
           (snd (DatabaseManager.mark_problem_sent 5%nat
                   Scenario.pending_ledger 1 1 "python" "sent")) 1 1 = [r]
         /\ SentProblem.email_status r = "sent"
         /\ SentProblem.solution_language r = "python")
  /\ length (DatabaseManager.sent_problems
               (snd (DatabaseManager.mark_problem_sent 5%nat
                       Scenario.pending_ledger 1 1 "python" "sent")))
     = length (DatabaseManager.sent_problems Scenario.pending_ledger).
Proof.
  split; [exact pending_ledger_unique|].
  destruct (at_most_one_record_per_pair Scenario.pending_ledger
              pending_ledger_unique) as [Hmark _].
  destruct (Hmark 5%nat 1 1 "python" "sent") as (Hone & Hlen & _).
  - discriminate.
  - split; [exact Hone|exact Hlen].
Defined.

(** ** Failures inside a batch *)

(** C3, as the code has it.  A batch returns a result with every active
    subscriber counted once, as sent or as failed.  A subscriber whose
    turn reports a failure by returning [False] -- as a turn does whose
    content generation fails, before any record is written -- is counted
    in [emails_failed], no message is appended to [errors] for it, and the
    loop goes on with the remaining subscribers.  With three active
    subscribers, of which the first and the third are delivered and the
    generation fails for the second, the result is three in total, two
    sent, one failed and no message. *)
Theorem batch_counts_failures_and_continues :
  forall Env (agents : Coordinator.Agents Env),
    (forall w : @Coordinator.World Env,
        exists r w',
          Coordinator.process_daily_emails agents w = (Ret r, w')
          /\ Coordinator.total_users r
             = length (DatabaseManager.get_active_users (Coordinator.w_db w))
          /\ (Coordinator.emails_sent r + Coordinator.emails_failed r
              = Coordinator.total_users r)%nat)
    /\ (forall user w0 w1 p e2,
           Coordinator.select_problem agents user w0 = (Ret (Some p), w1) ->
           Coordinator.generate_solution agents p
             (User.preferred_language user) (Coordinator.w_env w1)
           = (None, e2) ->
           Coordinator._process_user_email agents user w0
           = (Ret false, Coordinator.mkWorld (Coordinator.w_db w1) e2))
    /\ (forall (process : User.t -> @Coordinator.M Env bool)
               user rest r w0 w1 b,
           process user w0 = (Ret b, w1) ->
           Coordinator.process_users process (user :: rest) r w0
           = Coordinator.process_users process rest
               (if b then Coordinator.count_sent r
                else Coordinator.count_failed r) w1)
    /\ (forall r,
           Coordinator.emails_failed (Coordinator.count_failed r)
           = S (Coordinator.emails_failed r)
           /\ Coordinator.emails_sent (Coordinator.count_failed r)
              = Coordinator.emails_sent r
           /\ Coordinator.errors (Coordinator.count_failed r)
              = Coordinator.errors r)
    /\ (forall (w : @Coordinator.World Env) u1 u2 u3 w1 w2 p e2 w3,
           DatabaseManager.get_active_users (Coordinator.w_db w)
           = [u1; u2; u3] ->
           Coordinator._process_user_email agents u1
             (Coordinator.mkWorld (Coordinator.w_db w)
                (snd (Coordinator.clock_now agents (Coordinator.w_env w))))
           = (Ret true, w1) ->
           Coordinator.select_problem agents u2 w1 = (Ret (Some p), w2) ->
           Coordinator.generate_solution agents p
             (User.preferred_language u2) (Coordinator.w_env w2)
           = (None, e2) ->
           Coordinator._process_user_email agents u3
             (Coordinator.mkWorld (Coordinator.w_db w2) e2)
           = (Ret true, w3) ->
           exists r w',
             Coordinator.process_daily_emails agents w = (Ret r, w')
             /\ Coordinator.total_users r = 3%nat
             /\ Coordinator.emails_sent r = 2%nat
             /\ Coordinator.emails_failed r = 1%nat
             /\ Coordinator.errors r = []).
Proof.
  intros Env agents. repeat apply conj.
  - intros w.
    destruct (process_daily_emails_with_accounts agents
                (Coordinator._process_user_email agents) w)
      as (r & w' & Hrun & Ht & Hc).
    by exists r, w'.
  - intros user w0 w1 p e2. apply generation_failure_returns_false.
  - intros process user rest r w0 w1 b. apply process_users_next.
  - intros r. by repeat split.
  - intros w u1 u2 u3 w1 w2 p e2 w3 Hactive H1 Hsel Hgen H3.
    pose proof (generation_failure_returns_false agents u2 w1 w2 p e2
                  Hsel Hgen) as H2.
    unfold Coordinator.process_daily_emails,
      Coordinator.process_daily_emails_with, bind, try_except,
      Coordinator.call, Coordinator.query.
    cbn [fst snd Coordinator.w_db Coordinator.w_env]. rewrite Hactive.
    rewrite (process_users_next _ _ _ _ _ _ _ H1).
    rewrite (process_users_next _ _ _ _ _ _ _ H2).
    rewrite (process_users_next _ _ _ _ _ _ _ H3).
    cbn [Coordinator.process_users]. unfold ret.
    eexists _, _. split; [reflexivity|]. by repeat split.
Qed.

(** The three subscribers of the scenario: the first and the third are
    delivered, the generation fails for the second. *)
Lemma batch_counts_failures_and_continues_witness :
  exists r w',
    Coordinator.process_daily_emails Scenario.agents
      Scenario.three_subscribers = (Ret r, w')
    /\ Coordinator.total_users r = 3%nat
    /\ Coordinator.emails_sent r = 2%nat
    /\ Coordinator.emails_failed r = 1%nat
    /\ Coordinator.errors r = [].
Proof.
  eapply (proj2 (proj2 (proj2 (proj2
            (batch_counts_failures_and_continues nat Scenario.agents)))));
    vm_compute; reflexivity.
Defined.

(** Three active subscribers; the solve agent fails for the second one
    only.  The batch ends with two sent, one failed, and not one message
    in [errors] but none. *)
Lemma generation_failure_adds_no_message :
  map User.email
      (DatabaseManager.get_active_users
         (Coordinator.w_db Scenario.three_subscribers))
  = ["alice@example.com"; "bob@example.com"; "carol@example.com"]
  /\ map (fun u => fst (Coordinator.generate_solution Scenario.agents
                          Scenario.stored_two_sum
                          (User.preferred_language u) 0%nat))
         (DatabaseManager.get_active_users
            (Coordinator.w_db Scenario.three_subscribers))
     = [Some (Scenario.a_solution Scenario.stored_two_sum "python");
        None;
        Some (Scenario.a_solution Scenario.stored_two_sum "python")]
  /\ exists r w',
       Coordinator.process_daily_emails Scenario.agents
         Scenario.three_subscribers = (Ret r, w')
       /\ Coordinator.emails_sent r = 2%nat
       /\ Coordinator.emails_failed r = 1%nat
       /\ Coordinator.errors r = []
       /\ length (Coordinator.errors r) <> 1%nat.
Proof.
  split; [reflexivity|]. split; [reflexivity|].
  eexists _, _. split; [vm_compute; reflexivity|].
  repeat split. discriminate.
Qed.

(** ** Start-up *)

Section ConfigFacts.

Import Config.

Lemma missing_true field : missing field = true <-> field = "".
Proof. unfold missing. apply bool_decide_eq_true. Qed.

Lemma validate_config_verdict cls :
  fst (validate_config cls) = false
  <-> GROQ_API_KEY cls = "" \/ EMAIL_ADDRESS cls = ""
      \/ EMAIL_PASSWORD cls = "".
Proof.
  unfold validate_config. simpl. rewrite <- !missing_true.
  destruct (missing (GROQ_API_KEY cls)), (missing (EMAIL_ADDRESS cls)),
    (missing (EMAIL_PASSWORD cls)); simpl; intuition discriminate.
Qed.

(** The line that names a field is printed exactly when the field is
    missing. *)
Lemma validate_config_names cls :
  (In "  - GROQ_API_KEY" (snd (validate_config cls))
   <-> GROQ_API_KEY cls = "")
  /\ (In "  - EMAIL_ADDRESS" (snd (validate_config cls))
      <-> EMAIL_ADDRESS cls = "")
  /\ (In "  - EMAIL_PASSWORD" (snd (validate_config cls))
      <-> EMAIL_PASSWORD cls = "").
Proof.
  unfold validate_config. simpl. rewrite <- !missing_true.
  destruct (missing (GROQ_API_KEY cls)), (missing (EMAIL_ADDRESS cls)),
    (missing (EMAIL_PASSWORD cls)); simpl;
    intuition (discriminate || congruence).
Qed.

End ConfigFacts.

Section StartupFacts.

Import DailyScheduler Main Startup.

Context {W : Type}.
Variable new_coordinator : M W unit.
Variable test_system_health : M W (list (string * bool)).
Variable process_daily_emails : M W Coordinator.BatchResult.
Variable initialize_sample_data : M W bool.
Variable get_system_stats : M W Dict.
Variable now : W -> Timestamp * W.
Variable known_timezone : string -> bool.
Variable next_run_time : W -> option Timestamp.
Variable fires_before_interrupt : W -> nat.

Local Abbreviation untouched := (@Startup.untouched W).

Lemma print_eq l (s : @St W) : print l s = (Ret tt, printed [l] s).
Proof. reflexivity. Qed.

Lemma printed_app ls1 ls2 (s : @St W) :
  printed ls2 (printed ls1 s) = printed (ls1 ++ ls2) s.
Proof. unfold printed. simpl. by rewrite <- app_assoc. Qed.

Lemma printed_nil (s : @St W) : printed [] s = s.
Proof.
  unfold printed. rewrite app_nil_r. by destruct s as [sch [out cs w]].
Qed.

Lemma print_all_eq ls (s : @St W) : print_all ls s = (Ret tt, printed ls s).
Proof.
  revert s. induction ls as [|l ls IH]; intros s; simpl.
  - by rewrite printed_nil.
  - unfold bind. rewrite print_eq, IH. by rewrite printed_app.
Qed.

Lemma validate_eq cfg (s : @St W) :
  validate cfg s
  = (Ret (fst (Config.validate_config cfg)),
     printed (map Text (snd (Config.validate_config cfg))) s).
Proof. unfold validate, bind. by rewrite print_all_eq. Qed.

(** With a failed validation [run_scheduler] and [run_once] print their
    refusal and return [False]; nothing else happens. *)
Lemma run_scheduler_refuses cfg (s : @St W) :
  fst (Config.validate_config cfg) = false ->
  run_scheduler new_coordinator test_system_health process_daily_emails now
                known_timezone next_run_time fires_before_interrupt cfg s
  = (Ret false,
     printed (refusal "Starting LeetCode Email Agent Scheduler..." cfg) s).
Proof.
  intros Hbad. unfold run_scheduler, bind.
  rewrite print_eq, validate_eq, Hbad. cbn [negb].
  rewrite print_eq, !printed_app. reflexivity.
Qed.

Lemma run_once_refuses cfg (s : @St W) :
  fst (Config.validate_config cfg) = false ->
  run_once new_coordinator process_daily_emails now cfg s
  = (Ret false,
     printed (refusal "Running LeetCode Email Agent once..." cfg) s).
Proof.
  intros Hbad. unfold run_once, bind.
  rewrite print_eq, validate_eq, Hbad. cbn [negb].
  rewrite print_eq, !printed_app. reflexivity.
Qed.

Lemma untouched_printed sch n ls s :
  untouched sch n s -> untouched sch n (printed ls s).
Proof. by intros [Hs Hn]. Qed.

Lemma preserves_print sch n l : preserves (untouched sch n) (print l).
Proof. intros s Hs. by apply (untouched_printed _ _ [l]). Qed.

Lemma preserves_print_all sch n ls :
  preserves (untouched sch n) (print_all ls).
Proof.
  intros s Hs. rewrite print_all_eq. by apply untouched_printed.
Qed.

Lemma preserves_validate sch n cfg :
  preserves (untouched sch n) (validate cfg).
Proof. intros s Hs. rewrite validate_eq. by apply untouched_printed. Qed.

Lemma preserves_coordinator {A} sch n c (m : M W A) :
  is_batch c = false ->
  preserves (untouched sch n) (on_world (coordinator c m)).
Proof.
  intros Hc s [Hs Hn]. split; [done|].
  unfold on_world, coordinator, batches_run. simpl.
  rewrite List.filter_app, length_app. simpl. rewrite Hc. simpl.
  unfold batches_run in Hn. lia.
Qed.

Lemma preserves_read_clock sch n :
  preserves (untouched sch n) (read_clock (proc_now now)).
Proof. by intros s [Hs Hn]. Qed.

Lemma preserves_print_len sch n label d k :
  preserves (untouched sch n) (print_len label d k).
Proof.
  unfold print_len. destruct (default _ _);
    (apply preserves_raise || apply preserves_print).
Qed.

Ltac untouched_steps :=
  repeat match goal with
    | |- preserves _ (bind _ _) => apply preserves_bind; [|intros ?]
    | |- preserves _ (try_except _ _) => apply preserves_try; [|intros ?]
    | |- preserves _ (ret _) => apply preserves_ret
    | |- preserves _ (raise _) => apply preserves_raise
    | |- preserves _ (print _) => apply preserves_print
    | |- preserves _ (print_all _) => apply preserves_print_all
    | |- preserves _ (validate _) => apply preserves_validate
    | |- preserves _ (print_len _ _ _) => apply preserves_print_len
    | |- preserves _ (read_clock _) => apply preserves_read_clock
    | |- preserves _ (on_world (coordinator _ _)) =>
        apply preserves_coordinator; reflexivity
    | |- preserves _ (match ?x with _ => _ end) => destruct x
    end.

Lemma preserves_test_system sch n :
  preserves (untouched sch n)
    (test_system new_coordinator test_system_health get_system_stats).
Proof. unfold test_system. untouched_steps. Qed.

Lemma preserves_initialize_data sch n :
  preserves (untouched sch n)
    (initialize_data new_coordinator initialize_sample_data get_system_stats).
Proof. unfold initialize_data. untouched_steps. Qed.

Lemma preserves_show_config sch n cfg :
  preserves (untouched sch n) (show_config cfg).
Proof. unfold show_config. untouched_steps. Qed.

Lemma preserves_run_scheduler sch n cfg :
  fst (Config.validate_config cfg) = false ->
  preserves (untouched sch n)
    (run_scheduler new_coordinator test_system_health process_daily_emails
       now known_timezone next_run_time fires_before_interrupt cfg).
Proof.
  intros Hbad s Hs. rewrite (run_scheduler_refuses _ _ Hbad).
  by apply untouched_printed.
Qed.

Lemma preserves_run_once sch n cfg :
  fst (Config.validate_config cfg) = false ->
  preserves (untouched sch n)
    (run_once new_coordinator process_daily_emails now cfg).
Proof.
  intros Hbad s Hs. rewrite (run_once_refuses _ _ Hbad).
  by apply untouched_printed.
Qed.

Lemma preserves_main sch n args cfg :
  fst (Config.validate_config cfg) = false ->
  preserves (untouched sch n)
    (main new_coordinator test_system_health process_daily_emails
       initialize_sample_data get_system_stats now known_timezone
       next_run_time fires_before_interrupt args cfg).
Proof.
  intros Hbad. unfold main.
  destruct (negb _); [untouched_steps|].
  apply preserves_bind.
  { destruct (arg_config args);
      [apply preserves_show_config|apply preserves_ret]. }
  intros _. apply preserves_bind.
  { destruct (arg_test args); [|apply preserves_ret].
    apply preserves_bind; [apply preserves_test_system|].
    intros ?. apply preserves_ret. }
  intros ?. apply preserves_bind.
  { destruct (arg_init_data args); [|apply preserves_ret].
    apply preserves_bind; [apply preserves_initialize_data|].
    intros ?. apply preserves_ret. }
  intros ?. apply preserves_bind.
  { destruct (arg_run_once args); [|apply preserves_ret].
    apply preserves_bind; [by apply preserves_run_once|].
    intros ?. apply preserves_ret. }
  intros ?. apply preserves_bind.
  { destruct (arg_scheduler args); [|apply preserves_ret].
    apply preserves_bind; [by apply preserves_run_scheduler|].
    intros ?. apply preserves_ret. }
  intros []; apply preserves_ret.
Qed.

End StartupFacts.

(** C6.  When a required credential (the key of the generation API, the
    delivery address or the delivery password) is missing,
    [validate_config] returns [False] and prints the name of each missing
    field and of no other; [run_scheduler] and [run_once] then print their
    refusal and return [False] without constructing the coordinator, and
    whatever flags [main] is given, the process leaves the scheduler
    object as it was (no job registered, not started) and runs no
    batch. *)
Theorem missing_credential_refuses_to_start :
  forall cfg,
    Startup.credential_missing cfg ->
    fst (Config.validate_config cfg) = false
    /\ ((In "  - GROQ_API_KEY" (snd (Config.validate_config cfg))
         <-> Config.GROQ_API_KEY cfg = "")
        /\ (In "  - EMAIL_ADDRESS" (snd (Config.validate_config cfg))
            <-> Config.EMAIL_ADDRESS cfg = "")
        /\ (In "  - EMAIL_PASSWORD" (snd (Config.validate_config cfg))
            <-> Config.EMAIL_PASSWORD cfg = ""))
    /\ forall W (new_coordinator : M W unit)
         (test_system_health : M W (list (string * bool)))
         (process_daily_emails : M W Coordinator.BatchResult)
         (initialize_sample_data : M W bool)
         (get_system_stats : M W DailyScheduler.Dict)
         (now : W -> Timestamp * W) (known_timezone : string -> bool)
         (next_run_time : W -> option Timestamp)
         (fires_before_interrupt : W -> nat) (s : @Main.St W),
        Main.run_scheduler new_coordinator test_system_health
          process_daily_emails now known_timezone next_run_time
          fires_before_interrupt cfg s
        = (Ret false,
           Startup.printed
             (Startup.refusal "Starting LeetCode Email Agent Scheduler..."
                              cfg) s)
        /\ Main.run_once new_coordinator process_daily_emails now cfg s
           = (Ret false,
              Startup.printed
                (Startup.refusal "Running LeetCode Email Agent once..." cfg)
                s)
        /\ forall args,
            Startup.untouched (fst s)
              (Startup.batches_run (Main.calls (snd s)))
              (snd (Main.main new_coordinator test_system_health
                      process_daily_emails initialize_sample_data
                      get_system_stats now known_timezone next_run_time
                      fires_before_interrupt args cfg s)).
Proof.
  intros cfg Hmissing.
  assert (fst (Config.validate_config cfg) = false) as Hbad.
  { by apply validate_config_verdict. }
  split; [done|]. split; [apply validate_config_names|].
  intros W nc th pde isd gss now ktz nrt fbi s. split; [|split].
  - by apply run_scheduler_refuses.
  - by apply run_once_refuses.
  - intros args. by apply preserves_main.
Qed.

(** The configuration without the API key: the verdict and the report. *)
Lemma missing_credential_refuses_to_start_witness :
  Startup.credential_missing Scenario.no_api_key
  /\ fst (Config.validate_config Scenario.no_api_key) = false
  /\ snd (Config.validate_config Scenario.no_api_key)
     = ["Missing required configuration:"; "  - GROQ_API_KEY"].
Proof.
  assert (Startup.credential_missing Scenario.no_api_key) as H.
  { left. reflexivity. }
  split; [exact H|].
  split; [|reflexivity].
  exact (proj1 (missing_credential_refuses_to_start Scenario.no_api_key H)).
Defined.

(** ** The scheduler *)

Section SchedulerFacts.

Import DailyScheduler.

Context {W : Type}.
Variable job_function : M W Dict.
Variable now : W -> Timestamp * W.

(** [_run_daily_job] returns a dictionary in every case and stores it. *)
Lemma run_daily_job_returns (s : @St W) :
  exists d s',
    _run_daily_job job_function now s = (Ret d, s')
    /\ last_run_result (fst s') = Some d.
Proof.
  unfold _run_daily_job, try_except, bind, read_clock, on_world, update_self.
  cbn [fst snd].
  destruct (job_function (snd (now (snd s)))) as [[d|e] w'];
    cbn [fst snd]; by eexists _, _.
Qed.

(** C7.  When the job function raises, [_run_daily_job] (and so
    [run_now]) does not raise: it returns a dictionary whose [job_status]
    is ['failed'], whose [error] is the message of the exception and
    whose [errors] holds that message, and the same dictionary is what
    [last_run_result] holds afterwards. *)
Theorem run_daily_job_catches_the_failure :
  forall (s : @St W) e w',
    job_function (snd (now (snd s))) = (Raise e, w') ->
    exists d s',
      _run_daily_job job_function now s = (Ret d, s')
      /\ run_now job_function now s = (Ret d, s')
      /\ d !! "job_status" = Some (VStr "failed")
      /\ d !! "error" = Some (VStr e)
      /\ d !! "errors" = Some (VList [e])
      /\ last_run_result (fst s') = Some d
      /\ get_last_run_result s' = (Ret (Some d), s').
Proof.
  intros s e w' Hraise.
  unfold run_now, _run_daily_job, try_except, bind, read_clock, on_world,
    update_self.
  cbn [fst snd]. rewrite Hraise. cbn [fst snd].
  eexists _, _. split; [reflexivity|]. split; [reflexivity|].
  repeat split; by simplify_map_eq.
Qed.

End SchedulerFacts.

(** A job that finds the database locked. *)
Lemma run_daily_job_catches_the_failure_witness :
  exists d s',
    DailyScheduler._run_daily_job Scenario.locked_job Scenario.tick
      (DailyScheduler.__init__, 0%nat) = (Ret d, s')
    /\ DailyScheduler.run_now Scenario.locked_job Scenario.tick
         (DailyScheduler.__init__, 0%nat) = (Ret d, s')
    /\ d !! "job_status" = Some (DailyScheduler.VStr "failed")
    /\ d !! "error" = Some (DailyScheduler.VStr "database is locked")
    /\ d !! "errors" = Some (DailyScheduler.VList ["database is locked"])
    /\ DailyScheduler.last_run_result (fst s') = Some d
    /\ DailyScheduler.get_last_run_result s' = (Ret (Some d), s').
Proof.
  apply (run_daily_job_catches_the_failure Scenario.locked_job Scenario.tick
           (DailyScheduler.__init__, 0%nat) "database is locked" 1%nat).
  reflexivity.
Defined.

Section ThreadFacts.

Import DailyScheduler.

(** [start] registers the one job with [max_instances = 1]. *)
Lemma start_registers_one_instance {W} known_timezone cfg (w : W) :
  (0 <=? Config.SCHEDULER_HOUR cfg) && (Config.SCHEDULER_HOUR cfg <=? 23)
  = true ->
  (0 <=? Config.SCHEDULER_MINUTE cfg) && (Config.SCHEDULER_MINUTE cfg <=? 59)
  = true ->
  known_timezone (Config.SCHEDULER_TIMEZONE cfg) = true ->
  start known_timezone cfg (__init__, w)
  = (Ret true,
     (mk true None
         [mkJob the_job_id (Config.SCHEDULER_HOUR cfg)
                (Config.SCHEDULER_MINUTE cfg)
                (Config.SCHEDULER_TIMEZONE cfg) 1]
         true, w)).
Proof.
  intros Hh Hm Htz.
  unfold start, try_except, bind, self, CronTrigger.
  cbn [fst snd __init__ is_running].
  rewrite Hh, Hm, Htz. reflexivity.
Qed.

(** While only the trigger starts runs, the executor's bound holds: at
    most [max_instances] batches are in flight. *)
Lemma cron_alone_respects_max_instances max_instances actions th th' :
  ~ In RunNowCalled actions ->
  manual_instances th = 0%nat ->
  (cron_instances th <= max_instances)%nat ->
  run max_instances actions th = Some th' ->
  (in_flight th' <= max_instances)%nat.
Proof.
  revert th. induction actions as [|a actions IH]; intros th Hno Hm Hc Hrun.
  - simpl in Hrun. injection Hrun as <-. unfold in_flight. lia.
  - simpl in Hrun.
    destruct (step max_instances a th) as [th1|] eqn:Hstep; [|done].
    apply (IH th1); [by intros ?; apply Hno; right| | |done].
    + destruct a; simpl in Hstep.
      * destruct (_ <? _)%nat; by injection Hstep as <-.
      * destruct (cron_instances th); [done|]. by injection Hstep as <-.
      * destruct Hno. by left.
      * rewrite Hm in Hstep. done.
    + destruct a; simpl in Hstep.
      * destruct (cron_instances th <? max_instances)%nat eqn:Hlt;
          injection Hstep as <-; simpl; [|done].
        apply Nat.ltb_lt in Hlt. lia.
      * destruct (cron_instances th) eqn:Hci; [done|].
        injection Hstep as <-. simpl. lia.
      * destruct Hno. by left.
      * rewrite Hm in Hstep. done.
Qed.

(** C8, on the code.  With the job registered as [start] registers it
    ([max_instances = 1]), a call of [run_now] while the batch of the
    trigger is running puts a second batch in flight, and so does the
    trigger while a batch of [run_now] is running, and so does a second
    call of [run_now]. *)
Theorem run_now_starts_a_second_batch :
  start (W:=unit) (fun _ => true) Scenario.complete_config (__init__, tt)
  = (Ret true, (mk true None [mkJob the_job_id 9 0 "UTC" 1] true, tt))
  /\ in_flight <$> run 1 [CronFires; RunNowCalled] idle = Some 2%nat
  /\ in_flight <$> run 1 [RunNowCalled; CronFires] idle = Some 2%nat
  /\ in_flight <$> run 1 [RunNowCalled; RunNowCalled] idle = Some 2%nat
  /\ in_flight <$> run 1 [CronFires; CronFires] idle = Some 1%nat.
Proof. repeat split. Qed.

End ThreadFacts.

(** ** The response parser *)

Section ParserFacts.

Import PyStr SolveAgent.

Lemma after_literal_startswith p s :
  startswith s p = false -> after_literal p s = None.
Proof.
  revert s. induction p as [|a p IH]; intros [|b s]; simpl; try done.
  destruct (bool_decide (a = b)); simpl; [apply IH|done].
Qed.

Lemma contains_cons c s p :
  contains (String c s) p = startswith (String c s) p || contains s p.
Proof. reflexivity. Qed.

(** A text without a fence matches neither pattern, at any position. *)
Lemma search_without_fence anchored s :
  (forall t, startswith t fence = false -> anchored t = None) ->
  contains s fence = false -> search anchored s = None.
Proof.
  intros Hanchored. induction s as [|c s IH]; intros Hs.
  - simpl. rewrite Hanchored; [done|]. reflexivity.
  - rewrite contains_cons in Hs. apply orb_false_iff in Hs as [Hhead Htail].
    cbn [search]. rewrite (Hanchored _ Hhead). by apply IH.
Qed.

Lemma extract_code_block_without_fence content language :
  contains content fence = false ->
  _extract_code_block content language = "".
Proof.
  intros Hs. unfold _extract_code_block.
  rewrite (search_without_fence (match_language_fence language)); [|..|done].
  - rewrite (search_without_fence match_plain_fence); [done|..|done].
    intros t Ht. unfold match_plain_fence.
    by rewrite (after_literal_startswith _ _ Ht).
  - intros t Ht. unfold match_language_fence.
    by rewrite (after_literal_startswith _ _ Ht).
Qed.

(** Lines that open no section leave the loop variables as they are
    while no section is open. *)
Lemma scan_without_header language lines sc :
  forallb (fun line => match header_of line with
                       | Some _ => false
                       | None => true
                       end) lines = true ->
  current_section sc = None ->
  fold_left (scan_line language) lines sc = sc.
Proof.
  revert sc. induction lines as [|line lines IH]; intros sc Hlines Hsc;
    [done|].
  simpl in Hlines. apply andb_true_iff in Hlines as [Hline Hrest].
  simpl. unfold scan_line at 2.
  destruct (header_of line); [done|]. rewrite Hsc. by apply IH.
Qed.

(** C9.  For a response in which no line opens one of the expected
    sections, [_parse_solution_response] returns the result whose
    explanation is the whole response (stripped of the white space around
    it, as [content.strip()] does), whose code is what
    [_extract_code_block] finds in the whole response, and whose other
    fields are empty; and the code is empty when the response holds no
    fence.  The parser is a total function: it returns a result for every
    response. *)
Theorem unstructured_response_becomes_the_explanation :
  forall content language,
    no_section_header content = true ->
    _parse_solution_response content language
    = mkParsed (_extract_code_block content language) (strip content)
               "" "" ""
    /\ (contains content fence = false ->
        code (_parse_solution_response content language) = "").
Proof.
  intros content language Hno.
  assert (_parse_solution_response content language
          = mkParsed (_extract_code_block content language) (strip content)
                     "" "" "") as Heq.
  { unfold _parse_solution_response.
    rewrite scan_without_header; [|exact Hno|reflexivity].
    reflexivity. }
  split; [exact Heq|].
  intros Hfence. rewrite Heq. simpl.
  by apply extract_code_block_without_fence.
Qed.

End ParserFacts.

(** An answer in free text around one fenced block. *)
Lemma unstructured_response_becomes_the_explanation_witness :
  SolveAgent.no_section_header Scenario.unstructured_response = true
  /\ SolveAgent._parse_solution_response Scenario.unstructured_response
       "python"
     = SolveAgent.mkParsed
         ("def two_sum(nums, target):" +:+ String PyStr.newline
          "    return []")
         ("Here you go:" +:+ String PyStr.newline
          ("```python" +:+ String PyStr.newline
          ("def two_sum(nums, target):" +:+ String PyStr.newline
          ("    return []" +:+ String PyStr.newline
          ("```" +:+ String PyStr.newline "Hope this helps.")))))
         "" "" "".
Proof.
  split; [reflexivity|].
  exact (proj1 (unstructured_response_becomes_the_explanation
                  Scenario.unstructured_response "python" eq_refl)).
Defined.

(** * Further properties of the code *)

(** ** The store: keys, addresses and look-ups *)

Section StoreFacts.

Import DatabaseManager Ledger Integrity.

Lemma next_key_above_seq seq keys : seq < next_key seq keys.
Proof.
  unfold next_key. induction keys as [|k keys IH]; simpl; lia.
Qed.

Lemma next_key_above_keys seq keys k : In k keys -> k < next_key seq keys.
Proof.
  unfold next_key. induction keys as [|k' keys IH]; simpl; [done|].
  intros [->|Hin]; [lia|]. specialize (IH Hin). lia.
Qed.

(** A row appended under a condition no earlier row meets is the one
    [find] returns. *)
Lemma find_app_new {A} (f : A -> bool) l x :
  (forall y, In y l -> f y = false) -> f x = true ->
  List.find f (l ++ [x]) = Some x.
Proof.
  intros Hl Hx. induction l as [|y l IH]; simpl.
  - by rewrite Hx.
  - rewrite (Hl y) by (by left). apply IH. intros z Hz. apply Hl. by right.
Qed.

Lemma find_app_old {A} (f : A -> bool) l x :
  f x = false -> List.find f (l ++ [x]) = List.find f l.
Proof.
  intros Hx. induction l as [|y l IH]; simpl.
  - by rewrite Hx.
  - by destruct (f y).
Qed.

Lemma rowcount_email_zero db email :
  rowcount_email db email = 0%nat
  <-> existsb (fun u => eqb_str (User.email u) email) (users db) = false.
Proof.
  unfold rowcount_email.
  induction (users db) as [|u us IH]; simpl; [done|].
  destruct (eqb_str (User.email u) email); simpl; [|done].
  split; discriminate.
Qed.

Lemma rowcount_email_stored db email :
  rowcount_email db email <> 0%nat <-> stored_address db email.
Proof.
  rewrite rowcount_email_zero. unfold stored_address. split.
  - intros H. destruct (existsb _ _) eqn:E; [|done].
    apply existsb_exists in E as [u [Hin Hu]].
    exists u. split; [done|]. by apply eqb_str_true.
  - intros [u [Hin Hu]] E.
    assert (existsb (fun u => eqb_str (User.email u) email) (users db) = true)
      as Ht; [|congruence].
    apply existsb_exists. exists u. split; [done|]. by apply eqb_str_true.
Qed.

(** X1.  [add_user] with a delay that fits SQLite's 64-bit integer, on an
    address that is not stored, appends one active row with the given
    preferences and the schema's defaults, under a key above every key of
    the table and above its counter, returns that row, and both look-ups
    find it; on an address that is stored, or with a delay that does not
    fit, it returns [None] and leaves the store as it is. *)
Theorem add_user_inserts_or_refuses :
  forall now db email l d sd h,
    (sqlite_integer h = true -> ~ stored_address db email ->
     let row := new_user_row now db email l d sd h in
     add_user now db email l d sd h
     = (Some row, with_users (users db ++ [row]) (User.id row) db)
     /\ get_user_by_email (snd (add_user now db email l d sd h)) email
        = Some row
     /\ get_user_by_id (snd (add_user now db email l d sd h)) (User.id row)
        = Some row
     /\ users_seq db < User.id row
     /\ (forall u, In u (users db) -> User.id u < User.id row)
     /\ get_active_users (snd (add_user now db email l d sd h))
        = get_active_users db ++ [row])
    /\ (stored_address db email ->
        add_user now db email l d sd h = (None, db))
    /\ (sqlite_integer h = false ->
        add_user now db email l d sd h = (None, db)).
Proof.
  intros now db email l d sd h. split; [|split].
  - intros Hfits Hnew.
    assert (rowcount_email db email = 0%nat) as Hzero.
    { destruct (decide (rowcount_email db email = 0%nat)) as [|Hne]; [done|].
      destruct Hnew. by apply rowcount_email_stored. }
    apply rowcount_email_zero in Hzero.
    set (row := new_user_row now db email l d sd h).
    assert (forall u, In u (users db) -> User.id u < User.id row) as Hkeys.
    { intros u Hu. apply next_key_above_keys. by apply in_map. }
    assert (get_user_by_id (with_users (users db ++ [row]) (User.id row) db)
                           (User.id row) = Some row) as Hid.
    { unfold get_user_by_id. simpl. apply find_app_new.
      - intros u Hu. specialize (Hkeys u Hu).
        destruct (eqb_Z (User.id u) _) eqn:E; [|done].
        apply eqb_Z_true in E. simpl in *. lia.
      - apply eqb_Z_refl. }
    assert (add_user now db email l d sd h
            = (Some row, with_users (users db ++ [row]) (User.id row) db))
      as Hadd.
    { rewrite <- Hid. unfold add_user. by rewrite Hfits, Hzero. }
    rewrite Hadd. cbn [snd]. repeat split.
    + unfold get_user_by_email. simpl. apply find_app_new.
      * intros u Hu.
        destruct (eqb_str (User.email u) email) eqn:E; [|done].
        assert (existsb (fun u => eqb_str (User.email u) email) (users db)
                = true) as Ht; [|congruence].
        apply existsb_exists. by exists u.
      * apply eqb_str_refl.
    + exact Hid.
    + apply next_key_above_seq.
    + exact Hkeys.
    + unfold get_active_users. simpl. by rewrite List.filter_app.
  - intros Hold%rowcount_email_stored. unfold add_user.
    destruct (negb _); [done|].
    destruct (existsb _ _) eqn:E; [done|].
    apply rowcount_email_zero in E. lia.
  - intros Hfits. unfold add_user. by rewrite Hfits.
Qed.

Lemma NoDup_snoc {A} (l : list A) x :
  List.NoDup l -> ~ In x l -> List.NoDup (l ++ [x]).
Proof.
  intros Hl Hx. induction l as [|y l IH]; simpl.
  - constructor; [by intros []|constructor].
  - apply List.NoDup_cons_iff in Hl as [Hy Hl].
    constructor.
    + rewrite in_app_iff. intros [Hin|[->|[]]]; [done|].
      apply Hx. by left.
    + apply IH; [done|]. intros Hin. apply Hx. by right.
Qed.

Lemma NoDup_map_filter {A B} (g : A -> B) (f : A -> bool) l :
  List.NoDup (map g l) -> List.NoDup (map g (List.filter f l)).
Proof.
  induction l as [|y l IH]; simpl; [done|].
  intros [Hy Hl]%List.NoDup_cons_iff. destruct (f y); simpl; [|by apply IH].
  constructor; [|by apply IH].
  intros [z [Hz [Hin _]%filter_In]]%in_map_iff.
  apply Hy. apply in_map_iff. by exists z.
Qed.

(** A new row under the next key keeps the keys distinct and below the
    counter, also when other rows are deleted first. *)
Lemma keys_below_insert {A} (key : A -> Z) (f : A -> bool) seq l :
  keys_below seq (map key l) ->
  keys_below (next_key seq (map key l))
             (map key (List.filter f l) ++ [next_key seq (map key l)]).
Proof.
  intros [Hnd Hle]. split.
  - apply NoDup_snoc; [by apply NoDup_map_filter|].
    intros [z [Hz [Hin _]%filter_In]]%in_map_iff.
    assert (In (key z) (map key l)) as Hk by (by apply in_map).
    pose proof (next_key_above_keys seq _ _ Hk). lia.
  - intros k [[z [<- [Hin _]%filter_In]]%in_map_iff|[<-|[]]]%in_app_iff;
      [|lia].
    assert (In (key z) (map key l)) as Hk by (by apply in_map).
    pose proof (next_key_above_keys seq _ _ Hk). lia.
Qed.

Lemma keys_below_append {A} (key : A -> Z) seq l :
  keys_below seq (map key l) ->
  keys_below (next_key seq (map key l))
             (map key l ++ [next_key seq (map key l)]).
Proof.
  intros H. pose proof (keys_below_insert key (fun _ => true) seq l H) as H'.
  by rewrite filter_true in H'.
Qed.

End StoreFacts.

Lemma add_user_inserts_or_refuses_witness :
  DatabaseManager.sqlite_integer 24 = true
  /\ ~ Integrity.stored_address DatabaseManager._initialize_database
                                "alice@example.com"
  /\ DatabaseManager.add_user 0%nat DatabaseManager._initialize_database
        "alice@example.com" "python" "medium" "with_problem" 24
     = (Some (User.mk 1 "alice@example.com" "python" "medium"
                      "with_problem" 24 "09:00" "UTC" true 0%nat 0%nat),
        DatabaseManager.with_users
          [User.mk 1 "alice@example.com" "python" "medium"
                   "with_problem" 24 "09:00" "UTC" true 0%nat 0%nat]
          1 DatabaseManager._initialize_database)
  /\ DatabaseManager.sqlite_integer (2 ^ 63) = false
  /\ DatabaseManager.add_user 0%nat DatabaseManager._initialize_database
        "alice@example.com" "python" "medium" "with_problem" (2 ^ 63)
     = (None, DatabaseManager._initialize_database).
Proof.
  assert (~ Integrity.stored_address DatabaseManager._initialize_database
                                     "alice@example.com") as Hnew.
  { by intros [u [[] _]]. }
  split; [reflexivity|]. split; [exact Hnew|]. split; [|split].
  - exact (proj1 (proj1 (add_user_inserts_or_refuses
                           0%nat DatabaseManager._initialize_database
                           "alice@example.com" "python" "medium"
                           "with_problem" 24) eq_refl Hnew)).
  - reflexivity.
  - exact (proj2 (proj2 (add_user_inserts_or_refuses
                           0%nat DatabaseManager._initialize_database
                           "alice@example.com" "python" "medium"
                           "with_problem" (2 ^ 63))) eq_refl).
Defined.

Section StoreInvariants.

Import DatabaseManager Ledger Integrity.

Lemma map_key_update {A} (key : A -> Z) (g : A -> A) l :
  (forall x, key (g x) = key x) -> map key (map g l) = map key l.
Proof.
  intros Hg. rewrite map_map. apply map_ext. exact Hg.
Qed.

Lemma map_email_update (g : User.t -> User.t) l :
  (forall u, User.email (g u) = User.email u) ->
  map User.email (map g l) = map User.email l.
Proof.
  intros Hg. rewrite map_map. apply map_ext. exact Hg.
Qed.

Lemma apply_preferences_keeps now l d u :
  User.id (apply_preferences now l d u) = User.id u
  /\ User.email (apply_preferences now l d u) = User.email u
  /\ User.is_active (apply_preferences now l d u) = User.is_active u.
Proof. unfold apply_preferences. by destruct (truthy l), (truthy d). Qed.

Lemma counters_le_refl db : counters_le db db.
Proof. unfold counters_le. lia. Qed.

Lemma keys_ok_execute st db :
  keys_ok db -> keys_ok (execute st db) /\ counters_le db (execute st db).
Proof.
  intros Hdb. pose proof Hdb as (Hu & Hp & Hs).
  destruct st; cbn [execute].
  - unfold add_user.
    destruct (negb _); [split; [done|apply counters_le_refl]|].
    destruct (existsb _ _); cbn [snd].
    + split; [done|apply counters_le_refl].
    + pose proof (next_key_above_seq (users_seq db) (map User.id (users db))).
      split; [|unfold counters_le; simpl; lia]. split; [|done]. simpl.
      rewrite map_app. simpl. by apply keys_below_append.
  - unfold update_user_preferences. destruct (_ || _); cbn [snd].
    + split; [|unfold counters_le; simpl; lia]. split; [|done]. simpl.
      rewrite map_key_update; [done|]. intros u.
      destruct (eqb_str _ _); [|done]. apply apply_preferences_keeps.
    + split; [done|apply counters_le_refl].
  - unfold deactivate_user. cbn [snd].
    split; [|unfold counters_le; simpl; lia]. split; [|done]. simpl.
    rewrite map_key_update; [done|]. intros u. by destruct (eqb_str _ _).
  - unfold add_problem. cbn [snd].
    pose proof (next_key_above_seq (problems_seq db)
                  (map Problem.id (problems db))).
    split; [|unfold counters_le; simpl; lia].
    split; [done|]. split; [|done]. simpl.
    rewrite map_app. simpl. by apply keys_below_append.
  - unfold mark_problem_sent. cbn [snd].
    pose proof (next_key_above_seq (sent_problems_seq db)
                  (map SentProblem.id (sent_problems db))).
    split; [|unfold counters_le; simpl; lia].
    split; [done|]. split; [done|]. simpl.
    rewrite map_app. simpl. by apply keys_below_insert.
Qed.

Lemma keys_ok_initial : keys_ok _initialize_database.
Proof. repeat split; simpl; (constructor || done). Qed.

(** X2.  Keys are never reused.  In a store whose keys are distinct and
    not above the tables' counters, every statement of the ledger leaves
    them so and moves no counter back; hence this holds in every store
    built from the empty one, and a row deleted by [INSERT OR REPLACE]
    never gives its key to a later row. *)
Theorem keys_are_never_reused :
  forall db,
    keys_ok db ->
    (forall st, keys_ok (execute st db) /\ counters_le db (execute st db))
    /\ (forall db',
           reachable_from db db' -> keys_ok db' /\ counters_le db db')
    /\ (forall now user_id problem_id l s r,
           In r (sent_problems db) ->
           forall r',
             In r' (sent_problems
                      (snd (mark_problem_sent now db user_id problem_id l s))) ->
             SentProblem.user_id r' = user_id ->
             SentProblem.problem_id r' = problem_id ->
             SentProblem.id r < SentProblem.id r').
Proof.
  intros db Hdb. split; [|split].
  - intros st. by apply keys_ok_execute.
  - intros db' Hreach. induction Hreach as [|db' st _ [IHk IHc]].
    + split; [done|apply counters_le_refl].
    + destruct (keys_ok_execute st db' IHk) as [Hk Hc]. split; [done|].
      unfold counters_le in *. lia.
  - intros now u p l s r Hr r' Hr' Hu Hp.
    assert (In r' (records_for (snd (mark_problem_sent now db u p l s)) u p))
      as Hin.
    { apply filter_In. split; [done|]. by apply same_pair_true. }
    rewrite mark_problem_sent_own in Hin. destruct Hin as [<-|[]]. simpl.
    apply next_key_above_keys. by apply in_map.
Qed.

Lemma unique_emails_execute st db :
  unique_emails db -> unique_emails (execute st db).
Proof.
  unfold unique_emails. intros Hdb. destruct st; cbn [execute].
  - unfold add_user. destruct (negb _); [done|].
    destruct (existsb _ _) eqn:E; cbn [snd]; [done|].
    simpl. rewrite map_app. simpl. apply NoDup_snoc; [done|].
    intros [u [Hu Hin]]%in_map_iff.
    assert (existsb (fun u => eqb_str (User.email u) email) (users db)
            = true) as Ht; [|congruence].
    apply existsb_exists. exists u. split; [done|]. by apply eqb_str_true.
  - unfold update_user_preferences. destruct (_ || _); cbn [snd]; [|done].
    simpl. rewrite map_email_update; [done|]. intros u.
    destruct (eqb_str _ _); [|done]. apply apply_preferences_keeps.
  - unfold deactivate_user. cbn [snd]. simpl.
    rewrite map_email_update; [done|]. intros u. by destruct (eqb_str _ _).
  - done.
  - done.
Qed.

(** X3.  Addresses stay unique: every statement of the ledger keeps the
    addresses of the [users] table distinct, so every store built from
    the empty one has each address in at most one row, active or not. *)
Theorem addresses_stay_unique :
  forall db,
    unique_emails db ->
    (forall st, unique_emails (execute st db))
    /\ (forall db', reachable_from db db' -> unique_emails db')
    /\ (forall db' email,
           reachable_from db db' -> (rowcount_email db' email <= 1)%nat).
Proof.
  intros db Hdb.
  assert (forall db', reachable_from db db' -> unique_emails db') as Hreach.
  { intros db' H. induction H as [|db' st _ IH]; [done|].
    by apply unique_emails_execute. }
  split; [|split].
  - intros st. by apply unique_emails_execute.
  - exact Hreach.
  - intros db' email H. specialize (Hreach db' H).
    unfold unique_emails, rowcount_email in *.
    induction (users db') as [|u us IH]; simpl; [lia|].
    apply List.NoDup_cons_iff in Hreach as [Hu Hus].
    destruct (eqb_str (User.email u) email) eqn:E; simpl; [|by apply IH].
    apply eqb_str_true in E.
    assert (List.filter (fun u => eqb_str (User.email u) email) us = [])
      as ->; [|simpl; lia].
    destruct (List.filter _ us) as [|v vs] eqn:Ef; [done|].
    assert (In v (List.filter (fun u => eqb_str (User.email u) email) us))
      as [Hv Hve%eqb_str_true]%filter_In by (rewrite Ef; by left).
    destruct Hu. rewrite E, <- Hve. by apply in_map.
Qed.

End StoreInvariants.

Lemma keys_are_never_reused_witness :
  Integrity.keys_ok Scenario.pending_ledger
  /\ Integrity.keys_ok
       (Ledger.execute (Ledger.MarkProblemSent 3%nat 1 1 "python" "sent")
                       Scenario.pending_ledger)
  /\ map SentProblem.id
         (DatabaseManager.sent_problems
            (Ledger.execute (Ledger.MarkProblemSent 3%nat 1 1 "python" "sent")
                            Scenario.pending_ledger)) = [2].
Proof.
  assert (Integrity.keys_ok Scenario.pending_ledger) as H.
  { apply (keys_ok_execute
             (Ledger.MarkProblemSent 0%nat 1 1 "python" "pending")
             DatabaseManager._initialize_database), keys_ok_initial. }
  split; [exact H|]. split; [|reflexivity].
  exact (proj1 (proj1 (keys_are_never_reused Scenario.pending_ledger H)
                  (Ledger.MarkProblemSent 3%nat 1 1 "python" "sent"))).
Defined.

Lemma addresses_stay_unique_witness :
  Integrity.unique_emails DatabaseManager._initialize_database
  /\ Integrity.unique_emails
       (Ledger.execute
          (Ledger.AddUser 0%nat "alice@example.com" "python" "medium"
                          "with_problem" 24)
          DatabaseManager._initialize_database).
Proof.
  assert (Integrity.unique_emails DatabaseManager._initialize_database) as H.
  { constructor. }
  split; [exact H|].
  apply (proj1 (addresses_stay_unique _ H)).
Defined.

Section RowFacts.

Import DatabaseManager Ledger Integrity.

Lemma find_email_update (g : User.t -> User.t) l addr :
  (forall u, User.email (g u) = User.email u) ->
  List.find (fun u => eqb_str (User.email u) addr) (map g l)
  = g <$> List.find (fun u => eqb_str (User.email u) addr) l.
Proof.
  intros Hg. induction l as [|u l IH]; simpl; [done|].
  rewrite Hg. by destruct (eqb_str (User.email u) addr).
Qed.

Lemma rowcount_positive db email :
  negb (Nat.eqb (rowcount_email db email) 0) = true
  <-> stored_address db email.
Proof.
  rewrite <- rowcount_email_stored, negb_true_iff, Nat.eqb_neq. done.
Qed.

(** The active rows after an [UPDATE] that deactivates an address. *)
Lemma filter_active_deactivated t email l :
  List.filter User.is_active (map (deactivated t email) l)
  = List.filter (fun u => negb (eqb_str (User.email u) email))
                (List.filter User.is_active l).
Proof.
  induction l as [|u l IH]; simpl; [done|].
  destruct (eqb_str (User.email u) email) eqn:E.
  - assert (User.is_active (deactivated t email u) = false) as ->.
    { unfold deactivated. by rewrite E. }
    destruct (User.is_active u); simpl; rewrite ?E; simpl; exact IH.
  - assert (deactivated t email u = u) as ->.
    { unfold deactivated. by rewrite E. }
    destruct (User.is_active u); simpl; rewrite ?E; simpl;
      [by rewrite IH|exact IH].
Qed.

(** X4.  [deactivate_user] is a soft delete.  It returns [True] exactly
    when the address is stored; afterwards the active subscribers are the
    former ones without that address, in the same order; every row is
    still there under its key and address, the rows of other addresses
    untouched; problems and delivery records are not changed; and a second
    call changes the active subscribers no further. *)
Theorem deactivate_user_is_a_soft_delete :
  forall now db email,
    (fst (deactivate_user now db email) = true <-> stored_address db email)
    /\ get_active_users (snd (deactivate_user now db email))
       = List.filter (fun u => negb (eqb_str (User.email u) email))
                     (get_active_users db)
    /\ users (snd (deactivate_user now db email))
       = map (deactivated now email) (users db)
    /\ (forall addr,
           get_user_by_email (snd (deactivate_user now db email)) addr
           = deactivated now email <$> get_user_by_email db addr)
    /\ problems (snd (deactivate_user now db email)) = problems db
    /\ sent_problems (snd (deactivate_user now db email)) = sent_problems db
    /\ (forall now',
           get_active_users
             (snd (deactivate_user now'
                     (snd (deactivate_user now db email)) email))
           = get_active_users (snd (deactivate_user now db email))).
Proof.
  intros now db email.
  pose proof (fun t l => filter_active_deactivated t email l) as Hactive.
  split; [apply rowcount_positive|]. split; [apply Hactive|].
  split; [done|]. split; [|split; [done|split; [done|]]].
  - intros addr. unfold get_user_by_email. simpl.
    apply find_email_update. intros u. unfold deactivated.
    by destruct (eqb_str _ _).
  - intros now'. unfold get_active_users. simpl.
    change (map (fun u => if eqb_str (User.email u) email
                          then User.set_updated_at now'
                                 (User.set_is_active false u) else u))
      with (map (deactivated now' email)).
    change (map (fun u => if eqb_str (User.email u) email
                          then User.set_updated_at now
                                 (User.set_is_active false u) else u))
      with (map (deactivated now email)).
    rewrite (Hactive now'), (Hactive now).
    induction (List.filter User.is_active (users db)) as [|u l IH];
      simpl; [done|].
    destruct (eqb_str (User.email u) email) eqn:E; simpl; [done|].
    by rewrite E, IH.
Qed.

(** X5.  [update_user_preferences] with no preference to set (each one
    [None] or empty) returns [False] and leaves the store as it is, also
    for a stored address.  Otherwise it returns [True] exactly when the
    address is stored, sets the preferences given and keeps the others,
    stamps [updated_at], and changes neither the key, the address nor the
    active flag of the row, nor any row of another address. *)
Theorem update_user_preferences_sets_what_is_given :
  forall now db email l d,
    (truthy l || truthy d = false ->
     update_user_preferences now db email l d = (false, db))
    /\ (truthy l || truthy d = true ->
        (fst (update_user_preferences now db email l d) = true
         <-> stored_address db email)
        /\ (forall addr,
               addr <> email ->
               get_user_by_email
                 (snd (update_user_preferences now db email l d)) addr
               = get_user_by_email db addr)
        /\ (forall u,
               get_user_by_email db email = Some u ->
               exists u',
                 get_user_by_email
                   (snd (update_user_preferences now db email l d)) email
                 = Some u'
                 /\ User.preferred_language u'
                    = (if truthy l then default "" l
                       else User.preferred_language u)
                 /\ User.preferred_difficulty u'
                    = (if truthy d then default "" d
                       else User.preferred_difficulty u)
                 /\ User.updated_at u' = now
                 /\ User.id u' = User.id u
                 /\ User.email u' = User.email u
                 /\ User.is_active u' = User.is_active u)
        /\ map User.email
               (get_active_users
                  (snd (update_user_preferences now db email l d)))
           = map User.email (get_active_users db)).
Proof.
  intros now db email l d. unfold update_user_preferences. split.
  - by intros ->.
  - intros ->. cbn [fst snd].
    set (g := fun u => if eqb_str (User.email u) email
                       then apply_preferences now l d u else u).
    assert (forall u, User.email (g u) = User.email u) as Hg.
    { intros u. unfold g. destruct (eqb_str _ _); [|done].
      apply apply_preferences_keeps. }
    assert (forall addr,
              get_user_by_email (with_users (map g (users db))
                                            (users_seq db) db) addr
              = g <$> get_user_by_email db addr) as Hfind.
    { intros addr. unfold get_user_by_email. simpl.
      by apply find_email_update. }
    split; [apply rowcount_positive|]. split; [|split].
    + intros addr Hne. rewrite Hfind.
      destruct (get_user_by_email db addr) as [u|] eqn:E; [|done].
      simpl. f_equal. unfold g.
      apply find_some in E as [_ Hu%eqb_str_true].
      destruct (eqb_str (User.email u) email) eqn:E'; [|done].
      apply eqb_str_true in E'. congruence.
    + intros u Hu. rewrite Hfind, Hu. simpl. eexists. split; [done|].
      apply find_some in Hu as [_ Hu%eqb_str_true].
      unfold g. rewrite Hu, eqb_str_refl. unfold apply_preferences.
      by destruct (truthy l), (truthy d).
    + unfold get_active_users. simpl. clear Hfind.
      induction (users db) as [|u us IH]; simpl; [done|].
      assert (User.is_active (g u) = User.is_active u) as ->.
      { unfold g. destruct (eqb_str _ _); [|done].
        apply apply_preferences_keeps. }
      destruct (User.is_active u); [|exact IH].
      cbn [map]. f_equal; [apply Hg|exact IH].
Qed.

(** X6.  [add_problem] stores a copy of the problem under a key above
    every key of the table, with the table's own [created_at], and
    returns it; [get_problem_by_id] finds it under that key and finds
    under every other key what it found before; and when every delivery
    record names a stored problem, the new problem has no record for any
    subscriber. *)
Theorem add_problem_then_lookup :
  forall now db problem,
    let row := new_problem_row now db problem in
    add_problem now db problem
    = (Some row, with_problems (problems db ++ [row]) (Problem.id row) db)
    /\ get_problem_by_id (snd (add_problem now db problem)) (Problem.id row)
       = Some row
    /\ (forall k,
           k <> Problem.id row ->
           get_problem_by_id (snd (add_problem now db problem)) k
           = get_problem_by_id db k)
    /\ (forall p, In p (problems db) -> Problem.id p < Problem.id row)
    /\ (references_ok db ->
        references_ok (snd (add_problem now db problem))
        /\ forall user_id,
            records_for (snd (add_problem now db problem)) user_id
                        (Problem.id row) = []).
Proof.
  intros now db problem row.
  assert (forall p, In p (problems db) -> Problem.id p < Problem.id row)
    as Hkeys.
  { intros p Hp. apply next_key_above_keys. by apply in_map. }
  assert (get_problem_by_id
            (with_problems (problems db ++ [row]) (Problem.id row) db)
            (Problem.id row) = Some row) as Hid.
  { unfold get_problem_by_id. simpl. apply find_app_new.
    - intros p Hp. specialize (Hkeys p Hp).
      destruct (eqb_Z (Problem.id p) _) eqn:E; [|done].
      apply eqb_Z_true in E. subst row. simpl in Hkeys. lia.
    - apply eqb_Z_refl. }
  assert (add_problem now db problem
          = (Some row,
             with_problems (problems db ++ [row]) (Problem.id row) db))
    as Hadd.
  { rewrite <- Hid. reflexivity. }
  rewrite Hadd. cbn [snd]. split; [done|]. split; [done|].
  split; [|split; [done|]].
  - intros k Hk. unfold get_problem_by_id. simpl. apply find_app_old.
    destruct (eqb_Z (Problem.id row) k) eqn:E; [|done].
    apply eqb_Z_true in E. congruence.
  - intros Hrefs. split.
    + intros sp Hsp. destruct (Hrefs sp Hsp) as [p [Hp Hid']].
      exists p. split; [|done]. simpl. apply in_app_iff. by left.
    + intros u. unfold records_for. simpl.
      destruct (List.filter _ _) as [|sp sps] eqn:E; [done|].
      assert (In sp (sp :: sps)) as Hin by (by left).
      rewrite <- E in Hin.
      apply filter_In in Hin as [Hsp [_ Hrow]%same_pair_true].
      destruct (Hrefs sp Hsp) as [p [Hp Hid']].
      specialize (Hkeys p Hp). subst row. simpl in Hkeys, Hrow. lia.
Qed.

End RowFacts.

(** ** The coordinator: subscribing, unsubscribing, a subscriber's turn *)

Section SubscriberFacts.

Import DatabaseManager Ledger Integrity Coordinator Pipeline Conduct.

Context {Env : Type} (agents : Agents Env).

Lemma get_user_by_email_none db email :
  get_user_by_email db email = None
  <-> existsb (fun u => eqb_str (User.email u) email) (users db) = false.
Proof.
  unfold get_user_by_email.
  induction (users db) as [|u us IH]; simpl; [done|].
  destruct (eqb_str (User.email u) email); simpl; [|done].
  split; discriminate.
Qed.

Lemma get_user_by_email_stored db email u :
  get_user_by_email db email = Some u ->
  In u (users db) /\ User.email u = email.
Proof.
  intros [Hin Hu]%find_some. split; [done|]. by apply eqb_str_true.
Qed.

Lemma add_user_fresh now db email l d sd h :
  sqlite_integer h = true ->
  get_user_by_email db email = None ->
  DatabaseManager.add_user now db email l d sd h
  = (Some (new_user_row now db email l d sd h),
     with_users (users db ++ [new_user_row now db email l d sd h])
                (User.id (new_user_row now db email l d sd h)) db).
Proof.
  intros Hfits Hnone%get_user_by_email_none.
  set (row := new_user_row now db email l d sd h).
  assert (get_user_by_id (with_users (users db ++ [row]) (User.id row) db)
                         (User.id row) = Some row) as Hid.
  { unfold get_user_by_id. simpl. apply find_app_new.
    - intros u Hu. destruct (eqb_Z (User.id u) _) eqn:E; [|done].
      apply eqb_Z_true in E.
      assert (User.id u < next_key (users_seq db) (map User.id (users db))).
      { apply next_key_above_keys. by apply in_map. }
      lia.
    - apply eqb_Z_refl. }
  rewrite <- Hid. unfold DatabaseManager.add_user. by rewrite Hfits, Hnone.
Qed.

(** X7.  [add_user] of the coordinator answers [False] and changes
    neither the store nor anything behind the agents (no mail is sent)
    when the address is empty or has no [@], when the language or the
    difficulty is not a key of the configuration, and when the address
    belongs to an active subscriber. *)
Theorem add_user_refuses_and_changes_nothing :
  forall email l d (w : @World Env),
    (email = ""
     \/ PyStr.contains_char "@" email = false
     \/ lower_in l Config.SUPPORTED_LANGUAGES = false
     \/ lower_in d Config.DIFFICULTY_LEVELS = false
     \/ exists u, get_user_by_email (w_db w) email = Some u
                  /\ User.is_active u = true) ->
    Coordinator.add_user agents email l d w = (Ret false, w).
Proof.
  intros email l d w H. unfold Coordinator.add_user, try_except.
  destruct (bool_decide (email = "")
            || negb (PyStr.contains_char "@" email)) eqn:E1; [done|].
  destruct (lower_in l Config.SUPPORTED_LANGUAGES) eqn:E2; [|done].
  destruct (lower_in d Config.DIFFICULTY_LEVELS) eqn:E3; [|done].
  apply orb_false_iff in E1 as [E1a E1b].
  apply bool_decide_eq_false in E1a. apply negb_false_iff in E1b.
  destruct H as [H|[H|[H|[H|[u [Hu Ha]]]]]]; try congruence.
  cbn [negb]. unfold bind, query. cbn [w_db]. by rewrite Hu, Ha.
Qed.

(** X8.  [add_user] of the coordinator on an address that is not stored,
    with an [@] and with a language and a difficulty that are keys of the
    configuration when lower-cased: it answers [True]; the row written is
    the only new row, active, and found under the address; it carries the
    language and the difficulty as they were typed, not lower-cased; the
    welcome mail is asked for once, for that row; problems and delivery
    records are as before. *)
Theorem add_user_subscribes_a_new_address :
  forall email l d (w : @World Env),
    email <> "" ->
    PyStr.contains_char "@" email = true ->
    lower_in l Config.SUPPORTED_LANGUAGES = true ->
    lower_in d Config.DIFFICULTY_LEVELS = true ->
    get_user_by_email (w_db w) email = None ->
    exists row w',
      Coordinator.add_user agents email l d w = (Ret true, w')
      /\ row = new_user_row (fst (clock_now agents (w_env w))) (w_db w)
                            email l d "with_problem" 24
      /\ users (w_db w') = users (w_db w) ++ [row]
      /\ get_user_by_email (w_db w') email = Some row
      /\ get_active_users (w_db w') = get_active_users (w_db w) ++ [row]
      /\ User.preferred_language row = l
      /\ User.preferred_difficulty row = d
      /\ w_env w' = snd (send_welcome_email agents row
                           (snd (clock_now agents (w_env w))))
      /\ problems (w_db w') = problems (w_db w)
      /\ sent_problems (w_db w') = sent_problems (w_db w).
Proof.
  intros email l d w Hne Hat Hl Hd Hnone.
  set (row := new_user_row (fst (clock_now agents (w_env w))) (w_db w)
                           email l d "with_problem" 24).
  exists row. eexists. split.
  { unfold Coordinator.add_user, try_except.
    rewrite Hat, Hl, Hd. rewrite bool_decide_eq_false_2 by done.
    cbn [negb orb]. unfold bind, query, call, exec.
    cbn [fst snd w_db w_env]. rewrite Hnone. cbn [fst snd w_db w_env].
    rewrite add_user_fresh by done. cbn [fst snd w_db w_env]. reflexivity. }
  cbn [w_db w_env]. fold row. repeat split.
  - unfold get_user_by_email. simpl. apply find_app_new.
    + intros u Hu. destruct (eqb_str (User.email u) email) eqn:E; [|done].
      apply get_user_by_email_none in Hnone.
      assert (existsb (fun u => eqb_str (User.email u) email)
                      (users (w_db w)) = true) as Ht; [|congruence].
      apply existsb_exists. by exists u.
    + apply eqb_str_refl.
  - unfold get_active_users. simpl. by rewrite List.filter_app.
Qed.

Lemma filter_out_then_in {A} (f : A -> bool) l :
  List.filter f (List.filter (fun x => negb (f x)) l) = [].
Proof.
  induction l as [|x l IH]; simpl; [done|].
  destruct (f x) eqn:E; simpl; [done|]. by rewrite E.
Qed.

(** X9.  [remove_user]: for an address that is not stored it answers
    [False] and changes nothing; for a subscriber who is already inactive
    it answers [True], changes nothing and sends no confirmation; for an
    active subscriber it answers [True], the store is the one
    [deactivate_user] leaves, the address is no longer among the active
    subscribers, and the confirmation is asked for once. *)
Theorem remove_user_deactivates_an_active_subscriber :
  forall email (w : @World Env),
    match get_user_by_email (w_db w) email with
    | None => remove_user agents email w = (Ret false, w)
    | Some u =>
        if User.is_active u then
          let now := fst (clock_now agents (w_env w)) in
          exists w',
            remove_user agents email w = (Ret true, w')
            /\ w_db w' = snd (deactivate_user now (w_db w) email)
            /\ times_active (w_db w') email = 0%nat
            /\ w_env w' = snd (send_unsubscribe_confirmation agents email
                                 (snd (clock_now agents (w_env w))))
        else remove_user agents email w = (Ret true, w)
    end.
Proof.
  intros email w.
  destruct (get_user_by_email (w_db w) email) as [u|] eqn:Hu.
  - destruct (User.is_active u) eqn:Ha.
    + assert (fst (deactivate_user (fst (clock_now agents (w_env w)))
                                   (w_db w) email) = true) as Hrows.
      { apply rowcount_positive.
        apply get_user_by_email_stored in Hu as [Hin Hmail]. by exists u. }
      eexists. split.
      { unfold remove_user, try_except, bind, query, call, exec.
        cbn [fst snd w_db w_env]. rewrite Hu, Ha.
        cbn [negb fst snd w_db w_env]. rewrite Hrows.
        cbn [fst snd w_db w_env]. reflexivity. }
      cbn [w_db w_env]. repeat split.
      unfold times_active, get_active_users. simpl.
      change (map (fun u => if eqb_str (User.email u) email
                            then User.set_updated_at
                                   (fst (clock_now agents (w_env w)))
                                   (User.set_is_active false u) else u))
        with (map (deactivated (fst (clock_now agents (w_env w))) email)).
      rewrite filter_active_deactivated.
      by rewrite (filter_out_then_in
                    (fun u => eqb_str (User.email u) email)).
    + unfold remove_user, try_except, bind, query. cbn [w_db].
      by rewrite Hu, Ha.
  - unfold remove_user, try_except, bind, query. cbn [w_db]. by rewrite Hu.
Qed.

End SubscriberFacts.

(** An unsupported language is turned away. *)
Lemma add_user_refuses_and_changes_nothing_witness :
  Coordinator.add_user Scenario.agents "alice@example.com" "cobol" "medium"
                       Scenario.fresh
  = (Ret false, Scenario.fresh).
Proof.
  apply (add_user_refuses_and_changes_nothing Scenario.agents).
  right. right. left. reflexivity.
Defined.

(** ["Easy"] passes the validation and is stored with its capital. *)
Lemma add_user_subscribes_a_new_address_witness :
  exists row w',
    Coordinator.add_user Cases.agents "dana@example.com" "python" "Easy"
                         Scenario.fresh = (Ret true, w')
    /\ row = Cases.dana
    /\ DatabaseManager.users (Coordinator.w_db w') = [row]
    /\ User.preferred_difficulty row = "Easy".
Proof.
  destruct (add_user_subscribes_a_new_address Cases.agents
              "dana@example.com" "python" "Easy" Scenario.fresh)
    as (row & w' & Hrun & Hrow & Husers & _ & _ & _ & Hd & _);
    [discriminate|reflexivity|reflexivity|reflexivity|reflexivity|].
  exists row, w'. repeat split; [exact Hrun|exact Hrow|exact Husers|exact Hd].
Defined.

Section TurnFacts.

Import DatabaseManager Ledger Integrity Coordinator Pipeline Conduct.

Context {Env : Type} (agents : Agents Env).

Lemma add_problem_eq now db problem :
  add_problem now db problem
  = (Some (new_problem_row now db problem),
     with_problems (problems db ++ [new_problem_row now db problem])
                   (Problem.id (new_problem_row now db problem)) db).
Proof.
  set (row := new_problem_row now db problem).
  assert (get_problem_by_id
            (with_problems (problems db ++ [row]) (Problem.id row) db)
            (Problem.id row) = Some row) as Hid.
  { unfold get_problem_by_id. simpl. apply find_app_new.
    - intros p Hp. destruct (eqb_Z (Problem.id p) _) eqn:E; [|done].
      apply eqb_Z_true in E.
      assert (Problem.id p
              < next_key (problems_seq db) (map Problem.id (problems db))).
      { apply next_key_above_keys. by apply in_map. }
      lia.
    - apply eqb_Z_refl. }
  rewrite <- Hid. reflexivity.
Qed.

(** What [select_problem] does when the store has a candidate, when the
    fetch agent has nothing, and when it has something. *)
Lemma select_problem_stored user (w : @World Env) rnd e1 p :
  sqlite_random agents (w_env w) = (rnd, e1) ->
  get_unsent_problem_for_user rnd (w_db w) (User.id user)
                              (User.preferred_difficulty user) = Some p ->
  select_problem agents user w = (Ret (Some p), mkWorld (w_db w) e1).
Proof.
  intros Hrnd Hsel. unfold select_problem, bind, call, query.
  rewrite Hrnd. cbn [fst snd w_db w_env]. by rewrite Hsel.
Qed.

Lemma select_problem_nothing user (w : @World Env) rnd e1 e2 :
  sqlite_random agents (w_env w) = (rnd, e1) ->
  get_unsent_problem_for_user rnd (w_db w) (User.id user)
                              (User.preferred_difficulty user) = None ->
  get_problem_by_difficulty agents (User.preferred_difficulty user) e1
  = (None, e2) ->
  select_problem agents user w = (Ret None, mkWorld (w_db w) e2).
Proof.
  intros Hrnd Hsel Hfetch.
  unfold select_problem, _get_and_store_new_problem, try_except, bind, call,
    query.
  rewrite Hrnd. cbn [fst snd w_db w_env]. rewrite Hsel.
  cbn [fst snd w_db w_env]. by rewrite Hfetch.
Qed.

Lemma select_problem_fetched user (w : @World Env) rnd e1 p e2 :
  sqlite_random agents (w_env w) = (rnd, e1) ->
  get_unsent_problem_for_user rnd (w_db w) (User.id user)
                              (User.preferred_difficulty user) = None ->
  get_problem_by_difficulty agents (User.preferred_difficulty user) e1
  = (Some p, e2) ->
  select_problem agents user w
  = (Ret (Some (new_problem_row (fst (clock_now agents e2)) (w_db w) p)),
     mkWorld (snd (add_problem (fst (clock_now agents e2)) (w_db w) p))
             (snd (clock_now agents e2))).
Proof.
  intros Hrnd Hsel Hfetch.
  unfold select_problem, _get_and_store_new_problem, try_except, bind, call,
    query, exec.
  rewrite Hrnd. cbn [fst snd w_db w_env]. rewrite Hsel.
  cbn [fst snd w_db w_env]. rewrite Hfetch. cbn [fst snd w_db w_env].
  by rewrite add_problem_eq.
Qed.

Lemma no_selection_returns_false user (w w1 : @World Env) :
  select_problem agents user w = (Ret None, w1) ->
  _process_user_email agents user w = (Ret false, w1).
Proof.
  intros Hsel. unfold _process_user_email, try_except, bind. by rewrite Hsel.
Qed.

(** X10.  A subscriber for whom the store has no candidate and the fetch
    agent has nothing: the turn answers [False], the store is as it was
    (no record is written), and of the agents only the draw and the fetch
    agent were called: no solution was asked for and no mail sent. *)
Theorem exhausted_subscriber_gets_nothing :
  forall user (w : @World Env) rnd e1 e2,
    sqlite_random agents (w_env w) = (rnd, e1) ->
    get_unsent_problem_for_user rnd (w_db w) (User.id user)
                                (User.preferred_difficulty user) = None ->
    get_problem_by_difficulty agents (User.preferred_difficulty user) e1
    = (None, e2) ->
    _process_user_email agents user w = (Ret false, mkWorld (w_db w) e2).
Proof.
  intros user w rnd e1 e2 Hrnd Hsel Hfetch.
  apply no_selection_returns_false.
  by apply (select_problem_nothing _ _ rnd e1).
Qed.

(** X11.  When the store has no candidate and the fetch agent has a
    problem, [select_problem] stores a copy of it under a key above every
    key of the table and selects that copy; the copy keeps the difficulty
    of the fetched problem, whatever tier was asked for, and nothing is
    compared with the problems already stored. *)
Theorem fallback_stores_the_fetched_problem :
  forall user (w : @World Env) rnd e1 p e2,
    sqlite_random agents (w_env w) = (rnd, e1) ->
    get_unsent_problem_for_user rnd (w_db w) (User.id user)
                                (User.preferred_difficulty user) = None ->
    get_problem_by_difficulty agents (User.preferred_difficulty user) e1
    = (Some p, e2) ->
    exists row w1,
      select_problem agents user w = (Ret (Some row), w1)
      /\ problems (w_db w1) = problems (w_db w) ++ [row]
      /\ copy_of p row
      /\ (forall q, In q (problems (w_db w)) -> Problem.id q < Problem.id row)
      /\ get_problem_by_id (w_db w1) (Problem.id row) = Some row
      /\ users (w_db w1) = users (w_db w)
      /\ sent_problems (w_db w1) = sent_problems (w_db w).
Proof.
  intros user w rnd e1 p e2 Hrnd Hsel Hfetch.
  eexists _, _. split.
  { by apply (select_problem_fetched _ _ rnd e1 p e2). }
  rewrite add_problem_eq. cbn [snd w_db]. repeat split.
  - intros q Hq. apply next_key_above_keys. by apply in_map.
  - pose proof (add_problem_eq (fst (clock_now agents e2)) (w_db w) p) as H.
    unfold add_problem in H. by injection H.
Qed.

(** The store after a turn whose selection is known. *)
Lemma turn_after_selection user (w w1 : @World Env) p :
  select_problem agents user w = (Ret (Some p), w1) ->
  exists b w',
    _process_user_email agents user w = (Ret b, w')
    /\ users (w_db w') = users (w_db w1)
    /\ problems (w_db w') = problems (w_db w1)
    /\ ((b = false /\ sent_problems (w_db w') = sent_problems (w_db w1))
        \/ exists now,
             w_db w' = snd (mark_problem_sent now (w_db w1) (User.id user)
                              (Problem.id p) (User.preferred_language user)
                              (if b then "sent" else "failed"))).
Proof.
  intros Hsel.
  destruct (generate_solution agents p (User.preferred_language user)
                              (w_env w1)) as [[s|] e2] eqn:Hgen.
  - destruct (add_humor_to_solution agents s e2) as [s' e3] eqn:Hhum.
    destruct (send_daily_problem agents user p s' e3) as [b e4] eqn:Hsend.
    exists b. eexists. split.
    { by apply (deliver_then_record agents _ _ _ _ _ _ _ _ _ _
                  Hsel Hgen Hhum Hsend). }
    cbn [w_db]. repeat split. right. by eexists.
  - exists false. eexists. split.
    { by apply (generation_failure_returns_false agents _ _ _ _ _ Hsel Hgen). }
    cbn [w_db]. repeat split. by left.
Qed.

End TurnFacts.

(** Nothing of the tier [hard] is stored or fetched. *)
Lemma exhausted_subscriber_gets_nothing_witness :
  Coordinator._process_user_email Cases.agents Cases.erin Cases.capital_tier
  = (Ret false,
     Coordinator.mkWorld (Coordinator.w_db Cases.capital_tier)
                         (Coordinator.w_env Cases.capital_tier)).
Proof.
  apply (exhausted_subscriber_gets_nothing Cases.agents Cases.erin
           Cases.capital_tier 0%nat (Coordinator.w_env Cases.capital_tier));
    reflexivity.
Defined.

(** The subscriber of the tier ["Easy"] is served from the fetch agent. *)
Lemma fallback_stores_the_fetched_problem_witness :
  exists row w1,
    Coordinator.select_problem Cases.agents Cases.dana Cases.capital_tier
    = (Ret (Some row), w1)
    /\ DatabaseManager.problems (Coordinator.w_db w1) = [row]
    /\ Problem.difficulty row = "easy".
Proof.
  destruct (fallback_stores_the_fetched_problem Cases.agents Cases.dana
              Cases.capital_tier 0%nat
              (Coordinator.w_env Cases.capital_tier) Cases.fetched_two_sum
              (Coordinator.w_env Cases.capital_tier))
    as (row & w1 & Hrun & Hps & (_ & _ & Hd & _) & _);
    [reflexivity|reflexivity|reflexivity|].
  exists row, w1. split; [exact Hrun|]. split; [exact Hps|exact Hd].
Defined.

Section BatchLedgerFacts.

Import DatabaseManager Ledger Integrity Coordinator Pipeline Conduct.

Context {Env : Type} (agents : Agents Env).

Lemma no_candidate_of_tier db u d :
  (forall q, In q (problems db) -> Problem.difficulty q <> d) ->
  unsent_candidates db u d = [].
Proof.
  intros H. unfold unsent_candidates.
  induction (problems db) as [|q qs IH]; simpl; [done|].
  destruct (eqb_str (Problem.difficulty q) d) eqn:E; simpl.
  - apply eqb_str_true in E. destruct (H q); [by left|done].
  - apply IH. intros q' Hq'. apply H. by right.
Qed.

(** X12.  A subscriber whose tier is spelled as no stored problem's is,
    while the fetch agent answers that tier with a problem of another
    spelling (it compares lower-cased, the store exactly): every turn
    finds no candidate, fetches the same problem and stores one more copy
    of it, so after [n] turns the store holds [n] more copies and still no
    candidate. *)
Theorem misspelled_tier_stores_a_copy_every_turn :
  forall user p n (w : @World Env),
    (forall e,
        fst (get_problem_by_difficulty agents
               (User.preferred_difficulty user) e) = Some p) ->
    Problem.difficulty p <> User.preferred_difficulty user ->
    (forall q, In q (problems (w_db w)) ->
               Problem.difficulty q <> User.preferred_difficulty user) ->
    exists copies,
      problems (w_db (turns agents user n w)) = problems (w_db w) ++ copies
      /\ length copies = n
      /\ Forall (copy_of p) copies
      /\ forall rnd,
          get_unsent_problem_for_user rnd (w_db (turns agents user n w))
            (User.id user) (User.preferred_difficulty user) = None.
Proof.
  intros user p n w Hfetch Hp. revert w.
  induction n as [|n IH]; intros w Hw.
  - exists []. simpl. rewrite app_nil_r. repeat split; [constructor|].
    intros rnd. apply get_unsent_problem_for_user_None.
    by apply no_candidate_of_tier.
  - destruct (sqlite_random agents (w_env w)) as [rnd e1] eqn:Hrnd.
    destruct (get_problem_by_difficulty agents
                (User.preferred_difficulty user) e1) as [o e2] eqn:Hf.
    assert (o = Some p) as -> by (by rewrite <- (Hfetch e1), Hf).
    assert (get_unsent_problem_for_user rnd (w_db w) (User.id user)
              (User.preferred_difficulty user) = None) as Hnone.
    { apply get_unsent_problem_for_user_None. by apply no_candidate_of_tier. }
    pose proof (select_problem_fetched agents _ _ _ _ _ _ Hrnd Hnone Hf)
      as Hsel.
    destruct (turn_after_selection agents _ _ _ _ Hsel)
      as (b & w' & Hrun & _ & Hps & _).
    rewrite add_problem_eq in Hps. cbn [snd w_db problems with_problems] in Hps.
    destruct (IH w') as (copies & Hcopies & Hlen & Hall & Hstill).
    { rewrite Hps. intros q [Hq|[<-|[]]]%in_app_iff; [by apply Hw|done]. }
    exists (new_problem_row (fst (clock_now agents e2)) (w_db w) p :: copies).
    simpl. rewrite Hrun. cbn [snd]. rewrite Hcopies, Hps, <- app_assoc.
    repeat split; [by rewrite Hlen| |exact Hstill].
    constructor; [by repeat split|exact Hall].
Qed.

(** X13.  Batches never touch the table of subscribers and only append to
    the table of problems: after any number of batches the rows of
    [users], its key counter and the active subscribers are as before,
    and the stored problems are the former ones followed by new ones. *)
Theorem batches_leave_subscribers_and_problems :
  forall n (w : @World Env),
    users (w_db (run_batches agents n w)) = users (w_db w)
    /\ users_seq (w_db (run_batches agents n w)) = users_seq (w_db w)
    /\ get_active_users (w_db (run_batches agents n w))
       = get_active_users (w_db w)
    /\ exists new,
        problems (w_db (run_batches agents n w)) = problems (w_db w) ++ new.
Proof.
  assert (forall us seq ps,
             keeps (Env:=Env)
               (fun db => users db = us /\ users_seq db = seq
                          /\ exists new, problems db = ps ++ new)
               (process_daily_emails agents)) as Hkeep.
  { intros us seq ps. apply keeps_process_daily_emails.
    - intros now db u p l s H. exact H.
    - intros now db p (Hus & Hseq & new & Hps). rewrite add_problem_eq.
      cbn [snd users users_seq problems with_problems].
      split; [done|]. split; [done|].
      exists (new ++ [new_problem_row now db p]).
      by rewrite app_assoc, <- Hps. }
  intros n. induction n as [|n IH]; intros w.
  - simpl. split; [done|]. split; [done|]. split; [done|].
    exists []. by rewrite app_nil_r.
  - simpl.
    destruct (Hkeep (users (w_db w)) (users_seq (w_db w)) (problems (w_db w)) w)
      as (Hus & Hseq & new & Hps).
    { split; [done|]. split; [done|]. exists []. by rewrite app_nil_r. }
    destruct (IH (snd (process_daily_emails agents w)))
      as (Hus' & Hseq' & Hact' & new' & Hps').
    rewrite Hus', Hseq', Hact', Hps'. unfold get_active_users.
    rewrite Hus, Hseq, Hps.
    split; [done|]. split; [done|]. split; [done|].
    exists (new ++ new'). by rewrite <- app_assoc.
Qed.

Lemma mark_problem_sent_appends now db u p l s :
  records_for db u p = [] ->
  sent_problems (snd (mark_problem_sent now db u p l s))
  = sent_problems db
    ++ [SentProblem.mk (next_key (sent_problems_seq db)
                                 (map SentProblem.id (sent_problems db)))
                       u p now s l].
Proof.
  unfold records_for, mark_problem_sent. simpl. intros H. f_equal.
  induction (sent_problems db) as [|sp sps IH]; simpl; [done|].
  simpl in H. destruct (same_pair u p sp); [done|].
  simpl. f_equal. by apply IH.
Qed.

Lemma references_ok_mark_problem_sent now db u p l s :
  In p (problems db) -> references_ok db ->
  references_ok (snd (mark_problem_sent now db u (Problem.id p) l s)).
Proof.
  intros Hp Hdb sp. unfold mark_problem_sent. simpl.
  intros [[Hsp _]%filter_In|[<-|[]]]%in_app_iff.
  - by apply Hdb.
  - by exists p.
Qed.

Lemma references_ok_add_problem now db problem :
  references_ok db ->
  references_ok (snd (add_problem now db problem))
  /\ forall u,
      records_for (snd (add_problem now db problem)) u
                  (Problem.id (new_problem_row now db problem)) = [].
Proof.
  intros Hdb. split.
  - intros sp Hsp. destruct (Hdb sp Hsp) as [p [Hp Hid]].
    exists p. split; [|done]. simpl. apply in_app_iff. by left.
  - intros u. unfold records_for. simpl.
    destruct (List.filter _ _) as [|sp sps] eqn:E; [done|].
    assert (In sp (sp :: sps)) as Hin by (by left).
    rewrite <- E in Hin.
    apply filter_In in Hin as [Hsp [_ Hrow]%same_pair_true].
    destruct (Hdb sp Hsp) as [p [Hp Hid]].
    assert (Problem.id p
            < next_key (problems_seq db) (map Problem.id (problems db))).
    { apply next_key_above_keys. by apply in_map. }
    lia.
Qed.

(** A turn whose selection is stored and has no record for the
    subscriber adds at most one record, a ['sent'] one exactly when it
    answers [True]. *)
Lemma turn_accounts_selected user (w w1 : @World Env) p :
  select_problem agents user w = (Ret (Some p), w1) ->
  In p (problems (w_db w1)) ->
  records_for (w_db w1) (User.id user) (Problem.id p) = [] ->
  references_ok (w_db w1) ->
  exists b w' new,
    _process_user_email agents user w = (Ret b, w')
    /\ references_ok (w_db w')
    /\ sent_problems (w_db w') = sent_problems (w_db w1) ++ new
    /\ (length new <= 1)%nat
    /\ length (List.filter is_sent new) = (if b then 1 else 0)%nat.
Proof.
  intros Hsel Hp Hrec Hrefs.
  destruct (turn_after_selection agents _ _ _ _ Hsel)
    as (b & w' & Hrun & Hus & Hps & [[-> Hsent]|[now Hdb]]).
  - exists false, w', []. rewrite app_nil_r. repeat split; try done.
    + intros sp Hsp. rewrite Hsent in Hsp. rewrite Hps. by apply Hrefs.
    + simpl. lia.
  - exists b, w'. eexists. split; [exact Hrun|]. rewrite Hdb.
    split; [by apply references_ok_mark_problem_sent|].
    split; [by apply mark_problem_sent_appends|].
    split; [simpl; lia|]. by destruct b.
Qed.

Lemma turn_accounts user (w : @World Env) :
  references_ok (w_db w) ->
  exists b w' new,
    _process_user_email agents user w = (Ret b, w')
    /\ references_ok (w_db w')
    /\ sent_problems (w_db w') = sent_problems (w_db w) ++ new
    /\ (length new <= 1)%nat
    /\ length (List.filter is_sent new) = (if b then 1 else 0)%nat.
Proof.
  intros Hrefs.
  destruct (sqlite_random agents (w_env w)) as [rnd e1] eqn:Hrnd.
  destruct (get_unsent_problem_for_user rnd (w_db w) (User.id user)
              (User.preferred_difficulty user)) as [p|] eqn:Hget.
  - pose proof (select_problem_stored agents _ _ _ _ _ Hrnd Hget) as Hsel.
    apply get_unsent_problem_for_user_In, unsent_candidates_eligible in Hget
      as (Hp & _ & Hrec).
    by apply (turn_accounts_selected _ _ _ _ Hsel).
  - destruct (get_problem_by_difficulty agents
                (User.preferred_difficulty user) e1) as [[p|] e2] eqn:Hf.
    + pose proof (select_problem_fetched agents _ _ _ _ _ _ Hrnd Hget Hf)
        as Hsel.
      destruct (references_ok_add_problem (fst (clock_now agents e2))
                  (w_db w) p Hrefs) as [Hrefs1 Hrec].
      destruct (turn_accounts_selected _ _ _ _ Hsel)
        as (b & w' & new & Hrun & H); cbn [w_db]; try done.
      { simpl. apply in_app_iff. right. by left. }
      exists b, w', new. by split.
    + exists false. eexists _, []. split.
      { apply no_selection_returns_false.
        by apply (select_problem_nothing agents _ _ rnd e1). }
      cbn [w_db]. rewrite app_nil_r. repeat split; try done. simpl. lia.
Qed.

Lemma process_users_ledger us r (w : @World Env) :
  references_ok (w_db w) ->
  exists r' w' new,
    process_users (_process_user_email agents) us r w = (Ret r', w')
    /\ references_ok (w_db w')
    /\ sent_problems (w_db w') = sent_problems (w_db w) ++ new
    /\ (length new <= length us)%nat
    /\ (length (List.filter is_sent new) + emails_sent r
        = emails_sent r')%nat
    /\ total_users r' = total_users r
    /\ start_time r' = start_time r.
Proof.
  revert r w. induction us as [|u us IH]; intros r w Hrefs.
  - exists r, w, []. simpl. rewrite app_nil_r. repeat split; done.
  - destruct (turn_accounts u w Hrefs)
      as (b & w1 & new1 & Hrun & Hrefs1 & Hsent1 & Hlen1 & Hcount1).
    rewrite (process_users_next _ _ _ _ _ _ _ Hrun).
    destruct (IH (if b then count_sent r else count_failed r) w1 Hrefs1)
      as (r' & w' & new & -> & Hrefs' & Hsent & Hlen & Hcount & Ht & Hs).
    exists r', w', (new1 ++ new). split; [done|]. split; [done|].
    rewrite Hsent, Hsent1, <- app_assoc, List.filter_app, !length_app.
    destruct b; simpl in *; repeat split; try done; lia.
Qed.

(** X14.  In a store whose delivery records all name stored problems, a
    batch returns; it only appends delivery records, at most one for each
    active subscriber, replacing and removing none; the number of
    ['sent'] records grows by exactly [emails_sent]; and the records
    still all name stored problems. *)
Theorem emails_sent_counts_the_new_sent_records :
  forall (w : @World Env),
    references_ok (w_db w) ->
    exists r w' new,
      process_daily_emails agents w = (Ret r, w')
      /\ sent_problems (w_db w') = sent_problems (w_db w) ++ new
      /\ (length new <= total_users r)%nat
      /\ total_users r = length (get_active_users (w_db w))
      /\ sent_count (w_db w') = (sent_count (w_db w) + emails_sent r)%nat
      /\ references_ok (w_db w').
Proof.
  intros w Hrefs.
  unfold process_daily_emails, process_daily_emails_with, bind, try_except,
    call, query.
  cbn [fst snd w_db w_env].
  destruct (get_active_users (w_db w)) as [|u us] eqn:Hus.
  - eexists _, _, []. split; [done|]. cbn [w_db]. rewrite app_nil_r.
    split; [done|]. split; [simpl; lia|]. split; [done|].
    split; [simpl; lia|done].
  - set (r0 := set_total_users _ _). set (w0 := mkWorld _ _).
    destruct (process_users_ledger (u :: us) r0 w0 Hrefs)
      as (r' & w' & new & Hrun & Hrefs' & Hsent & Hlen & Hcount & Ht & _).
    rewrite Hrun. cbn [fst snd w_db w_env].
    change (w_db w0) with (w_db w) in Hsent.
    eexists _, _, new. split; [done|]. cbn [w_db]. simpl total_users.
    simpl emails_sent. rewrite Ht. unfold sent_count. rewrite Hsent.
    rewrite List.filter_app, length_app.
    split; [done|]. split; [simpl in Hlen; simpl; lia|]. split; [done|].
    split; [|done].
    unfold is_sent in Hcount. simpl in Hcount. lia.
Qed.

End BatchLedgerFacts.

(** Three turns of the subscriber of the tier ["Easy"]: three stored
    copies of the same problem. *)
Lemma misspelled_tier_stores_a_copy_every_turn_witness :
  exists copies,
    DatabaseManager.problems
      (Coordinator.w_db (Conduct.turns Cases.agents Cases.dana 3
                                       Cases.capital_tier))
    = copies
    /\ length copies = 3%nat
    /\ Forall (Conduct.copy_of Cases.fetched_two_sum) copies.
Proof.
  destruct (misspelled_tier_stores_a_copy_every_turn Cases.agents
              Cases.dana Cases.fetched_two_sum 3 Cases.capital_tier)
    as (copies & Hps & Hlen & Hall & _).
  - intros e. reflexivity.
  - discriminate.
  - intros q [].
  - exists copies. split; [exact Hps|]. split; [exact Hlen|exact Hall].
Defined.

(** The batch over the three subscribers of the first installation. *)
Lemma emails_sent_counts_the_new_sent_records_witness :
  exists r w' new,
    Coordinator.process_daily_emails Scenario.agents
      Scenario.three_subscribers = (Ret r, w')
    /\ DatabaseManager.sent_problems (Coordinator.w_db w') = new
    /\ Integrity.sent_count (Coordinator.w_db w')
       = Coordinator.emails_sent r.
Proof.
  destruct (emails_sent_counts_the_new_sent_records Scenario.agents
              Scenario.three_subscribers)
    as (r & w' & new & Hrun & Hsent & _ & _ & Hcount & _).
  - intros sp [].
  - exists r, w', new. split; [exact Hrun|]. split; [exact Hsent|exact Hcount].
Defined.

(** ** The scheduler: starting, rescheduling, inspection *)

Section SchedulerOpsFacts.

Import DailyScheduler SchedulerOps Clock.

Context {W : Type}.
Variable now : W -> Timestamp * W.
Variable known_timezone : string -> bool.

Lemma in_range_true lo hi x :
  (lo <=? x) && (x <=? hi) = true <-> lo <= x <= hi.
Proof. rewrite andb_true_iff, !Z.leb_le. tauto. Qed.

Lemma cron_trigger_valid hour minute timezone (s : @St W) :
  valid_schedule known_timezone hour minute timezone ->
  CronTrigger known_timezone hour minute timezone s
  = (Ret (hour, minute, timezone), s).
Proof.
  intros (Hh%in_range_true & Hm%in_range_true & Htz).
  unfold CronTrigger. by rewrite Hh, Hm, Htz.
Qed.

Lemma cron_trigger_invalid hour minute timezone (s : @St W) :
  ~ valid_schedule known_timezone hour minute timezone ->
  exists e, CronTrigger known_timezone hour minute timezone s = (Raise e, s).
Proof.
  intros Hno. unfold CronTrigger.
  destruct ((0 <=? hour) && (hour <=? 23)) eqn:Hh; [|by eexists].
  destruct ((0 <=? minute) && (minute <=? 59)) eqn:Hm; [|by eexists].
  destruct (known_timezone timezone) eqn:Htz; [|by eexists].
  destruct Hno. split; [by apply in_range_true|].
  split; [by apply in_range_true|done].
Qed.

(** X15.  [start] on a scheduler that is running answers [True] and
    changes nothing (the schedule of the configuration is not read
    again); on one that is not running, with a schedule [CronTrigger]
    refuses (an hour or a minute out of range, an unknown time zone), it
    answers [False] with no job registered and nothing started. *)
Theorem start_is_idempotent_and_fails_closed :
  forall cfg (s : @St W),
    (is_running (fst s) = true ->
     start known_timezone cfg s = (Ret true, s))
    /\ (is_running (fst s) = false ->
        ~ valid_schedule known_timezone (Config.SCHEDULER_HOUR cfg)
            (Config.SCHEDULER_MINUTE cfg) (Config.SCHEDULER_TIMEZONE cfg) ->
        start known_timezone cfg s = (Ret false, s)).
Proof.
  intros cfg s. split.
  - intros Hrun. unfold start, try_except, bind, self. cbn [fst snd].
    by rewrite Hrun.
  - intros Hrun Hno. unfold start, try_except, bind, self. cbn [fst snd].
    rewrite Hrun.
    by destruct (cron_trigger_invalid _ _ _ s Hno) as [e ->].
Qed.

Lemma get_job_exists id s j :
  get_job id s = Some j ->
  existsb (fun j => eqb_str (job_id j) id) (jobs s) = true.
Proof.
  intros [Hin Hid]%find_some. apply existsb_exists. by exists j.
Qed.

Lemma get_job_removed id js (s : t) :
  get_job id
    (set_jobs (List.filter (fun j => negb (eqb_str (job_id j) id)) js) s)
  = None.
Proof.
  unfold get_job. simpl. induction js as [|j js IH]; simpl; [done|].
  destruct (eqb_str (job_id j) id) eqn:E; simpl; [done|]. by rewrite E.
Qed.

Lemma filter_again {A} (f : A -> bool) l :
  List.filter f (List.filter f l) = List.filter f l.
Proof.
  induction l as [|x l IH]; simpl; [done|].
  destruct (f x) eqn:E; simpl; [|done]. by rewrite E, IH.
Qed.

(** X16.  [reschedule] answers [False] and changes nothing when the hour
    or the minute (the one given, else the configuration's) is out of
    range, and when the scheduler is not running. *)
Theorem reschedule_checks_before_it_changes :
  forall cfg hour minute timezone (s : @St W),
    (~ 0 <= default (Config.SCHEDULER_HOUR cfg) hour <= 23
     \/ ~ 0 <= default (Config.SCHEDULER_MINUTE cfg) minute <= 59
     \/ is_running (fst s) = false) ->
    reschedule known_timezone cfg hour minute timezone s = (Ret false, s).
Proof.
  intros cfg hour minute timezone s H.
  unfold reschedule, try_except.
  destruct ((0 <=? default (Config.SCHEDULER_HOUR cfg) hour)
            && (default (Config.SCHEDULER_HOUR cfg) hour <=? 23)) eqn:Hh;
    [|done].
  destruct ((0 <=? default (Config.SCHEDULER_MINUTE cfg) minute)
            && (default (Config.SCHEDULER_MINUTE cfg) minute <=? 59)) eqn:Hm;
    [|done].
  apply in_range_true in Hh, Hm.
  destruct H as [H|[H|H]]; [done|done|].
  cbn [negb]. unfold bind, self. cbn [fst snd]. by rewrite H.
Qed.

(** X17.  [reschedule] on a running scheduler that holds the job, with a
    schedule in range and a known time zone: it answers [True], and the
    store holds the job once, with the new schedule and one instance at
    most; the running flags and the last result are as before. *)
Theorem reschedule_replaces_the_job :
  forall cfg hour minute timezone (s : @St W) j,
    valid_schedule known_timezone
      (default (Config.SCHEDULER_HOUR cfg) hour)
      (default (Config.SCHEDULER_MINUTE cfg) minute)
      (default (Config.SCHEDULER_TIMEZONE cfg) timezone) ->
    is_running (fst s) = true ->
    get_job the_job_id (fst s) = Some j ->
    exists s',
      reschedule known_timezone cfg hour minute timezone s = (Ret true, s')
      /\ List.filter (fun j => eqb_str (job_id j) the_job_id) (jobs (fst s'))
         = [mkJob the_job_id
                  (default (Config.SCHEDULER_HOUR cfg) hour)
                  (default (Config.SCHEDULER_MINUTE cfg) minute)
                  (default (Config.SCHEDULER_TIMEZONE cfg) timezone) 1]
      /\ List.filter (fun j => negb (eqb_str (job_id j) the_job_id))
                     (jobs (fst s'))
         = List.filter (fun j => negb (eqb_str (job_id j) the_job_id))
                       (jobs (fst s))
      /\ is_running (fst s') = true
      /\ aps_running (fst s') = aps_running (fst s)
      /\ last_run_result (fst s') = last_run_result (fst s)
      /\ snd s' = snd s.
Proof.
  intros cfg hour minute timezone s j Hvalid Hrun Hjob.
  pose proof Hvalid as (Hh%in_range_true & Hm%in_range_true & _).
  eexists. split.
  { unfold reschedule, try_except. rewrite Hh, Hm. cbn [negb].
    unfold bind at 1. unfold self at 1. cbn [fst snd]. rewrite Hrun.
    cbn [negb]. unfold remove_job, bind, self. cbn [fst snd].
    rewrite Hjob. unfold update_self at 1. cbn [fst snd].
    rewrite cron_trigger_valid by done. reflexivity. }
  cbn [fst snd jobs set_jobs is_running aps_running last_run_result].
  rewrite !List.filter_app. cbn [List.filter job_id].
  rewrite eqb_str_refl. cbn [negb].
  rewrite (filter_out_then_in (fun j => eqb_str (job_id j) the_job_id)).
  rewrite app_nil_r.
  repeat split; try done.
  by rewrite !filter_again.
Qed.

(** X18.  [reschedule] to a time zone [CronTrigger] does not know, on a
    running scheduler that holds the job, with the hour and the minute in
    range: it answers [False], and the job is gone from the store, since
    it was removed before the trigger was built; the scheduler still
    counts as running. *)
Theorem reschedule_to_an_unknown_timezone_drops_the_job :
  forall cfg hour minute timezone (s : @St W) j,
    0 <= default (Config.SCHEDULER_HOUR cfg) hour <= 23 ->
    0 <= default (Config.SCHEDULER_MINUTE cfg) minute <= 59 ->
    known_timezone (default (Config.SCHEDULER_TIMEZONE cfg) timezone)
    = false ->
    is_running (fst s) = true ->
    get_job the_job_id (fst s) = Some j ->
    exists s',
      reschedule known_timezone cfg hour minute timezone s = (Ret false, s')
      /\ get_job the_job_id (fst s') = None
      /\ is_running (fst s') = true
      /\ is_job_running s' = (Ret false, s').
Proof.
  intros cfg hour minute timezone s j Hh%in_range_true Hm%in_range_true
    Htz Hrun Hjob.
  eexists. split.
  { unfold reschedule, try_except. rewrite Hh, Hm. cbn [negb].
    unfold bind at 1. unfold self at 1. cbn [fst snd]. rewrite Hrun.
    cbn [negb]. unfold remove_job, bind, self. cbn [fst snd].
    rewrite Hjob. unfold update_self at 1. cbn [fst snd].
    unfold CronTrigger. rewrite Hh, Hm, Htz. reflexivity. }
  cbn [fst snd]. split; [apply get_job_removed|]. split; [done|].
  unfold is_job_running, try_except, bind, self.
  cbn [fst snd is_running set_jobs].
  rewrite Hrun. cbn [negb]. by rewrite get_job_removed.
Qed.

Variable job_function : M W Dict.

(** X19.  When the job function returns, [_run_daily_job] returns its
    dictionary with the four keys of the run written over it: the status
    ['completed'], the duration between the two readings of the clock
    and the two readings themselves; every other key is as the job
    function gave it; the dictionary is stored as the last result, and
    nothing else of the scheduler changes. *)
Theorem run_daily_job_reports_the_result :
  forall (s : @St W) r w',
    job_function (snd (now (snd s))) = (Ret r, w') ->
    exists d,
      _run_daily_job job_function now s
      = (Ret d, (set_last_run_result d (fst s), snd (now w')))
      /\ d !! "job_status" = Some (VStr "completed")
      /\ d !! "job_execution_time"
         = Some (VInt (seconds_between (fst (now (snd s))) (fst (now w'))))
      /\ d !! "job_start_time" = Some (VIso (fst (now (snd s))))
      /\ d !! "job_end_time" = Some (VIso (fst (now w')))
      /\ (forall k, ~ In k job_keys -> d !! k = r !! k).
Proof.
  intros s r w' Hjob. eexists. split.
  { unfold _run_daily_job, try_except, bind, read_clock, on_world,
      update_self.
    cbn [fst snd]. rewrite Hjob. cbn [fst snd]. reflexivity. }
  repeat split; try by simplify_map_eq.
  intros k Hk. unfold job_keys in Hk. simpl in Hk.
  rewrite !lookup_insert_ne; [done|..]; intros <-; apply Hk; tauto.
Qed.

Lemma run_daily_job_status (s : @St W) :
  exists d s',
    _run_daily_job job_function now s = (Ret d, s')
    /\ last_run_result (fst s') = Some d
    /\ is_Some (d !! "job_status").
Proof.
  unfold _run_daily_job, try_except, bind, read_clock, on_world, update_self.
  cbn [fst snd].
  destruct (job_function (snd (now (snd s)))) as [[d|e] w'];
    cbn [fst snd]; eexists _, _; (split; [reflexivity|]);
    (split; [reflexivity|]); by simplify_map_eq.
Qed.

(** X20.  [get_job_history] never holds more than one entry: after a run
    it is the result of that run alone when the limit is at least one
    (an earlier run is forgotten), and it is empty for a limit below one;
    before the first run it is empty. *)
Theorem get_job_history_holds_the_latest_run_only :
  forall limit (s : @St W),
    (exists h, get_job_history limit s = (Ret h, s) /\ (length h <= 1)%nat)
    /\ (last_run_result (fst s) = None ->
        get_job_history limit s = (Ret [], s))
    /\ exists d s',
        run_now job_function now s = (Ret d, s')
        /\ get_job_history limit s'
           = (Ret (if 1 <=? limit then [d] else []), s').
Proof.
  intros limit s. split; [|split].
  - unfold get_job_history, bind, self. cbn [fst snd].
    eexists. split; [reflexivity|].
    unfold slice_to.
    destruct (0 <=? limit); rewrite length_take;
      destruct (last_run_result (fst s)) as [r|];
      try destruct (decide (r = ∅)); simpl; lia.
  - intros Hnone. unfold get_job_history, bind, self. cbn [fst snd].
    rewrite Hnone. unfold slice_to.
    destruct (0 <=? limit); by rewrite take_nil.
  - destruct (run_daily_job_status s) as (d & s' & Hrun & Hlast & Hstatus).
    exists d, s'. split; [exact Hrun|].
    unfold get_job_history, bind, self. cbn [fst snd]. rewrite Hlast.
    destruct (decide (d = ∅)) as [->|_].
    { rewrite lookup_empty in Hstatus. by destruct Hstatus. }
    unfold slice_to, ret. f_equal. f_equal.
    destruct (0 <=? limit) eqn:E0; destruct (1 <=? limit) eqn:E1.
    + apply Z.leb_le in E1.
      destruct (Z.to_nat limit) eqn:En; [lia|]. simpl. by rewrite take_nil.
    + apply Z.leb_gt in E1. apply Z.leb_le in E0.
      by replace limit with 0 by lia.
    + apply Z.leb_gt in E0. apply Z.leb_le in E1. lia.
    + apply Z.leb_gt in E0. simpl length.
      by replace (Z.to_nat (Z.of_nat 1 + limit)) with 0%nat by lia.
Qed.

Variable sleep : W -> W.

Lemma is_job_running_registered (s : @St W) j :
  is_running (fst s) = true ->
  get_job the_job_id (fst s) = Some j ->
  is_job_running s = (Ret true, s).
Proof.
  intros Hrun Hjob. unfold is_job_running, try_except, bind, self.
  cbn [fst snd]. rewrite Hrun, Hjob. cbn [negb].
  by rewrite (get_job_exists _ _ _ Hjob).
Qed.

Lemma wait_loop_times_out (sch : t) j start_time timeout :
  reads_forward now -> sleeps_a_second now sleep ->
  is_running sch = true ->
  get_job the_job_id sch = Some j ->
  forall turns w,
    (1 <= turns)%nat ->
    timeout - (Z.of_nat (fst (now w)) - Z.of_nat start_time)
    < Z.of_nat turns ->
    exists w',
      wait_loop now sleep turns start_time timeout (sch, w)
      = (Ret (Some tt), (sch, w'))
      /\ timeout <= Z.of_nat (fst (now w')) - Z.of_nat start_time.
Proof.
  intros Hfwd Hsleep Hrun Hjob turns.
  induction turns as [|n IH]; intros w Hone Hleft; [lia|].
  cbn [wait_loop]. unfold bind at 1.
  rewrite (is_job_running_registered (sch, w) j) by done.
  cbn [negb]. unfold bind at 1, read_clock at 1. cbn [fst snd].
  unfold seconds_between.
  destruct (Z.of_nat (fst (now w)) - Z.of_nat start_time <? timeout) eqn:E.
  - apply Z.ltb_lt in E. unfold bind at 1. cbn [fst snd].
    pose proof (Hfwd w) as H1. pose proof (Hsleep (snd (now w))) as H2.
    apply IH; lia.
  - apply Z.ltb_ge in E. exists (snd (now w)). split; [done|].
    pose proof (Hfwd w). lia.
Qed.

(** X21.  [wait_for_completion] on a running scheduler that holds the
    job, under a clock that does not go back and is a second further
    after each sleep: whether a run is in flight or not (no executor is
    asked), it sleeps until the timeout has passed and answers [False];
    the scheduler is as before. *)
Theorem wait_for_completion_times_out_on_a_started_scheduler :
  forall timeout turns (s : @St W) j,
    reads_forward now ->
    sleeps_a_second now sleep ->
    is_running (fst s) = true ->
    get_job the_job_id (fst s) = Some j ->
    (1 <= turns)%nat ->
    timeout < Z.of_nat turns ->
    exists w',
      wait_for_completion now sleep turns timeout s
      = (Ret (Some false), (fst s, w'))
      /\ timeout <= Z.of_nat (fst (now w')) - Z.of_nat (fst (now (snd s))).
Proof.
  intros timeout turns [sch w] j Hfwd Hsleep Hrun Hjob Hone Hturns.
  cbn [fst snd] in *.
  destruct (wait_loop_times_out sch j (fst (now w)) timeout Hfwd Hsleep
              Hrun Hjob turns (snd (now w)) Hone) as (w' & Hloop & Hlate).
  { pose proof (Hfwd w). lia. }
  exists w'. split; [|exact Hlate].
  unfold wait_for_completion. unfold bind at 1, read_clock at 1.
  cbn [fst snd]. unfold bind at 1. rewrite Hloop.
  unfold bind. by rewrite (is_job_running_registered (sch, w') j).
Qed.

End SchedulerOpsFacts.

(** Hour 24 is out of range. *)
Lemma reschedule_checks_before_it_changes_witness :
  SchedulerOps.reschedule Started.only_utc Scenario.complete_config
    (Some 24) None None Started.running
  = (Ret false, Started.running).
Proof.
  apply (reschedule_checks_before_it_changes Started.only_utc).
  left. simpl. lia.
Defined.

(** From nine o'clock to half past seven. *)
Lemma reschedule_replaces_the_job_witness :
  exists s',
    SchedulerOps.reschedule Started.only_utc Scenario.complete_config
      (Some 7) (Some 30) None Started.running = (Ret true, s')
    /\ DailyScheduler.jobs (fst s')
       = [DailyScheduler.mkJob DailyScheduler.the_job_id 7 30 "UTC" 1].
Proof.
  destruct (reschedule_replaces_the_job Started.only_utc
              Scenario.complete_config (Some 7) (Some 30) None
              Started.running
              (DailyScheduler.mkJob DailyScheduler.the_job_id 9 0 "UTC" 1))
    as (s' & Hrun & _).
  - unfold Clock.valid_schedule. simpl. repeat split; lia.
  - reflexivity.
  - reflexivity.
  - exists s'. split; [exact Hrun|].
    injection Hrun as <-. reflexivity.
Defined.

(** A time zone with a typing error. *)
Lemma reschedule_to_an_unknown_timezone_drops_the_job_witness :
  exists s',
    SchedulerOps.reschedule Started.only_utc Scenario.complete_config
      None None (Some "Europe/Berlni") Started.running = (Ret false, s')
    /\ DailyScheduler.jobs (fst s') = []
    /\ DailyScheduler.is_running (fst s') = true.
Proof.
  destruct (reschedule_to_an_unknown_timezone_drops_the_job Started.only_utc
              Scenario.complete_config None None (Some "Europe/Berlni")
              Started.running
              (DailyScheduler.mkJob DailyScheduler.the_job_id 9 0 "UTC" 1))
    as (s' & Hrun & _ & Hrunning & _).
  - simpl. lia.
  - simpl. lia.
  - reflexivity.
  - reflexivity.
  - reflexivity.
  - exists s'. split; [exact Hrun|]. split; [|exact Hrunning].
    injection Hrun as <-. reflexivity.
Defined.

(** The status the job function wrote is overwritten, its count kept. *)
Lemma run_daily_job_reports_the_result_witness :
  exists d,
    DailyScheduler._run_daily_job Started.one_sent Scenario.tick
      Started.running
    = (Ret d, (DailyScheduler.set_last_run_result d (fst Started.running),
               2%nat))
    /\ d !! "job_status" = Some (DailyScheduler.VStr "completed")
    /\ d !! "emails_sent" = Some (DailyScheduler.VInt 1).
Proof.
  destruct (run_daily_job_reports_the_result Scenario.tick Started.one_sent
              Started.running
              (<["emails_sent" := DailyScheduler.VInt 1]>
                 (<["job_status" := DailyScheduler.VStr "pending"]> ∅))
              1%nat)
    as (d & Hrun & Hstatus & _ & _ & _ & Hkeep); [reflexivity|].
  exists d. split; [exact Hrun|]. split; [exact Hstatus|].
  rewrite Hkeep; [reflexivity|].
  unfold Clock.job_keys. simpl. intros [H|[H|[H|[H|[]]]]]; discriminate.
Defined.

(** Five seconds of waiting for a scheduler that runs nothing. *)
Lemma wait_for_completion_times_out_on_a_started_scheduler_witness :
  exists w',
    SchedulerOps.wait_for_completion Scenario.tick S 6 5 Started.running
    = (Ret (Some false), (fst Started.running, w')).
Proof.
  destruct (wait_for_completion_times_out_on_a_started_scheduler
              Scenario.tick S 5 6 Started.running
              (DailyScheduler.mkJob DailyScheduler.the_job_id 9 0 "UTC" 1))
    as (w' & Hrun & _).
  - intros w. simpl. lia.
  - intros w. simpl. lia.
  - reflexivity.
  - reflexivity.
  - lia.
  - lia.
  - exists w'. exact Hrun.
Defined.

(** ** main.py: the commands that do run *)

Section ServiceFacts.

Import DailyScheduler Main Startup Clock.

Context {W : Type}.
Variable new_coordinator : M W unit.
Variable test_system_health : M W (list (string * bool)).
Variable process_daily_emails : M W Coordinator.BatchResult.
Variable initialize_sample_data : M W bool.
Variable get_system_stats : M W Dict.
Variable now : W -> Timestamp * W.
Variable known_timezone : string -> bool.
Variable next_run_time : W -> option Timestamp.
Variable fires_before_interrupt : W -> nat.

Lemma bind_step {S A B} (m : M S A) (k : A -> M S B) s a s1 :
  m s = (Ret a, s1) -> bind m k s = k a s1.
Proof. intros H. unfold bind. by rewrite H. Qed.

Lemma try_except_ret {S A} (m : M S A) h s a s1 :
  m s = (Ret a, s1) -> try_except m h s = (Ret a, s1).
Proof. intros H. unfold try_except. by rewrite H. Qed.

Lemma bind_raise {S A B} (m : M S A) (k : A -> M S B) s e s1 :
  m s = (Raise e, s1) -> bind m k s = (Raise e, s1).
Proof. intros H. unfold bind. by rewrite H. Qed.

Tactic Notation "bind_with" uconstr(H) :=
  rewrite (bind_step _ _ _ _ _ H); cbv beta.
Tactic Notation "raise_with" uconstr(H) :=
  rewrite (bind_raise _ _ _ _ _ H); cbv beta.

Ltac tidy :=
  unfold printed, proc_now; cbn [fst snd stdout calls world].

Lemma on_coordinator_eq {A} c (m : M W A) (s : @St W) o w' :
  m (world (snd s)) = (o, w') ->
  on_world (coordinator c m) s
  = (o, (fst s, mkProc (stdout (snd s)) (calls (snd s) ++ [c]) w')).
Proof. intros H. unfold on_world, coordinator. by rewrite H. Qed.

Lemma on_coordinator_at {A} c (m : M W A) (s : @St W) w o w' :
  world (snd s) = w -> m w = (o, w') ->
  on_world (coordinator c m) s
  = (o, (fst s, mkProc (stdout (snd s)) (calls (snd s) ++ [c]) w')).
Proof. intros <-. apply on_coordinator_eq. Qed.

Tactic Notation "call_with" constr(H) :=
  match goal with
  | |- context [bind (on_world (coordinator ?c ?m)) _ ?s0] =>
      rewrite (bind_step _ _ _ _ _
                 (on_coordinator_at c m s0 _ _ _ eq_refl H));
      cbv beta
  end.

Lemma get_eq {S} (s : S) : get s = (Ret s, s).
Proof. reflexivity. Qed.

Lemma update_self_eq (f : DailyScheduler.t -> DailyScheduler.t)
    (s : @St W) :
  update_self f s = (Ret tt, (f (fst s), snd s)).
Proof. reflexivity. Qed.

Lemma stop_running (s : @St W) :
  is_running (fst s) = true -> aps_running (fst s) = true ->
  stop s
  = (Ret true,
     (set_is_running false (set_jobs [] (set_aps_running false (fst s))),
      snd s)).
Proof.
  intros Hr Ha. unfold stop, try_except, bind, self, update_self.
  cbn [fst snd]. rewrite Hr. cbn [negb fst snd]. by rewrite Ha.
Qed.

Lemma print_next w (s : @St W) :
  match next_run_time w with
  | Some t => print (NextRunLine t)
  | None => ret tt
  end s
  = (Ret tt, printed match next_run_time w with
                     | Some t => [NextRunLine t]
                     | None => []
                     end s).
Proof. destruct (next_run_time w); [done|]. by rewrite printed_nil. Qed.

Lemma print_errors errors (s : @St W) :
  match errors with
  | e :: es =>
      print (Text "Errors:") ;;; print_all (map (ErrorLine "") (e :: es))
  | [] => ret tt
  end s
  = (Ret tt, printed match errors with
                     | e :: es => Text "Errors:" :: map (ErrorLine "") (e :: es)
                     | [] => []
                     end s).
Proof.
  destruct errors as [|e es]; [by rewrite printed_nil|].
  bind_with (print_eq _ _). rewrite print_all_eq. by rewrite printed_app.
Qed.

Lemma batches_run_app cs1 cs2 :
  batches_run (cs1 ++ cs2) = (batches_run cs1 + batches_run cs2)%nat.
Proof. unfold batches_run. by rewrite List.filter_app, length_app. Qed.

Lemma on_world_eq {A} (m : M Proc A) (s : @St W) o p' :
  m (snd s) = (o, p') -> on_world m s = (o, (fst s, p')).
Proof. intros H. unfold on_world. by rewrite H. Qed.

Lemma read_clock_eq (f : Proc -> Timestamp * Proc) (s : @St W) :
  read_clock f s = (Ret (fst (f (snd s))), (fst s, snd (f (snd s)))).
Proof. reflexivity. Qed.

(** The job function of main.py: one call of the batch, noted whether it
    returns or raises. *)
Lemma job_outcome (p : Proc) :
  exists o w',
    job process_daily_emails p
    = (o, mkProc (stdout p) (calls p ++ [ProcessDailyEmails]) w').
Proof.
  unfold job, batch, bind, coordinator.
  destruct (process_daily_emails (world p)) as [[r|e] w']; by eexists _, _.
Qed.

(** A run of the job inside main.py: one batch, counted whether
    it returns or raises, and a stored result. *)
Lemma run_daily_job_in_main (s : @St W) :
  exists d s',
    _run_daily_job (job process_daily_emails) (proc_now now) s = (Ret d, s')
    /\ last_run_result (fst s') = Some d
    /\ is_running (fst s') = is_running (fst s)
    /\ aps_running (fst s') = aps_running (fst s)
    /\ jobs (fst s') = jobs (fst s)
    /\ stdout (snd s') = stdout (snd s)
    /\ calls (snd s') = calls (snd s) ++ [ProcessDailyEmails].
Proof.
  destruct (job_outcome (snd (proc_now now (snd s)))) as (o & w' & Hjob).
  pose proof (on_world_eq (job process_daily_emails)
                (fst s, snd (proc_now now (snd s))) _ _ Hjob) as Hw.
  unfold _run_daily_job, try_except.
  bind_with (read_clock_eq _ _).
  destruct o as [d|e].
  - bind_with Hw.
    bind_with (read_clock_eq _ _).
    unfold bind, update_self, ret. cbn [fst snd].
    eexists _, _. split; [reflexivity|]. by cbn.
  - raise_with Hw.
    bind_with (read_clock_eq _ _).
    bind_with (read_clock_eq _ _).
    unfold bind, update_self, ret. cbn [fst snd].
    eexists _, _. split; [reflexivity|]. by cbn.
Qed.

Lemma serve_runs n (s : @St W) :
  exists s',
    serve process_daily_emails now n s = (Ret tt, s')
    /\ is_running (fst s') = is_running (fst s)
    /\ aps_running (fst s') = aps_running (fst s)
    /\ jobs (fst s') = jobs (fst s)
    /\ stdout (snd s') = stdout (snd s)
    /\ batches_run (calls (snd s')) = (batches_run (calls (snd s)) + n)%nat
    /\ ((0 < n)%nat -> is_Some (last_run_result (fst s'))).
Proof.
  revert s. induction n as [|n IH]; intros s.
  - exists s. simpl. do 5 (split; [done|]). split; lia.
  - destruct (run_daily_job_in_main s)
      as (d & s1 & Hrun & Hlast & Hr & Ha & Hj & Hout & Hcalls).
    destruct (IH s1) as (s' & Hserve & Hr' & Ha' & Hj' & Hout' & Hn & Hsome).
    exists s'. cbn [serve]. bind_with Hrun. rewrite Hserve.
    rewrite Hr', Ha', Hj', Hout', Hn, Hcalls, batches_run_app.
    change (batches_run [ProcessDailyEmails]) with 1%nat.
    do 5 (split; [done|]). split; [lia|].
    intros _. destruct n as [|n'].
    + simpl in Hserve. injection Hserve as <-. by rewrite Hlast.
    + apply Hsome. lia.
Qed.

(** X22.  [run_scheduler] with a complete configuration and a health
    report whose [overall] is false or missing: it prints the report
    and answers [False]; no scheduler is made or started, no batch runs,
    and the coordinator was asked for its construction and the health
    test only. *)
Theorem unhealthy_system_is_not_scheduled :
  forall cfg (s : @St W) w1 health w2,
    fst (Config.validate_config cfg) = true ->
    new_coordinator (world (snd s)) = (Ret tt, w1) ->
    test_system_health w1 = (Ret health, w2) ->
    overall health = false ->
    exists s',
      run_scheduler new_coordinator test_system_health process_daily_emails
        now known_timezone next_run_time fires_before_interrupt cfg s
      = (Ret false, s')
      /\ fst s' = fst s
      /\ calls (snd s') = calls (snd s) ++ [NewCoordinator; TestSystemHealth]
      /\ world (snd s') = w2
      /\ stdout (snd s')
         = stdout (snd s)
           ++ [Text "Starting LeetCode Email Agent Scheduler..."]
           ++ map Text (snd (Config.validate_config cfg))
           ++ [Text "Testing system health...";
               Text "System health check failed:"]
           ++ health_lines health.
Proof.
  intros cfg s w1 health w2 Hvalid Hnew Hhealth Hbad.
  eexists. split.
  { unfold run_scheduler.
    bind_with (print_eq _ _). tidy.
    bind_with (validate_eq _ _). tidy. rewrite Hvalid. cbn [negb].
    apply try_except_ret.
    call_with Hnew. tidy.
    bind_with (print_eq _ _). tidy.
    call_with Hhealth. tidy.
    rewrite Hbad. cbn [negb].
    bind_with (print_eq _ _). tidy.
    bind_with (print_all_eq _ _). tidy.
    reflexivity. }
  cbn [fst snd stdout calls world].
  repeat split; by rewrite <- ?app_assoc.
Qed.

Lemma admitted_le_firings m actions th :
  (admitted m actions th <= firings actions)%nat.
Proof.
  revert th. induction actions as [|a rest IH]; intros th; [done|].
  unfold firings in *. cbn [admitted List.filter].
  destruct (step m a th) as [th'|]; [|lia].
  specialize (IH th').
  destruct (is_firing a); cbn [andb length]; [|lia].
  destruct (_ <? _)%nat; lia.
Qed.


(** X24.  [run_once] with a complete configuration and a batch that
    returns: it runs exactly one batch and answers whether a mail was
    sent or there was no subscriber; so a batch in which every delivery
    failed makes the command fail.  No scheduler is touched. *)
Theorem run_once_reports_whether_anything_was_sent :
  forall cfg (s : @St W) w1 r w2 t,
    fst (Config.validate_config cfg) = true ->
    new_coordinator (world (snd s)) = (Ret tt, w1) ->
    process_daily_emails w1 = (Ret r, w2) ->
    Coordinator.end_time r = Some t ->
    exists s',
      run_once new_coordinator process_daily_emails now cfg s
      = (Ret ((0 <? Coordinator.emails_sent r)%nat
              || (Coordinator.total_users r =? 0)%nat), s')
      /\ batches_run (calls (snd s')) = (batches_run (calls (snd s)) + 1)%nat
      /\ fst s' = fst s.
Proof.
  intros cfg s w1 r w2 t Hvalid Hnew Hbatch Hend.
  eexists. split.
  { unfold run_once.
    bind_with (print_eq _ _). tidy.
    bind_with (validate_eq _ _). tidy. rewrite Hvalid. cbn [negb].
    apply try_except_ret.
    call_with Hnew. tidy.
    bind_with (print_eq _ _). tidy.
    unfold batch.
    call_with Hbatch. tidy.
    do 4 (bind_with (print_eq _ _); tidy).
    bind_with (print_errors _ _). tidy.
    bind_with (read_clock_eq _ _). tidy.
    bind_with (read_clock_eq _ _). tidy.
    rewrite Hend.
    bind_with (print_eq _ _). tidy.
    reflexivity. }
  cbn [fst snd stdout calls world].
  rewrite !batches_run_app.
  change (batches_run [NewCoordinator]) with 0%nat.
  change (batches_run [ProcessDailyEmails]) with 1%nat.
  split; [lia|done].
Qed.

(** X25.  The function [main] with none of [--scheduler], [--run-once],
    [--init-data] and [--test]: it prints (the help, or the configuration
    with its status) and returns without [sys.exit(1)], also when the
    configuration is invalid; no coordinator is made and no scheduler
    touched. *)
Theorem main_without_a_command_only_prints :
  forall args cfg (s : @St W),
    arg_scheduler args = false ->
    arg_run_once args = false ->
    arg_init_data args = false ->
    arg_test args = false ->
    exists ls,
      main new_coordinator test_system_health process_daily_emails
        initialize_sample_data get_system_stats now known_timezone
        next_run_time fires_before_interrupt args cfg s
      = (Ret 0, printed ls s).
Proof.
  intros args cfg s Hs Ho Hi Ht. unfold main. rewrite Hs, Ho, Hi, Ht.
  destruct (arg_config args); cbn [orb negb].
  - eexists. unfold show_config.
    unfold bind at 1.
    bind_with (print_eq _ _).
    bind_with (validate_eq _ _).
    bind_with (print_eq _ _).
    rewrite print_eq. unfold bind, ret. rewrite !printed_app. reflexivity.
  - eexists. by bind_with (print_eq _ _).
Qed.

End ServiceFacts.

(** The mail server cannot be reached: nothing is scheduled. *)
Lemma unhealthy_system_is_not_scheduled_witness :
  exists s',
    Main.run_scheduler (ret tt) Process.no_mail_server Process.all_failed
      Scenario.tick Started.only_utc (fun _ => None) (fun _ => 2%nat)
      Scenario.complete_config Process.fresh = (Ret false, s')
    /\ fst s' = DailyScheduler.__init__
    /\ Main.calls (snd s') = [Main.NewCoordinator; Main.TestSystemHealth].
Proof.
  destruct (unhealthy_system_is_not_scheduled (ret tt)
              Process.no_mail_server Process.all_failed Scenario.tick
              Started.only_utc (fun _ => None) (fun _ => 2%nat)
              Scenario.complete_config Process.fresh 0%nat
              [("database", true); ("groq_api", true); ("email", false);
               ("fetch_agent", true); ("overall", false)] 0%nat)
    as (s' & Hrun & Hsch & Hcalls & _); try reflexivity.
  exists s'. split; [exact Hrun|]. split; [exact Hsch|exact Hcalls].
Defined.


(** Two subscribers, no mail delivered: the command fails. *)
Lemma run_once_reports_whether_anything_was_sent_witness :
  exists s',
    Main.run_once (ret tt) Process.all_failed Scenario.tick
      Scenario.complete_config Process.fresh = (Ret false, s')
    /\ Startup.batches_run (Main.calls (snd s')) = 1%nat.
Proof.
  destruct (run_once_reports_whether_anything_was_sent (ret tt)
              Process.all_failed Scenario.tick Scenario.complete_config
              Process.fresh 0%nat
              (Coordinator.mkBatchResult 2 0 2 [] 0%nat (Some 1%nat))
              0%nat 1%nat)
    as (s' & Hrun & Hn & _); try reflexivity.
  exists s'. split; [exact Hrun|exact Hn].
Defined.

(** [--config] with the key of the generation API missing. *)
Lemma main_without_a_command_only_prints_witness :
  exists ls,
    Main.main (ret tt) Process.healthy Process.all_failed (ret true)
      (ret ∅) Scenario.tick Started.only_utc (fun _ => None)
      (fun _ => 2%nat) Process.only_config Scenario.no_api_key Process.fresh
    = (Ret 0, Startup.printed ls Process.fresh).
Proof.
  apply (main_without_a_command_only_prints (ret tt) Process.healthy
           Process.all_failed (ret true) (ret ∅) Scenario.tick
           Started.only_utc (fun _ => None) (fun _ => 2%nat)
           Process.only_config Scenario.no_api_key Process.fresh);
    reflexivity.
Defined.

(** ** The response parser: what it does find *)

Section ExtractionFacts.

Import PyStr SolveAgent Response.

Lemma append_cons c b s : String c b +:+ s = String c (b +:+ s).
Proof. reflexivity. Qed.

Lemma append_nil s : "" +:+ s = s.
Proof. reflexivity. Qed.

Lemma after_literal_app p s : after_literal p (p +:+ s) = Some s.
Proof.
  induction p as [|a p IH]; simpl; [done|].
  by rewrite bool_decide_eq_true_2.
Qed.

Lemma after_literal_ci_app language tag s :
  lower tag = lower language ->
  after_literal_ci language (tag +:+ s) = Some s.
Proof.
  revert tag. induction language as [|a p IH]; intros tag; simpl.
  - by destruct tag.
  - destruct tag as [|b tag]; simpl; [done|].
    intros [= Hb Htag]. rewrite bool_decide_eq_true_2 by done. by apply IH.
Qed.

Lemma startswith_straddle b rest :
  b <> "" -> startswith b closing_fence = false ->
  startswith (b +:+ closing_fence +:+ rest) closing_fence = false.
Proof.
  unfold closing_fence, fence.
  destruct b as [|c1 [|c2 [|c3 [|c4 b]]]]; [done|..]; intros _; simpl;
    repeat case_bool_decide; subst; try done.
  destruct b; simpl; done.
Qed.

Lemma startswith_app p s : startswith (p +:+ s) p = true.
Proof.
  induction p as [|a p IH]; simpl; [by destruct s|].
  by rewrite bool_decide_eq_true_2.
Qed.

Lemma lazy_body_here s :
  startswith s closing_fence = true -> lazy_body s = Some "".
Proof.
  intros H. destruct s as [|c s]; [done|].
  cbn [lazy_body]. by rewrite H.
Qed.

Lemma lazy_body_finds b rest :
  contains b closing_fence = false ->
  lazy_body (b +:+ closing_fence +:+ rest) = Some b.
Proof.
  induction b as [|c b IH]; intros Hb.
  - apply lazy_body_here. apply (startswith_app closing_fence rest).
  - rewrite contains_cons in Hb. apply orb_false_iff in Hb as [Hhead Htail].
    rewrite append_cons. cbn [lazy_body]. rewrite <- append_cons.
    rewrite startswith_straddle by done.
    by rewrite IH.
Qed.

Lemma contains_after_indent indent body :
  all_chars (fun c => is_space c && negb (bool_decide (c = newline)))
            indent = true ->
  contains body closing_fence = false ->
  contains (indent +:+ body) closing_fence = false.
Proof.
  intros Hi Hb. induction indent as [|c indent IH]; [done|].
  simpl in Hi. apply andb_true_iff in Hi as [[_ Hc]%andb_true_iff Hi].
  apply negb_true_iff, bool_decide_eq_false in Hc.
  rewrite append_cons, contains_cons. apply orb_false_iff. split.
  - unfold closing_fence. cbn [startswith].
    by rewrite bool_decide_eq_false_2.
  - by apply IH.
Qed.

Lemma spaces_newline_body_indent indent body s :
  all_chars (fun c => is_space c && negb (bool_decide (c = newline)))
            indent = true ->
  starts_with_text body = true ->
  spaces_newline_body (indent +:+ body +:+ s) = None.
Proof.
  intros Hi Hb. induction indent as [|c indent IH].
  - destruct body as [|c body]; [done|]. rewrite append_nil, append_cons.
    cbn [spaces_newline_body]. simpl in Hb.
    by apply negb_true_iff in Hb as ->.
  - simpl in Hi. apply andb_true_iff in Hi as [[Hs Hc]%andb_true_iff Hi].
    apply negb_true_iff in Hc.
    rewrite append_cons. cbn [spaces_newline_body]. by rewrite Hs, IH, Hc.
Qed.

Lemma spaces_newline_body_finds ws indent body rest :
  all_chars is_space ws = true ->
  all_chars (fun c => is_space c && negb (bool_decide (c = newline)))
            indent = true ->
  starts_with_text body = true ->
  contains body closing_fence = false ->
  spaces_newline_body
    (ws +:+ String newline (indent +:+ body +:+ closing_fence +:+ rest))
  = Some (indent +:+ body).
Proof.
  intros Hws Hi Hb Hc. induction ws as [|c ws IH].
  - rewrite append_nil. cbn [spaces_newline_body].
    change (is_space newline) with true. cbn iota.
    rewrite spaces_newline_body_indent by done.
    rewrite bool_decide_eq_true_2 by done.
    assert (indent +:+ body +:+ closing_fence +:+ rest
            = (indent +:+ body) +:+ closing_fence +:+ rest) as ->.
    { clear. induction indent as [|c indent IH]; [done|].
      rewrite !append_cons. by rewrite IH. }
    apply lazy_body_finds. by apply contains_after_indent.
  - simpl in Hws. apply andb_true_iff in Hws as [Hs Hws].
    rewrite append_cons. cbn [spaces_newline_body]. by rewrite Hs, IH.
Qed.

Lemma search_skips anchored pre s :
  (forall c t, c <> backtick -> anchored (String c t) = None) ->
  all_chars (fun c => negb (bool_decide (c = backtick))) pre = true ->
  search anchored (pre +:+ s) = search anchored s.
Proof.
  intros Hanch Hpre. induction pre as [|c pre IH]; [done|].
  simpl in Hpre. apply andb_true_iff in Hpre as [Hc Hpre].
  apply negb_true_iff, bool_decide_eq_false in Hc.
  rewrite append_cons. cbn [search]. rewrite Hanch by done. by apply IH.
Qed.

Lemma search_here anchored s g :
  anchored s = Some g -> search anchored s = Some g.
Proof. intros H. destruct s; cbn [search]; by rewrite H. Qed.

Lemma lstrip_indent indent body :
  all_chars (fun c => is_space c && negb (bool_decide (c = newline)))
            indent = true ->
  lstrip (indent +:+ body) = lstrip body.
Proof.
  intros Hi. induction indent as [|c indent IH]; [done|].
  simpl in Hi. apply andb_true_iff in Hi as [[Hs _]%andb_true_iff Hi].
  rewrite append_cons. cbn [lstrip]. rewrite Hs. by apply IH.
Qed.

(** X26.  [_extract_code_block] on a text that has, after a part without
    a backtick, a fence with the language (in any case of letters), white
    space up to a line end, and a block of code whose first line may be
    indented and which holds no closing fence, then the closing fence:
    the result is the block, stripped, whatever follows the closing
    fence. *)
Theorem extract_code_block_returns_the_fenced_block :
  forall language pre tag ws indent body rest,
    plain_name language = true ->
    all_chars (fun c => negb (bool_decide (c = backtick))) pre = true ->
    lower tag = lower language ->
    all_chars is_space ws = true ->
    all_chars (fun c => is_space c && negb (bool_decide (c = newline)))
              indent = true ->
    starts_with_text body = true ->
    contains body closing_fence = false ->
    _extract_code_block
      (pre +:+ fence +:+ tag +:+ ws
       +:+ String newline (indent +:+ body +:+ closing_fence +:+ rest))
      language
    = strip body.
Proof.
  intros language pre tag ws indent body rest _ Hpre Htag Hws Hi Hb Hc.
  unfold _extract_code_block.
  rewrite (search_skips (match_language_fence language)); [|..|done].
  - rewrite (search_here _ _ (indent +:+ body)).
    + unfold strip. by rewrite lstrip_indent.
    + unfold match_language_fence.
      rewrite after_literal_app. cbn [mbind option_bind].
      rewrite after_literal_ci_app by done. cbn [mbind option_bind].
      by apply spaces_newline_body_finds.
  - intros c t Hne. unfold match_language_fence, fence. simpl.
    rewrite bool_decide_eq_false_2; [done|].
    intros <-. by apply Hne.
Qed.

End ExtractionFacts.

(** A capitalised tag, an indented first line, text after the block. *)
Lemma extract_code_block_returns_the_fenced_block_witness :
  SolveAgent._extract_code_block Answers.tagged "python" = Answers.block.
Proof.
  apply (extract_code_block_returns_the_fenced_block "python"
           "Here you go: " "Python" " " "    " Answers.block
           (Answers.nl "Hope this helps.")); reflexivity.
Defined.

Section ParseFacts.

Import PyStr SolveAgent Response.

Variable language : string.

Lemma scan_plain_lines body sc sec :
  plain_lines body ->
  current_section sc = Some sec ->
  fold_left (scan_line language) body sc
  = mkScan (Some sec) (current_content sc ++ body) (result sc).
Proof.
  intros Hbody. revert sc. induction Hbody as [|l body Hl _ IH]; intros sc Hsec.
  - simpl. rewrite app_nil_r. destruct sc. simpl in Hsec. by subst.
  - cbn [fold_left]. rewrite (IH (scan_line language sc l)).
    + unfold scan_line. rewrite Hl, Hsec. simpl. by rewrite <- app_assoc.
    + unfold scan_line. by rewrite Hl, Hsec.
Qed.

Lemma scan_preamble pre r :
  plain_lines pre ->
  fold_left (scan_line language) pre (mkScan None [] r) = mkScan None [] r.
Proof.
  intros Hpre. induction Hpre as [|l pre Hl _ IH]; [done|].
  cbn [fold_left]. unfold scan_line at 2. by rewrite Hl.
Qed.

Lemma scan_line_eq sc h sec :
  header_of h = Some sec ->
  scan_line language sc h
  = mkScan (Some sec) []
      match sec, current_section sc with
      | explanation_, Some code_ =>
          set_code (_extract_code_block (body_text sc) language) (result sc)
      | time_complexity_, Some explanation_ =>
          set_explanation (strip (body_text sc)) (result sc)
      | space_complexity_, Some time_complexity_ =>
          set_time_complexity (strip (body_text sc)) (result sc)
      | approach_, Some space_complexity_ =>
          set_space_complexity (strip (body_text sc)) (result sc)
      | _, _ => result sc
      end.
Proof.
  intros H. unfold scan_line. rewrite H.
  destruct sec; try done; by destruct (current_section sc) as [[]|].
Qed.

(** X27.  [_parse_solution_response] on a response whose lines are, after
    a preamble, the five headers in the order asked for, each followed by
    lines that open no section: the code is what [_extract_code_block]
    finds in the lines under [SOLUTION:], and each other section is its
    lines joined and stripped; the text on a header line itself is
    dropped, and so is the preamble; empty code or explanation is then
    filled from the whole response. *)
Theorem parse_solution_response_splits_the_sections :
  forall content pre h1 b1 h2 b2 h3 b3 h4 b4 h5 b5,
    split_lines content
    = pre ++ [h1] ++ b1 ++ [h2] ++ b2 ++ [h3] ++ b3 ++ [h4] ++ b4
      ++ [h5] ++ b5 ->
    header_of h1 = Some code_ ->
    header_of h2 = Some explanation_ ->
    header_of h3 = Some time_complexity_ ->
    header_of h4 = Some space_complexity_ ->
    header_of h5 = Some approach_ ->
    plain_lines pre -> plain_lines b1 -> plain_lines b2 ->
    plain_lines b3 -> plain_lines b4 -> plain_lines b5 ->
    _parse_solution_response content language
    = fill_missing content language
        (mkParsed (_extract_code_block (join_lines b1) language)
                  (strip (join_lines b2))
                  (strip (join_lines b3))
                  (strip (join_lines b4))
                  (strip (join_lines b5))).
Proof.
  intros content pre h1 b1 h2 b2 h3 b3 h4 b4 h5 b5 Hlines
    Hh1 Hh2 Hh3 Hh4 Hh5 Hpre Hb1 Hb2 Hb3 Hb4 Hb5.
  unfold _parse_solution_response. rewrite Hlines. f_equal.
  rewrite fold_left_app, scan_preamble by done.
  cbn [app fold_left]. rewrite (scan_line_eq _ _ _ Hh1).
  rewrite fold_left_app, (scan_plain_lines b1 _ code_) by done.
  cbn [app fold_left]. rewrite (scan_line_eq _ _ _ Hh2).
  rewrite fold_left_app, (scan_plain_lines b2 _ explanation_) by done.
  cbn [app fold_left]. rewrite (scan_line_eq _ _ _ Hh3).
  rewrite fold_left_app, (scan_plain_lines b3 _ time_complexity_) by done.
  cbn [app fold_left]. rewrite (scan_line_eq _ _ _ Hh4).
  rewrite fold_left_app, (scan_plain_lines b4 _ space_complexity_) by done.
  cbn [app fold_left]. rewrite (scan_line_eq _ _ _ Hh5).
  rewrite (scan_plain_lines b5 _ approach_) by done.
  reflexivity.
Qed.

Context {Env : Type}.
Variable client : bool.
Variable create : Problem.t -> string -> Env -> outcome (list string) * Env.

Lemma effective_language_supported lang :
  In (lower (effective_language lang)) Config.SUPPORTED_LANGUAGES.
Proof.
  unfold effective_language.
  destruct (existsb _ _) eqn:E.
  - apply existsb_exists in E as [x [Hx ->%eqb_str_true]]. done.
  - simpl. tauto.
Qed.

(** X28.  [generate_solution] without a client answers [None] and asks
    nobody.  With a client it asks for the given language when its
    lower-case form is a key of [SUPPORTED_LANGUAGES] and for Python
    otherwise; when the answer has a choice, the solution is built from
    the first one: it names the problem, its language is the lower-case
    form of the language asked for, always a key of
    [SUPPORTED_LANGUAGES], its fields are those of
    [_parse_solution_response], and the humour is empty.  An answer
    without a choice and an exception give [None]. *)
Theorem generate_solution_answers_in_a_supported_language :
  forall problem lang env,
    (client = false ->
     generate_solution client create problem lang env = (None, env))
    /\ (client = true ->
        match create problem (effective_language lang) env with
        | (Ret (content :: _), env') =>
            let parsed :=
              _parse_solution_response content (effective_language lang) in
            generate_solution client create problem lang env
            = (Some (Solution.mk (Problem.id problem)
                       (lower (effective_language lang))
                       (code parsed) (explanation parsed)
                       (time_complexity parsed) (space_complexity parsed)
                       ""),
               env')
            /\ In (lower (effective_language lang))
                  Config.SUPPORTED_LANGUAGES
        | (_, env') =>
            generate_solution client create problem lang env = (None, env')
        end).
Proof.
  intros problem lang env. split.
  - intros ->. reflexivity.
  - intros ->. unfold generate_solution. cbn [negb].
    fold (effective_language lang).
    destruct (create problem (effective_language lang) env)
      as [[[|content more]|e] env']; try done.
    split; [done|]. apply effective_language_supported.
Qed.

End ParseFacts.

(** A response in the requested format, the complexities on the header
    lines: they are lost. *)
Lemma parse_solution_response_splits_the_sections_witness :
  SolveAgent._parse_solution_response Answers.formatted "python"
  = SolveAgent.mkParsed "return []" "Two pointers." "" "" "1. Sort.
2. Scan.".
Proof.
  rewrite (parse_solution_response_splits_the_sections "python"
             Answers.formatted ["Sure."] "SOLUTION:"
             ["```python"; "return []"; "```"] "Explanation: see below"
             ["Two pointers."; ""] "TIME COMPLEXITY: O(n)" []
             "SPACE COMPLEXITY: O(1)" [] "APPROACH:"
             ["1. Sort."; "2. Scan."]);
    try reflexivity;
    repeat (constructor; try reflexivity).
Defined.

(** ** The fetch agent and the first-time setup *)

Section FetchFacts.

Import PyStr FetchAgent.

Lemma filter_head_find {A} (f : A -> bool) l :
  match List.filter f l with
  | [] => None
  | x :: _ => Some x
  end = List.find f l.
Proof.
  induction l as [|x l IH]; simpl; [done|]. by destruct (f x).
Qed.

Lemma get_problem_by_difficulty_eq now difficulty s :
  get_problem_by_difficulty now difficulty s
  = (to_problem now difficulty
       <$> List.find (matches difficulty) (fst (_load_problems s)),
     snd (_load_problems s)).
Proof.
  unfold get_problem_by_difficulty.
  rewrite <- filter_head_find.
  destruct (fst (_load_problems s)) as [|e es]; [done|].
  by destruct (List.filter _ _).
Qed.

(** X29.  [get_problem_by_difficulty] answers with the first entry whose
    difficulty is the one asked for up to the case of letters, the same
    entry at every call and no random one; the problem carries the
    difficulty as the file spells it, which equals the one asked for when
    both are lower-cased.  Once entries were loaded, later calls answer
    from them whatever the file has become, until [refresh_cache], after
    which the file is read again. *)
Theorem get_problem_by_difficulty_takes_the_first_match :
  forall now difficulty s,
    get_problem_by_difficulty now difficulty s
    = (to_problem now difficulty
         <$> List.find (matches difficulty) (fst (_load_problems s)),
       snd (_load_problems s))
    /\ (forall p,
           fst (get_problem_by_difficulty now difficulty s) = Some p ->
           lower (Problem.difficulty p) = lower difficulty)
    /\ (forall file now' difficulty',
           problems_file s <> None \/ _problems_cache s <> None ->
           fst (get_problem_by_difficulty now' difficulty'
                  (set_file file
                     (snd (get_problem_by_difficulty now difficulty s))))
           = to_problem now' difficulty'
               <$> List.find (matches difficulty') (fst (_load_problems s)))
    /\ (forall file,
           fst (_load_problems (set_file file (refresh_cache s)))
           = default [] file).
Proof.
  intros now difficulty s. split; [apply get_problem_by_difficulty_eq|].
  split; [|split].
  - intros p. rewrite get_problem_by_difficulty_eq. cbn [fst].
    destruct (List.find _ _) as [e|] eqn:E; [|done].
    intros [= <-]. apply find_some in E as [_ He].
    apply eqb_str_true in He. unfold to_problem, get in *. simpl.
    destruct (e !! "difficulty"); [done|]. simpl in He. done.
  - intros file now' difficulty' Hloaded.
    rewrite !get_problem_by_difficulty_eq. cbn [fst snd].
    unfold _load_problems, set_file.
    destruct (_problems_cache s) as [cache|] eqn:Hc; cbn; [by rewrite Hc|].
    destruct (problems_file s) as [entries|] eqn:Hf; cbn; [done|].
    by destruct Hloaded.
  - intros file. unfold _load_problems, set_file, refresh_cache. cbn.
    by destruct file.
Qed.

End FetchFacts.

Section SetupFacts.

Import DatabaseManager Integrity Coordinator Conduct Setup.

Context {Env : Type} (agents : Agents Env).
Variable get_all_problems : Env -> list Problem.t * Env.

Lemma add_all_appends ps n (w : @World Env) :
  exists w' rows,
    add_all agents ps n w = (Ret (n + length ps)%nat, w')
    /\ problems (w_db w') = problems (w_db w) ++ rows
    /\ Forall2 copy_of ps rows
    /\ users (w_db w') = users (w_db w)
    /\ sent_problems (w_db w') = sent_problems (w_db w).
Proof.
  revert n w. induction ps as [|p ps IH]; intros n w.
  - exists w, []. simpl. rewrite app_nil_r, Nat.add_0_r.
    repeat split. constructor.
  - cbn [add_all]. unfold bind at 1, call at 1. cbn [fst snd].
    unfold bind at 1, exec at 1. cbn [fst snd w_db w_env].
    rewrite add_problem_eq. cbn [fst snd].
    match goal with
    | |- context [add_all agents ps (S n) ?w1] =>
        destruct (IH (S n) w1) as (w' & rows & Hrun & Hps & Hcopies & Hus & Hsp)
    end.
    cbn [w_db problems users sent_problems with_problems] in Hps, Hus, Hsp.
    eexists w', (_ :: rows). rewrite Hrun, Hps, <- app_assoc.
    split; [f_equal; f_equal; simpl; lia|]. split; [done|].
    split; [|done]. constructor; [by repeat split|done].
Qed.

(** X30.  [initialize_sample_data] with no problem from the fetch agent
    answers [False] and stores nothing.  Otherwise it answers [True] and
    appends a copy of every problem, in the order given, under new keys;
    nothing is compared with the problems already stored, so a second run
    stores every problem a second time.  Subscribers and delivery
    records are not touched. *)
Theorem initialize_sample_data_appends_every_problem :
  forall (w : @World Env) ps e1,
    get_all_problems (w_env w) = (ps, e1) ->
    exists w' rows,
      initialize_sample_data agents get_all_problems w
      = (Ret (negb (Nat.eqb (length ps) 0)), w')
      /\ problems (w_db w') = problems (w_db w) ++ rows
      /\ Forall2 copy_of ps rows
      /\ users (w_db w') = users (w_db w)
      /\ sent_problems (w_db w') = sent_problems (w_db w).
Proof.
  intros w ps e1 Hall.
  unfold initialize_sample_data, try_except.
  unfold bind at 1, call at 1. rewrite Hall. cbn [fst snd].
  destruct ps as [|p ps].
  - eexists _, []. split; [reflexivity|]. cbn [w_db].
    rewrite app_nil_r. repeat split. constructor.
  - destruct (add_all_appends (p :: ps) 0 (mkWorld (w_db w) e1))
      as (w' & rows & Hrun & H).
    exists w', rows. unfold bind. rewrite Hrun. split; [done|exact H].
Qed.

End SetupFacts.

(** Two entries of the tier, spelled [Easy] and [easy]: the first one,
    with its capital. *)
Lemma get_problem_by_difficulty_takes_the_first_match_witness :
  fst (FetchAgent.get_problem_by_difficulty 0%nat "EASY" Shelf.agent)
  = Some (FetchAgent.to_problem 0%nat "EASY" Shelf.two_sum).
Proof.
  rewrite (proj1 (get_problem_by_difficulty_takes_the_first_match
                    0%nat "EASY" Shelf.agent)).
  reflexivity.
Defined.

(** The setup run twice: every problem is stored twice. *)
Lemma initialize_sample_data_appends_every_problem_witness :
  exists w1 w2 rows1 rows2,
    Setup.initialize_sample_data Scenario.agents
      (fun e => (Shelf.sample, e)) Scenario.fresh = (Ret true, w1)
    /\ Setup.initialize_sample_data Scenario.agents
         (fun e => (Shelf.sample, e)) w1 = (Ret true, w2)
    /\ DatabaseManager.problems (Coordinator.w_db w2) = rows1 ++ rows2
    /\ Forall2 Conduct.copy_of Shelf.sample rows1
    /\ Forall2 Conduct.copy_of Shelf.sample rows2.
Proof.
  destruct (initialize_sample_data_appends_every_problem Scenario.agents
              (fun e => (Shelf.sample, e)) Scenario.fresh Shelf.sample 0%nat)
    as (w1 & rows1 & Hrun1 & Hps1 & Hcopies1 & _); [reflexivity|].
  destruct (initialize_sample_data_appends_every_problem Scenario.agents
              (fun e => (Shelf.sample, e)) w1 Shelf.sample
              (Coordinator.w_env w1))
    as (w2 & rows2 & Hrun2 & Hps2 & Hcopies2 & _); [reflexivity|].
  exists w1, w2, rows1, rows2.
  split; [exact Hrun1|]. split; [exact Hrun2|].
  split; [|split; [exact Hcopies1|exact Hcopies2]].
  rewrite Hps2, Hps1. reflexivity.
Defined.
